(** * sort_music.py: classification and placement engine

    A shallow embedding of [src/sort_music.py], and the properties of its
    classifier, its versioning of colliding names and its copy loop.

    Text.  A Python [str] is modelled by [string]; a character is read as
    the code point of the same number, so the strings of this development
    are the Python strings over U+0000..U+00FF.  On that range the tables
    of the [re] module used below ([\w], [\d], lower-casing under
    [re.IGNORECASE]) are written out in full.

    Regular expressions.  The keywords of [GENRE_RULES] are kept as the
    pattern texts of the source and are read by a parser for the part of
    the [re] syntax they use: literals, escaped punctuation, [\b], [\d]
    and the postfix [?] and [+].

    Paths.  A [pathlib.Path] is its list of components, root first, with
    the POSIX flavour of [/], [name], [parent], [stem] and [suffix] (the
    last two as in Python 3.4 to 3.13).

    File system.  A finite map from paths to nodes: a regular file with
    its content, or a directory.  Time stamps and permissions are not in
    the map.  What the operating system may refuse for reasons outside the
    map (permissions, a full disk) is an oracle, the variable [os_fault]
    of the section [Pipeline]; every property of the pipeline is proved
    for all oracles.

    Loops.  [for] loops are recursion on the list they go through.  The
    [while True] loop of [get_next_version_filename] and the walk of
    [scan_files] run on fuel and are shown to return before the fuel is
    spent.

    The scan.  [scan_files] is the walk of [os.walk] over the map; the
    entries of a directory come in the order of the map, and nothing that
    is proved of the scan depends on that order.  [sort_music] takes the
    list of scanned paths and gives the figures of its final report;
    [scan_and_sort] is [sort_music] with its scan.  Printing, the clock
    and the command line are not modelled. *)

From Stdlib Require Import String Ascii NArith List Bool Arith Lia.
From Stdlib Require Import DecimalString DecimalNat Decimal.
From stdpp Require Import gmap strings list fin_maps sorting.

#[local] Unset Default Proof Using.

Local Open Scope string_scope.
Local Open Scope list_scope.

(* ====================================================================== *)
(** * Characters *)
(* ====================================================================== *)

Module Char.

Definition code (c : ascii) : N := N_of_ascii c.

Definition between (lo hi : N) (c : ascii) : bool :=
  ((lo <=? code c) && (code c <=? hi))%N.

(** Characters with a distinct lower-case form in U+0000..U+00FF:
    [A-Z], and U+00C0..U+00DE without the multiplication sign U+00D7. *)
Definition has_lower (c : ascii) : bool :=
  between 65 90 c
  || (between 192 222 c && negb (code c =? 215)%N).

(** [str.lower] on one character; also the case folding that a literal
    compiled under [re.IGNORECASE] applies to the text. *)
Definition lower (c : ascii) : ascii :=
  if has_lower c then ascii_of_N (code c + 32) else c.

(** [\d]: the decimal digits. *)
Definition is_decimal (c : ascii) : bool := between 48 57 c.

(** [\w]: alphanumeric characters and the underscore.  Above U+007F the
    alphanumerics are U+00AA, U+00B2, U+00B3, U+00B5, U+00B9, U+00BA,
    U+00BC..U+00BE, U+00C0..U+00D6, U+00D8..U+00F6 and U+00F8..U+00FF. *)
Definition is_word (c : ascii) : bool :=
  between 48 57 c || between 65 90 c || between 97 122 c
  || (code c =? 95)%N
  || (code c =? 170)%N || between 178 179 c || (code c =? 181)%N
  || between 185 186 c || between 188 190 c
  || between 192 214 c || between 216 246 c || between 248 255 c.

(** [[a-zA-Z0-9]]: the characters whose escape [\c] is not a plain
    literal. *)
Definition is_ascii_alnum (c : ascii) : bool :=
  between 48 57 c || between 65 90 c || between 97 122 c.

End Char.

(** [str.lower]. *)
Fixpoint str_lower (s : string) : string :=
  match s with
  | EmptyString => EmptyString
  | String c s' => String (Char.lower c) (str_lower s')
  end.

(** [str.startswith]. *)
Fixpoint startswith (s pre : string) {struct pre} : bool :=
  match pre, s with
  | EmptyString, _ => true
  | String _ _, EmptyString => false
  | String p pre', String c s' => Ascii.eqb c p && startswith s' pre'
  end.

(* ====================================================================== *)
(** * The fragment of [re] used by the rule table *)
(* ====================================================================== *)

Module Re.

(** A pattern of the table is a sequence of items: the assertion [\b], or
    a one-character class (a literal, or [\d]) with an optional [?] or
    [+].  Every keyword of [GENRE_RULES] is in this fragment
    (see [GENRE_RULES_in_fragment]). *)
Inductive charclass : Type :=
| Literal (c : ascii)
| Decimal.

Inductive quant : Type := Once | ZeroOrOne | OneOrMore.

Inductive item : Type :=
| Boundary
| Chars (cls : charclass) (q : quant).

Definition pattern : Type := list item.

(** ** Parsing of the pattern text *)

Inductive token : Type :=
| TBoundary
| TClass (cls : charclass)
| TQuest
| TPlus
| TUnsupported.

Definition is_meta (c : ascii) : bool :=
  existsb (Ascii.eqb c)
    ["."; "^"; "$"; "*"; "{"; "}"; "["; "]"; "|"; "("; ")"]%char.

Definition escape (e : ascii) : token :=
  if Ascii.eqb e "b" then TBoundary
  else if Ascii.eqb e "d" then TClass Decimal
  else if Char.is_ascii_alnum e then TUnsupported
  else TClass (Literal e).

Fixpoint tokens (src : string) : list token :=
  match src with
  | EmptyString => []
  | String c rest =>
      if Ascii.eqb c "\" then
        match rest with
        | EmptyString => [TUnsupported]
        | String e rest' => escape e :: tokens rest'
        end
      else if Ascii.eqb c "?" then TQuest :: tokens rest
      else if Ascii.eqb c "+" then TPlus :: tokens rest
      else if is_meta c then TUnsupported :: tokens rest
      else TClass (Literal c) :: tokens rest
  end.

Fixpoint items (ts : list token) : option pattern :=
  match ts with
  | [] => Some []
  | TBoundary :: ts' => cons Boundary <$> items ts'
  | TClass cls :: TQuest :: ts' => cons (Chars cls ZeroOrOne) <$> items ts'
  | TClass cls :: TPlus :: ts' => cons (Chars cls OneOrMore) <$> items ts'
  | TClass cls :: ts' => cons (Chars cls Once) <$> items ts'
  | _ => None
  end.

Definition compile (src : string) : option pattern := items (tokens src).

(** ** Matching, with [re.IGNORECASE] *)

Definition class_matches (cls : charclass) (x : ascii) : bool :=
  match cls with
  | Literal c => Ascii.eqb (Char.lower x) (Char.lower c)
  | Decimal => Char.is_decimal x
  end.

Definition word_at (o : option ascii) : bool :=
  match o with Some c => Char.is_word c | None => false end.

Definition next_char (s : string) : option ascii :=
  match s with String c _ => Some c | EmptyString => None end.

(** [\b]: exactly one of the two neighbours is a word character; the
    outside of the string counts as a non-word character. *)
Definition at_boundary (prev : option ascii) (s : string) : bool :=
  xorb (word_at prev) (word_at (next_char s)).

(** [match_here p prev s]: the pattern [p] matches a prefix of [s], where
    [prev] is the character just before [s] in the whole text. *)
Fixpoint match_here (p : pattern) (prev : option ascii) (s : string)
  {struct p} : bool :=
  match p with
  | [] => true
  | Boundary :: p' => at_boundary prev s && match_here p' prev s
  | Chars cls Once :: p' =>
      match s with
      | String x s' => class_matches cls x && match_here p' (Some x) s'
      | EmptyString => false
      end
  | Chars cls ZeroOrOne :: p' =>
      match s with
      | String x s' => class_matches cls x && match_here p' (Some x) s'
      | EmptyString => false
      end
      || match_here p' prev s
  | Chars cls OneOrMore :: p' =>
      (fix many (t : string) : bool :=
         match t with
         | String x t' =>
             class_matches cls x && (many t' || match_here p' (Some x) t')
         | EmptyString => false
         end) s
  end.

Fixpoint search_from (p : pattern) (prev : option ascii) (s : string)
  : bool :=
  match_here p prev s
  || match s with
     | String x s' => search_from p (Some x) s'
     | EmptyString => false
     end.

(** [bool(re.search(pat, text, re.IGNORECASE))].  A pattern outside the
    fragment has no model; no keyword of the table is one. *)
Definition search (pat text : string) : bool :=
  match compile pat with
  | Some p => search_from p None text
  | None => false
  end.

End Re.

(* ====================================================================== *)
(** * Configuration *)
(* ====================================================================== *)

Record rule : Type := Rule {
  folder : string;
  keywords : list string;
  priority : nat
}.

(** The dict [GENRE_RULES] as its [items()]: the entries in declaration
    order. *)
Definition GENRE_RULES : list (string * rule) := [
  ("stems_vocals",
    Rule "06_Stems_Production/Vocals" ["\(vocals?\)"] 1);
  ("stems_instrumental",
    Rule "06_Stems_Production/Instrumental"
      ["\binstrumental\b"; "\(instrumental\)"] 1);
  ("stems_other",
    Rule "06_Stems_Production/Stems"
      ["\(bass\)"; "\(drums?\)"; "\(other\)"; "\(stem"] 1);
  ("remixes_artists",
    Rule "05_Remixes_Edits/Artist_Remixes"
      ["\banyma\b"; "\bargy\b"; "\bklingande\b"; "\bjubel\b"; "son of son"] 2);
  ("remixes_extended",
    Rule "05_Remixes_Edits/Extended_Versions"
      ["\bremix\b"; "\bedit\b"; "\bext v\d+"; "\bextended\b"] 2);
  ("electronic_house",
    Rule "01_Electronic_Dance/House"
      ["\bhouse\b"; "\bdeep house\b"; "\bprogressive house\b"] 3);
  ("electronic_techno",
    Rule "01_Electronic_Dance/Techno"
      ["\btechno\b"; "\bmelodic techno\b"] 3);
  ("electronic_psytrance",
    Rule "01_Electronic_Dance/Psytrance"
      ["\bpsytrance\b"; "\bpsychedelic\b"; "\bpsych\b"] 3);
  ("electronic_idm",
    Rule "01_Electronic_Dance/IDM" ["\bidm\b"; "\bintelligent dance\b"] 3);
  ("electronic_electro",
    Rule "01_Electronic_Dance/Electro"
      ["\belectro\b"; "\belectronic\b"; "\belectronica\b"] 3);
  ("atmospheric_hypnotic",
    Rule "02_Atmospheric_Electronic/Hypnotic" ["\bhypnotic\b"; "\btrance\b"] 4);
  ("atmospheric_ethereal",
    Rule "02_Atmospheric_Electronic/Ethereal"
      ["\bethereal\b"; "\bdream\b"; "\bdreamy\b"] 4);
  ("atmospheric_melodic",
    Rule "02_Atmospheric_Electronic/Melodic"
      ["\bmelodic\b"; "\beuphoric\b"; "\bmellow\b"; "\bsoothing\b"] 4);
  ("atmospheric_ambient",
    Rule "02_Atmospheric_Electronic/Ambient"
      ["\bambient\b"; "\batmospheric\b"; "\bcosmic\b"; "\bspace\b"] 4);
  ("rock",
    Rule "03_Rock_Alternative/Rock"
      ["\brock\b"; "\balternative\b"; "\bindie\b"; "\bpunk\b"; "\bmetal\b"] 5);
  ("pop",
    Rule "04_Pop_Mainstream/Pop" ["\bpop\b"; "\bsynthpop\b"] 5);
  ("german",
    Rule "07_German_Electronic/Deutsche_Tracks"
      ["\bder\b"; "\bdie\b"; "\bdas\b"; "\bzeit\b"; "\btanz\b";
       "\bwald\b"; "\bschwingung\b"; "\bkreist\b"; "\bhalsband\b";
       "\bflimmern\b"; "\bsymbole\b"; "\binkubation\b"; "\bnur\b"] 6)
].

Definition UNCATEGORIZED_FOLDER : string := "99_Uncategorized/Other".
Definition FAVORITES_SUBFOLDER : string := "_FAVORITES".
Definition BATCH_SIZE : nat := 50.

(* ====================================================================== *)
(** * Helper functions *)
(* ====================================================================== *)

(** [sorted(xs, key=key)]: a stable sort.  An element goes in front of the
    first later element whose key is not smaller, so elements with equal
    keys keep their order. *)
Section Sorted.
Context {A : Type} (key : A -> nat).

Fixpoint insert_sorted (x : A) (l : list A) : list A :=
  match l with
  | [] => [x]
  | y :: l' =>
      if Nat.leb (key x) (key y) then x :: y :: l' else y :: insert_sorted x l'
  end.

Fixpoint sorted (l : list A) : list A :=
  match l with
  | [] => []
  | x :: l' => insert_sorted x (sorted l')
  end.
End Sorted.

(** The two nested loops of [classify_file], over a given list of rules. *)
Definition rule_matches (filename_lower : string) (rule_data : rule) : bool :=
  existsb (fun pattern => Re.search pattern filename_lower)
          (keywords rule_data).

Fixpoint first_match (filename_lower : string)
  (rules : list (string * rule)) : option rule :=
  match rules with
  | [] => None
  | (rule_name, rule_data) :: rules' =>
      if rule_matches filename_lower rule_data then Some rule_data
      else first_match filename_lower rules'
  end.

Definition classify_rules (rules : list (string * rule))
  (filename_lower : string) : string * nat :=
  let sorted_rules := sorted (fun x => priority (snd x)) rules in
  match first_match filename_lower sorted_rules with
  | Some rule_data => (folder rule_data, priority rule_data)
  | None => (UNCATEGORIZED_FOLDER, 999)
  end.

Definition classify_file (filename_lower : string) : string * nat :=
  classify_rules GENRE_RULES filename_lower.

Definition is_favorite (filename : string) : bool :=
  startswith filename "+++".

(* ====================================================================== *)
(** * Paths *)
(* ====================================================================== *)

Abbreviation Path := (list string).

Module PathLib.

(** [s[:i]] and [s[i:]]. *)
Fixpoint str_take (i : nat) (s : string) : string :=
  match i, s with
  | S i', String c s' => String c (str_take i' s')
  | _, _ => EmptyString
  end.

Fixpoint str_drop (i : nat) (s : string) : string :=
  match i, s with
  | S i', String _ s' => str_drop i' s'
  | _, _ => s
  end.

(** [s.rfind('.')], [None] for -1. *)
Fixpoint rfind_dot (s : string) : option nat :=
  match s with
  | EmptyString => None
  | String c s' =>
      match rfind_dot s' with
      | Some i => Some (S i)
      | None => if Ascii.eqb c "." then Some 0 else None
      end
  end.

(** The position where a name splits into stem and suffix: the last dot,
    when it is neither the first nor the last character. *)
Definition suffix_index (name : string) : option nat :=
  match rfind_dot name with
  | Some i =>
      if Nat.ltb 0 i && Nat.ltb i (String.length name - 1) then Some i
      else None
  | None => None
  end.

Definition suffix_of (name : string) : string :=
  match suffix_index name with
  | Some i => str_drop i name
  | None => EmptyString
  end.

Definition stem_of (name : string) : string :=
  match suffix_index name with
  | Some i => str_take i name
  | None => name
  end.

(** The components of a path segment: split at ['/'], without the empty
    components and the components ["."].  [cur] is the component being
    read. *)
Definition emit (cur : string) (rest : list string) : list string :=
  if String.eqb cur "" || String.eqb cur "." then rest else cur :: rest.

Fixpoint parts_go (cur : string) (s : string) : list string :=
  match s with
  | EmptyString => emit cur []
  | String c s' =>
      if Ascii.eqb c "/" then emit cur (parts_go "" s')
      else parts_go (cur ++ String c "") s'
  end.

Definition parse_parts (s : string) : list string := parts_go "" s.

(** The anchor of an absolute path is the component ["/"], as in
    [PurePosixPath.parts]. *)
Definition is_anchor (p : Path) : bool :=
  match p with
  | [a] => String.eqb a "/"
  | _ => false
  end.

(** [p / s]: an absolute segment replaces [p]. *)
Definition joinpath (p : Path) (s : string) : Path :=
  if startswith s "/" then "/" :: parse_parts s else p ++ parse_parts s.

(** [p.name]: the last component, empty for ['.'] and for the root. *)
Definition name (p : Path) : string :=
  if is_anchor p then "" else List.last p "".

(** [p.parent]; ['.'] and the root are their own parents. *)
Definition parent (p : Path) : Path :=
  if is_anchor p then p else removelast p.

Definition stem (p : Path) : string := stem_of (name p).
Definition suffix (p : Path) : string := suffix_of (name p).

End PathLib.

Infix "/:" := PathLib.joinpath (at level 40, left associativity).

(** [str(n)] for a non-negative [int]. *)
Definition show_nat (n : nat) : string :=
  NilEmpty.string_of_uint (Nat.to_uint n).

Definition double_quote : ascii := ascii_of_N 34.

(** [re.sub(pattern, '_', filename)], where the pattern is the character
    class of [<], [>], [:], the double quote (U+0022), [/], the backslash,
    [|], [?] and [*]. *)
Definition is_invalid_char (c : ascii) : bool :=
  existsb (Ascii.eqb c)
    ["<"; ">"; ":"; double_quote; "/"; "\"; "|"; "?"; "*"]%char.

Fixpoint sanitize_filename (filename : string) : string :=
  match filename with
  | EmptyString => EmptyString
  | String c s' =>
      String (if is_invalid_char c then "_"%char else c) (sanitize_filename s')
  end.

(* ====================================================================== *)
(** * The file system *)
(* ====================================================================== *)

Inductive node : Type :=
| File (content : string)
| Dir.

Abbreviation FS := (gmap Path node).

(** What is at a path.  The current directory (the empty path) and the
    root are directories of every file system. *)
Definition stat (fs : FS) (p : Path) : option node :=
  match p with
  | [] => Some Dir
  | _ :: _ => if PathLib.is_anchor p then Some Dir else fs !! p
  end.

(** [p.exists()] and [os.path.isdir(p)]. *)
Definition path_exists (fs : FS) (p : Path) : bool :=
  match stat fs p with Some _ => true | None => false end.

Definition is_dir (fs : FS) (p : Path) : bool :=
  match stat fs p with Some Dir => true | _ => false end.

(** ** [get_next_version_filename] *)

(** [f"{stem} v{counter}{suffix}"]. *)
Definition versioned_name (stem suffix : string) (counter : nat) : string :=
  stem ++ " v" ++ show_nat counter ++ suffix.

(** The [while True] loop, with the number of iterations it may take as
    fuel; [None] stands for a loop that has not returned when the fuel is
    spent.  [get_next_version_filename_returns] shows that the fuel given
    by [get_next_version_filename] is always enough. *)
Fixpoint next_version (fuel : nat) (fs : FS) (stem suffix : string)
  (parent : Path) (counter : nat) : option Path :=
  match fuel with
  | 0 => None
  | S fuel' =>
      let new_name := versioned_name stem suffix counter in
      let new_path := parent /: new_name in
      if negb (path_exists fs new_path) then Some new_path
      else next_version fuel' fs stem suffix parent (counter + 1)
  end.

Definition get_next_version_filename (fs : FS) (dest_path : Path)
  : option Path :=
  if negb (path_exists fs dest_path) then Some dest_path
  else
    let stem := PathLib.stem dest_path in
    let suffix := PathLib.suffix dest_path in
    let parent := PathLib.parent dest_path in
    next_version (size fs + 3) fs stem suffix parent 2.

(* ====================================================================== *)
(** * Computations on the file system *)
(* ====================================================================== *)

(** A call returns a value or raises an exception, of which the model
    keeps [str(e)]. *)
Inductive outcome (A : Type) : Type :=
| Returned (a : A)
| Raised (msg : string).
Arguments Returned {A} a.
Arguments Raised {A} msg.

(** A computation takes the file system to a new file system and an
    outcome; [None] is a computation that does not come back. *)
Definition io (A : Type) : Type := FS -> option (FS * outcome A).

Definition ret {A} (a : A) : io A := fun fs => Some (fs, Returned a).
Definition raise {A} (msg : string) : io A := fun fs => Some (fs, Raised msg).

Definition bind {A B} (m : io A) (k : A -> io B) : io B :=
  fun fs =>
    match m fs with
    | None => None
    | Some (fs', Returned a) => k a fs'
    | Some (fs', Raised msg) => Some (fs', Raised msg)
    end.

Declare Scope io_scope.
Delimit Scope io_scope with io.
Notation "x <- m ;; k" := (bind m (fun x => k))
  (at level 20, m at level 99, k at level 200, only parsing) : io_scope.

(** What the operating system is asked to do. *)
Inductive syscall : Type :=
| SysMkdir (p : Path)
| SysCopy (src dst : Path).

(** A refusal by the operating system: the message of the exception and,
    for a copy, what the interrupted copy leaves at the destination
    ([None]: nothing). *)
Record fault : Type := Fault {
  fault_msg : string;
  fault_leaves : option string
}.

Section Pipeline.

(** The failures that do not follow from the content of the file system
    (permission denied, disk full, name too long, ...). *)
Variable os_fault : FS -> syscall -> option fault.

(** ** [Path.mkdir(parents=True, exist_ok=True)]

    From the top down: a component that is a directory is kept, one that
    is missing is created, one that is a file makes the call fail
    ([NotADirectoryError] inside the path, [FileExistsError] at its
    end). *)
Fixpoint mkdir_walk (above : Path) (todo : list string) (fs : FS)
  : FS * outcome unit :=
  match todo with
  | [] => (fs, Returned tt)
  | c :: todo' =>
      let q := above ++ [c] in
      match stat fs q with
      | Some Dir => mkdir_walk q todo' fs
      | Some (File _) =>
          (fs, Raised (match todo' with
                       | [] => "[Errno 17] File exists"
                       | _ :: _ => "[Errno 20] Not a directory"
                       end))
      | None =>
          match os_fault fs (SysMkdir q) with
          | Some f => (fs, Raised (fault_msg f))
          | None => mkdir_walk q todo' (<[q := Dir]> fs)
          end
      end
  end.

Definition mkdir (p : Path) : io unit :=
  fun fs => Some (mkdir_walk [] p fs).

(** ** [shutil.copy2(src, dst)]

    A destination that is a directory stands for the file of the same
    name inside it.  The copy writes the destination whether or not a
    file is there already. *)
Definition copy2 (src dst : Path) : io Path :=
  fun fs =>
    let dst := if is_dir fs dst then dst ++ [PathLib.name src] else dst in
    match stat fs src with
    | None => Some (fs, Raised "[Errno 2] No such file or directory")
    | Some Dir => Some (fs, Raised "[Errno 21] Is a directory")
    | Some (File content) =>
        if decide (src = dst) then Some (fs, Raised "are the same file")
        else
          match stat fs dst, stat fs (PathLib.parent dst) with
          | Some Dir, _ => Some (fs, Raised "[Errno 21] Is a directory")
          | _, None => Some (fs, Raised "[Errno 2] No such file or directory")
          | _, Some (File _) => Some (fs, Raised "[Errno 20] Not a directory")
          | _, Some Dir =>
              match os_fault fs (SysCopy src dst) with
              | Some f =>
                  Some (match fault_leaves f with
                        | Some part => <[dst := File part]> fs
                        | None => fs
                        end, Raised (fault_msg f))
              | None => Some (<[dst := File content]> fs, Returned dst)
              end
          end
    end.

(** ** [copy_file_with_versioning] *)
Definition resolve (dest_file : Path) : io Path :=
  fun fs =>
    match get_next_version_filename fs dest_file with
    | Some final_dest => Some (fs, Returned final_dest)
    | None => None
    end.

Definition copy_file_with_versioning (source_path : Path)
  (dest_folder : string) (base_path : Path) : io Path :=
  (let dest_folder_path := base_path /: dest_folder in
   _ <- mkdir dest_folder_path ;;
   let dest_file := dest_folder_path /: PathLib.name source_path in
   final_dest <- resolve dest_file ;;
   _ <- copy2 source_path final_dest ;;
   ret final_dest)%io.

(* ====================================================================== *)
(** * Main sorting logic *)
(* ====================================================================== *)

(** Step 2 of [sort_music]: what the classification loop builds. *)
Record classification : Type := Classification {
  classification_map : gmap Path string;
  stats : gmap string nat;
  favorites_count : nat
}.

Definition classify_step (acc : classification) (file_path : Path)
  : classification :=
  let filename_lower := str_lower (PathLib.name file_path) in
  let '(folder, priority) := classify_file filename_lower in
  {| classification_map := <[file_path := folder]> (classification_map acc);
     stats := <[folder := default 0 (stats acc !! folder) + 1]> (stats acc);
     favorites_count :=
       if is_favorite (PathLib.name file_path)
       then favorites_count acc + 1 else favorites_count acc |}.

Definition classify_all (all_files : list Path) : classification :=
  fold_left classify_step all_files
    {| classification_map := ∅; stats := ∅; favorites_count := 0 |}.

(** Step 4: the counters of the copy loop. *)
Record progress : Type := Progress {
  processed : nat;
  errors : list (string * string)
}.

(** The body of the [try] statement, up to [processed += 1].  The lookup
    in [classification_map] cannot fail for a scanned file
    ([classification_map_lookup]). *)
Definition try_copy (cmap : gmap Path string) (output_path : Path)
  (source_file : Path) : io unit :=
  match cmap !! source_file with
  | None => raise "KeyError"
  | Some dest_folder =>
      (_ <- copy_file_with_versioning source_file dest_folder output_path ;;
       if is_favorite (PathLib.name source_file) then
         let fav_folder := (dest_folder ++ "/" ++ FAVORITES_SUBFOLDER)%string in
         _ <- copy_file_with_versioning source_file fav_folder output_path ;;
         ret tt
       else ret tt)%io
  end.

(** How the [try] statement ends: [processed += 1] at the end of its body,
    or the handler [errors.append((source_file.name, str(e)))]. *)
Definition handle (source_file : Path) (st : progress) (o : outcome unit)
  : progress :=
  match o with
  | Returned _ => {| processed := processed st + 1; errors := errors st |}
  | Raised e =>
      {| processed := processed st;
         errors := errors st ++ [(PathLib.name source_file, e)] |}
  end.

(** The [try] statement. *)
Definition copy_one (cmap : gmap Path string) (output_path : Path)
  (source_file : Path) (st : progress) (fs : FS) : option (FS * progress) :=
  match try_copy cmap output_path source_file fs with
  | None => None
  | Some (fs', o) => Some (fs', handle source_file st o)
  end.

Fixpoint copy_batch (cmap : gmap Path string) (output_path : Path)
  (batch : list Path) (st : progress) (fs : FS) : option (FS * progress) :=
  match batch with
  | [] => Some (fs, st)
  | source_file :: batch' =>
      match copy_one cmap output_path source_file st fs with
      | None => None
      | Some (fs', st') => copy_batch cmap output_path batch' st' fs'
      end
  end.

(** [range(0, n, step)] and [l[i:j]]. *)
Definition range_step (n step : nat) : list nat :=
  List.map (fun k => k * step) (seq 0 ((n + (step - 1)) / step)).

Definition slice {A} (l : list A) (i j : nat) : list A :=
  take (j - i) (drop i l).

Fixpoint copy_batches (cmap : gmap Path string) (output_path : Path)
  (all_files : list Path) (starts : list nat) (st : progress) (fs : FS)
  : option (FS * progress) :=
  match starts with
  | [] => Some (fs, st)
  | i :: starts' =>
      let batch := slice all_files i (i + BATCH_SIZE) in
      match copy_batch cmap output_path batch st fs with
      | None => None
      | Some (fs', st') =>
          copy_batches cmap output_path all_files starts' st' fs'
      end
  end.

(** The figures of the final report. *)
Record report : Type := Report {
  total_files_processed : nat;
  favorites_copied : nat;
  error_count : nat;
  errors_shown : list (string * string);
  errors_not_shown : nat;
  summary : gmap string nat
}.

(** [sort_music], after the scan: [all_files] is what [scan_files]
    returned.  The result is [None] when the function returns at
    "No .wav files found!". *)
Definition sort_music (source_path : Path) (output_dir : option Path)
  (all_files : list Path) (fs : FS) : option (FS * option report) :=
  let output_path :=
    match output_dir with
    | None => source_path /: "SORTED_MUSIC"
    | Some d => d
    end in
  if Nat.eqb (length all_files) 0 then Some (fs, None)
  else
    let c := classify_all all_files in
    match copy_batches (classification_map c) output_path all_files
            (range_step (length all_files) BATCH_SIZE)
            {| processed := 0; errors := [] |} fs with
    | None => None
    | Some (fs', st) =>
        Some (fs',
              Some {| total_files_processed := processed st;
                      favorites_copied := favorites_count c;
                      error_count := length (errors st);
                      errors_shown := take 10 (errors st);
                      errors_not_shown := length (errors st) - 10;
                      summary := stats c |})
    end.

End Pipeline.

(* ====================================================================== *)
(** * Vocabulary of the statements *)
(* ====================================================================== *)

Definition key_sorted {A} (key : A -> nat) (l : list A) : Prop :=
  StronglySorted (fun a b => key a <= key b) l.

(** The first element of a list that satisfies [P]. *)
Fixpoint first_sat {A} (P : A -> bool) (l : list A) : option A :=
  match l with
  | [] => None
  | x :: l' => if P x then Some x else first_sat P l'
  end.

(** What the first satisfying element of the sorted list is, in terms of
    the list as declared: it satisfies [P], every satisfying element
    declared before it has a strictly larger key, and every satisfying
    element declared after it has a key at least as large. *)
Definition selects {A} (key : A -> nat) (P : A -> bool) (l : list A)
  (o : option A) : Prop :=
  match o with
  | Some w =>
      exists l1 l2, l = l1 ++ w :: l2 /\ P w = true
        /\ (forall r, r ∈ l1 -> P r = true -> key w < key r)
        /\ (forall r, r ∈ l2 -> P r = true -> key w <= key r)
  | None => forall r, r ∈ l -> P r = false
  end.

(** A string without ['/']: what a component of a path is. *)
Fixpoint no_slash (s : string) : bool :=
  match s with
  | EmptyString => true
  | String c s' => negb (Ascii.eqb c "/") && no_slash s'
  end.

(** The path tried by [get_next_version_filename] for a counter. *)
Definition candidate (dest_path : Path) (counter : nat) : Path :=
  PathLib.parent dest_path
  /: versioned_name (PathLib.stem dest_path) (PathLib.suffix dest_path)
       counter.

(** A component of a path as [pathlib] keeps it: not empty, not ["."],
    without ['/'].  The name of every file found by a scan is one. *)
Definition valid_component (s : string) : bool :=
  no_slash s && negb (String.eqb s "") && negb (String.eqb s ".").

(** An operating system that refuses nothing. *)
Definition no_fault : FS -> syscall -> option fault := fun _ _ => None.

(** An operating system that refuses every copy, and leaves nothing at the
    destination. *)
Definition deny_copies : FS -> syscall -> option fault :=
  fun _ call =>
    match call with
    | SysCopy _ _ => Some (Fault "[Errno 13] Permission denied" None)
    | SysMkdir _ => None
    end.

(** The state of the copy loop before the first file. *)
Definition progress0 : progress := {| processed := 0; errors := [] |}.

(** The output directory of [sort_music]. *)
Definition output_path_of (source_path : Path) (output_dir : option Path)
  : Path :=
  match output_dir with
  | None => source_path /: "SORTED_MUSIC"
  | Some d => d
  end.

(** The folder a scanned file is classified to. *)
Definition category_of (file_path : Path) : string :=
  (classify_file (str_lower (PathLib.name file_path))).1.

(** The favorites folder of a category. *)
Definition favorites_of (category : string) : string :=
  (category ++ "/" ++ FAVORITES_SUBFOLDER)%string.

(** The names that begin with [+++] among the scanned files. *)
Definition favorite_files (all_files : list Path) : list Path :=
  filter (fun f => is_favorite (PathLib.name f) = true) all_files.

(** The input folder of the first end-to-end scenario, with the contents
    of its three files. *)
Definition scenario_files : list Path :=
  [ ["in"; "Melodic Dream.wav"];
    ["in"; "Techno Night.wav"];
    ["in"; "+++Pop Anthem.wav"] ].

Definition scenario_fs (a b c : string) : FS :=
  <[ ["in"; "+++Pop Anthem.wav"] := File c ]>
    (<[ ["in"; "Techno Night.wav"] := File b ]>
       (<[ ["in"; "Melodic Dream.wav"] := File a ]>
          (<[ ["in"] := Dir ]> ∅))).

(** The regular files of a file system, with their contents. *)
Definition files_of (fs : FS) : list (Path * string) :=
  omap (fun x => match x.2 with
                 | File content => Some (x.1, content)
                 | Dir => None
                 end) (map_to_list fs).

(** A computation that came back without raising. *)
Definition returns {A} (r : option (FS * outcome A)) : bool :=
  match r with
  | Some (_, Returned _) => true
  | _ => false
  end.

(** A name with one of the characters that [sanitize_filename] replaces. *)
Fixpoint has_invalid_char (s : string) : bool :=
  match s with
  | EmptyString => false
  | String c s' => is_invalid_char c || has_invalid_char s'
  end.

(** The names [get_next_version_filename] can give to the copy of a file
    called [name]. *)
Definition is_version_of (name name' : string) : Prop :=
  name' = name
  \/ exists counter,
       2 <= counter
       /\ name' = versioned_name (PathLib.stem_of name)
                    (PathLib.suffix_of name) counter.

(** The folders a scanned file is copied to. *)
Definition folders_of (file_path : Path) : list string :=
  category_of file_path
  :: (if is_favorite (PathLib.name file_path)
      then [favorites_of (category_of file_path)] else []).

(** What copying [file_path] can add to the file system: a directory on
    the way to one of its folders, or a file in one of them, under the
    name of [file_path] or a version of it. *)
Definition made_for (output_path file_path q : Path) (n : node) : Prop :=
  exists folder,
    folder ∈ folders_of file_path
    /\ (n = Dir /\ q `prefix_of` (output_path /: folder)
        \/ exists name' content,
             n = File content
             /\ q = (output_path /: folder) ++ [name']
             /\ is_version_of (PathLib.name file_path) name').

(** A destination folder of the configuration: a relative path of two
    components, neither of them [..]. *)
Definition two_levels (folder : string) : bool :=
  negb (startswith folder "/")
  && match PathLib.parse_parts folder with
     | [a; b] =>
         valid_component a && valid_component b
         && negb (String.eqb a "..") && negb (String.eqb b "..")
         && bool_decide (PathLib.parse_parts (favorites_of folder)
                         = [a; b; FAVORITES_SUBFOLDER])
     | _ => false
     end.

(** [os.path.isfile(p)]. *)
Definition is_file (fs : FS) (p : Path) : bool :=
  match stat fs p with Some (File _) => true | _ => false end.

(** No regular file stands where [mkdir] needs a directory: neither [p]
    nor a path above it is a regular file. *)
Definition clear_way (fs : FS) (p : Path) : bool :=
  forallb (fun i => negb (is_file fs (take i p))) (seq 0 (S (length p))).

(** The character [c] occurs in [s]. *)
Fixpoint str_mem (c : ascii) (s : string) : bool :=
  match s with
  | EmptyString => false
  | String x s' => Ascii.eqb x c || str_mem c s'
  end.

(** No match of the pattern [p] begins with the character [c]. *)
Fixpoint rejects (p : Re.pattern) (c : ascii) : bool :=
  match p with
  | [] => false
  | Re.Boundary :: p' => rejects p' c
  | Re.Chars cls Re.ZeroOrOne :: p' =>
      negb (Re.class_matches cls c) && rejects p' c
  | Re.Chars cls _ :: _ => negb (Re.class_matches cls c)
  end.

(* ====================================================================== *)
(** * The scan *)
(* ====================================================================== *)

(** [str.endswith]. *)
Definition endswith (s suffix : string) : bool :=
  Nat.leb (String.length suffix) (String.length s)
  && String.eqb
       (PathLib.str_drop (String.length s - String.length suffix) s) suffix.

(** The test of [scan_files] on the name of a file. *)
Definition is_wav (file : string) : bool := endswith (str_lower file) ".wav".

(** The name [c] when [k] is the path [d / c]. *)
Fixpoint child_name (d k : Path) : option string :=
  match d, k with
  | [], [c] => Some c
  | a :: d', b :: k' => if String.eqb a b then child_name d' k' else None
  | _, _ => None
  end.

(** The names an entry of a directory can have: the path components other
    than [..]. *)
Definition entry_name (s : string) : bool :=
  valid_component s && negb (String.eqb s "..").

(** [os.scandir(d)]: the names of the entries of the directory [d].
    Python leaves their order to the operating system; what is proved of
    the scan does not depend on it. *)
Definition listdir (fs : FS) (d : Path) : list string :=
  omap (fun x => match child_name d x.1 with
                 | Some c => if entry_name c then Some c else None
                 | None => None
                 end) (map_to_list fs).

(** The loop of [scan_files] over [os.walk(root)], top down: the [.wav]
    files of [root], then what the walk finds in each directory of [root]
    that is left after the excluded names are removed.  A [root] that is
    not a directory gives nothing.  [None]: the fuel is spent. *)
Fixpoint walk (fuel : nat) (fs : FS) (exclude_folders : list string)
  (root : Path) : option (list Path) :=
  match fuel with
  | 0 => None
  | S fuel' =>
      if is_dir fs root then
        let entries := listdir fs root in
        let dirs := filter (fun c => is_dir fs (root ++ [c]) = true) entries in
        let files :=
          filter (fun c => is_dir fs (root ++ [c]) = false) entries in
        let dirs := filter (fun d => d ∉ exclude_folders) dirs in
        let found :=
          (fun file => root /: file)
            <$> filter (fun file => is_wav file = true) files in
        match mapM (fun d => walk fuel' fs exclude_folders (root ++ [d]))
                dirs with
        | Some below => Some (found ++ concat below)
        | None => None
        end
      else Some []
  end.

(** [scan_files(source_dir, exclude_folders)].  No walk goes deeper than
    the file system has nodes. *)
Definition scan_files (fs : FS) (source_dir : Path)
  (exclude_folders : option (list string)) : option (list Path) :=
  let exclude_folders :=
    match exclude_folders with
    | None => ["SORTED_MUSIC"]
    | Some l => l
    end in
  walk (S (size fs)) fs exclude_folders source_dir.

(** [sort_music] from its first step: the scan, and the steps after it. *)
Definition scan_and_sort (os_fault : FS -> syscall -> option fault)
  (source_path : Path) (output_dir : option Path) (fs : FS)
  : option (FS * option report) :=
  match scan_files fs source_path (Some ["SORTED_MUSIC"]) with
  | Some all_files => sort_music os_fault source_path output_dir all_files fs
  | None => None
  end.

(** What a scan from [root] is to find: the regular files with a [.wav]
    name in [root] and in the directories below it that are reached
    through directories with names that are not excluded. *)
Definition scanned (fs : FS) (exclude_folders : list string)
  (root p : Path) : Prop :=
  exists rel file,
    p = root ++ rel ++ [file]
    /\ is_dir fs root = true
    /\ (forall i d,
          rel !! i = Some d ->
          entry_name d = true /\ (d ∉ exclude_folders)
          /\ is_dir fs (root ++ take (S i) rel) = true)
    /\ entry_name file = true
    /\ is_wav file = true
    /\ is_file fs p = true.

(** The nodes of the file system strictly below [root]. *)
Definition below (fs : FS) (root : Path) : gset Path :=
  filter (fun k => (root `prefix_of` k) /\ k <> root) (dom fs).

(* ====================================================================== *)
(** * The stable sort and the first match *)
(* ====================================================================== *)

Section SortedFacts.
Context {A : Type} (key : A -> nat).

Lemma insert_sorted_elem x y l :
  y ∈ insert_sorted key x l <-> y = x \/ y ∈ l.
Proof.
  induction l as [|z l IH]; simpl.
  - rewrite list_elem_of_singleton. split; [by left|].
    intros [->|H]; [done | by apply elem_of_nil in H].
  - destruct (Nat.leb (key x) (key z)).
    + by rewrite elem_of_cons.
    + rewrite !elem_of_cons, IH. tauto.
Qed.

Lemma insert_sorted_key_sorted x l :
  key_sorted key l -> key_sorted key (insert_sorted key x l).
Proof.
  unfold key_sorted. induction 1 as [|z l Hs IH Hz]; simpl.
  - repeat constructor.
  - destruct (Nat.leb (key x) (key z)) eqn:E.
    + apply Nat.leb_le in E. constructor; [by constructor|].
      constructor; [done|].
      eapply Forall_impl; [exact Hz|]. simpl. lia.
    + apply Nat.leb_gt in E. constructor; [done|].
      apply Forall_forall. intros y Hy.
      apply insert_sorted_elem in Hy as [->|Hy]; [lia|].
      rewrite Forall_forall in Hz. by apply Hz.
Qed.

Lemma sorted_key_sorted l : key_sorted key (sorted key l).
Proof.
  induction l; simpl; [constructor | by apply insert_sorted_key_sorted].
Qed.

Lemma sorted_elem y l : y ∈ sorted key l <-> y ∈ l.
Proof.
  induction l as [|x l IH]; simpl; [done|].
  rewrite insert_sorted_elem, elem_of_cons, IH. tauto.
Qed.

End SortedFacts.

Section FirstMatch.
Context {A : Type} (key : A -> nat) (P : A -> bool).

Lemma first_sat_elem l w : first_sat P l = Some w -> w ∈ l /\ P w = true.
Proof.
  induction l as [|x l IH]; simpl; [done|].
  destruct (P x) eqn:E.
  - intros [= ->]. split; [left | done].
  - intros H. destruct (IH H). split; [by right | done].
Qed.

Lemma first_sat_None l : first_sat P l = None -> forall r, r ∈ l -> P r = false.
Proof.
  induction l as [|x l IH]; simpl; intros H r Hr.
  - by apply elem_of_nil in Hr.
  - destruct (P x) eqn:E; [done|].
    apply elem_of_cons in Hr as [->|Hr]; [done | by apply IH].
Qed.

(** Inserting into a sorted list: the new element is found first exactly
    when it satisfies [P] and the element found before has no smaller
    key. *)
Lemma first_sat_insert x l :
  key_sorted key l ->
  first_sat P (insert_sorted key x l)
  = if P x then
      match first_sat P l with
      | Some y => if Nat.leb (key x) (key y) then Some x else Some y
      | None => Some x
      end
    else first_sat P l.
Proof.
  unfold key_sorted. induction 1 as [|z l Hs IH Hz]; simpl.
  - by destruct (P x).
  - rewrite Forall_forall in Hz.
    destruct (Nat.leb (key x) (key z)) eqn:E; simpl.
    + destruct (P x) eqn:Px; [|done].
      destruct (P z) eqn:Pz; [by rewrite E|].
      destruct (first_sat P l) as [y|] eqn:Hy; [|done].
      apply first_sat_elem in Hy as [Hy _]. apply Hz in Hy.
      apply Nat.leb_le in E.
      by destruct (Nat.leb_spec (key x) (key y)); [|lia].
    + destruct (P z) eqn:Pz.
      * destruct (P x); [by rewrite E | done].
      * exact IH.
Qed.

Lemma first_sat_sorted_selects l :
  selects key P l (first_sat P (sorted key l)).
Proof.
  induction l as [|x l IH]; simpl.
  - intros r Hr. by apply elem_of_nil in Hr.
  - rewrite first_sat_insert by apply sorted_key_sorted.
    destruct (P x) eqn:Px.
    + destruct (first_sat P (sorted key l)) as [y|] eqn:Hy; simpl in IH.
      * destruct IH as (l1 & l2 & -> & Py & H1 & H2).
        destruct (Nat.leb_spec (key x) (key y)) as [Hle|Hgt]; simpl.
        -- exists [], (l1 ++ y :: l2). repeat split; [done|set_solver|].
           intros r Hr Pr. apply elem_of_app in Hr as [Hr|Hr].
           ++ specialize (H1 r Hr Pr). lia.
           ++ apply elem_of_cons in Hr as [->|Hr]; [done|].
              specialize (H2 r Hr Pr). lia.
        -- exists (x :: l1), l2. repeat split; [done| |done].
           intros r Hr Pr. apply elem_of_cons in Hr as [->|Hr]; [done|].
           by apply H1.
      * exists [], l. repeat split; [done|set_solver|].
        intros r Hr Pr. rewrite (IH r Hr) in Pr. done.
    + destruct (first_sat P (sorted key l)) as [y|] eqn:Hy; simpl in *.
      * destruct IH as (l1 & l2 & -> & Py & H1 & H2).
        exists (x :: l1), l2. repeat split; [done| |done].
        intros r Hr Pr. apply elem_of_cons in Hr as [->|Hr]; [congruence|].
        by apply H1.
      * intros r Hr. apply elem_of_cons in Hr as [->|Hr]; [done | by apply IH].
Qed.

(** The same in terms of positions in the declared list. *)
Lemma selects_lookup l w :
  selects key P l (Some w) ->
  exists j, l !! j = Some w /\ P w = true
    /\ forall i r, l !! i = Some r -> P r = true ->
         key w < key r \/ (key w = key r /\ j <= i).
Proof.
  intros (l1 & l2 & -> & Pw & H1 & H2). exists (length l1).
  split; [by rewrite list_lookup_middle|]. split; [done|].
  intros i r Hi Pr.
  destruct (Nat.lt_ge_cases i (length l1)) as [Hlt|Hge].
  - left. apply H1; [|done]. rewrite lookup_app_l in Hi by done.
    by eapply list_elem_of_lookup_2.
  - rewrite lookup_app_r in Hi by done.
    destruct (i - length l1) as [|k] eqn:Ek; simpl in Hi.
    + injection Hi as <-. right. lia.
    + assert (key w <= key r) by (apply H2; [by eapply list_elem_of_lookup_2|done]).
      destruct (Nat.eq_dec (key w) (key r)); [right|left]; lia.
Qed.

End FirstMatch.

Lemma first_sat_ext {A} (P Q : A -> bool) l :
  (forall x, x ∈ l -> P x = Q x) -> first_sat P l = first_sat Q l.
Proof.
  induction l as [|x l IH]; simpl; intros H; [done|].
  rewrite <- (H x) by left. destruct (P x); [done|].
  apply IH. intros y Hy. apply H. by right.
Qed.

Lemma first_match_first_sat filename rules :
  first_match filename rules
  = snd <$> first_sat (fun x => rule_matches filename (snd x)) rules.
Proof.
  induction rules as [|[n r] rules IH]; simpl; [done|].
  by destruct (rule_matches filename r).
Qed.

(* ====================================================================== *)
(** * Properties of the classifier *)
(* ====================================================================== *)

(** Every keyword of the table is in the modelled fragment of [re]. *)
Lemma GENRE_RULES_in_fragment :
  forall name r pat,
    (name, r) ∈ GENRE_RULES -> pat ∈ keywords r ->
    is_Some (Re.compile pat).
Proof.
  assert (H : forallb (fun x =>
                forallb (fun pat => match Re.compile pat with
                                    | Some _ => true | None => false end)
                        (keywords (snd x))) GENRE_RULES = true)
    by (vm_compute; reflexivity).
  intros name r pat Hr Hpat.
  rewrite forallb_forall in H. apply list_elem_of_In in Hr.
  specialize (H _ Hr). simpl in H. rewrite forallb_forall in H.
  apply list_elem_of_In in Hpat. specialize (H _ Hpat).
  destruct (Re.compile pat); [eauto | discriminate].
Qed.

(** No rule of the table sends files to the fallback folder. *)
Lemma GENRE_RULES_folder_not_fallback :
  forall name r, (name, r) ∈ GENRE_RULES -> folder r <> UNCATEGORIZED_FOLDER.
Proof.
  assert (H : forallb (fun x =>
                negb (String.eqb (folder (snd x)) UNCATEGORIZED_FOLDER))
                GENRE_RULES = true)
    by (vm_compute; reflexivity).
  intros name r Hr. rewrite forallb_forall in H.
  apply list_elem_of_In in Hr. specialize (H _ Hr). simpl in H.
  apply negb_true_iff, String.eqb_neq in H. exact H.
Qed.

Lemma rule_matches_false filename r :
  rule_matches filename r = false
  <-> forall pat, pat ∈ keywords r -> Re.search pat filename = false.
Proof.
  unfold rule_matches. split.
  - intros H pat Hpat. apply list_elem_of_In in Hpat.
    destruct (Re.search pat filename) eqn:E; [|done].
    assert (existsb (fun p => Re.search p filename) (keywords r) = true)
      by (apply existsb_exists; eauto).
    congruence.
  - intros H. apply not_true_is_false. intros Hex.
    apply existsb_exists in Hex as (pat & Hin & Hs).
    apply list_elem_of_In in Hin. rewrite (H pat Hin) in Hs. discriminate.
Qed.

Section ClassifyRules.
Variable rules : list (string * rule).
Variable filename : string.

Let key (x : string * rule) : nat := priority (snd x).
Let P (x : string * rule) : bool := rule_matches filename (snd x).

Lemma classify_rules_unfold :
  classify_rules rules filename
  = match first_sat P (sorted key rules) with
    | Some x => (folder (snd x), priority (snd x))
    | None => (UNCATEGORIZED_FOLDER, 999)
    end.
Proof.
  unfold classify_rules. rewrite first_match_first_sat.
  fold key. fold P. by destruct (first_sat P (sorted key rules)).
Qed.

(** When some rule matches, the result is the folder of a matching rule
    at a position [j] of the table such that every matching rule has a
    larger priority number, or the same one and a position not before
    [j]. *)
Lemma classify_rules_winner i name r :
  rules !! i = Some (name, r) ->
  rule_matches filename r = true ->
  exists j wname w,
    rules !! j = Some (wname, w)
    /\ rule_matches filename w = true
    /\ classify_rules rules filename = (folder w, priority w)
    /\ forall i' n' r',
         rules !! i' = Some (n', r') -> rule_matches filename r' = true ->
         priority w < priority r' \/ (priority w = priority r' /\ j <= i').
Proof.
  intros Hi Hr. rewrite classify_rules_unfold.
  pose proof (first_sat_sorted_selects key P rules) as Hsel.
  destruct (first_sat P (sorted key rules)) as [[wname w]|] eqn:E.
  - apply selects_lookup in Hsel as (j & Hj & Pw & Hmin).
    exists j, wname, w. repeat split; [done..|].
    intros i' n' r' Hi' Hr'. exact (Hmin i' (n', r') Hi' Hr').
  - simpl in Hsel. apply list_elem_of_lookup_2 in Hi.
    specialize (Hsel _ Hi). unfold P in Hsel. simpl in Hsel. congruence.
Qed.

Lemma classify_rules_fallback :
  (forall name r, (name, r) ∈ rules -> folder r <> UNCATEGORIZED_FOLDER) ->
  (classify_rules rules filename = (UNCATEGORIZED_FOLDER, 999)
   <-> forall name r, (name, r) ∈ rules -> rule_matches filename r = false)
  /\ (fst (classify_rules rules filename) = UNCATEGORIZED_FOLDER
      <-> classify_rules rules filename = (UNCATEGORIZED_FOLDER, 999)).
Proof.
  intros Hfolders. rewrite classify_rules_unfold.
  destruct (first_sat P (sorted key rules)) as [[wname w]|] eqn:E.
  - apply first_sat_elem in E as [Hin Pw]. apply sorted_elem in Hin.
    unfold P in Pw. simpl in *. split; split.
    + intros [= Hf _]. by apply Hfolders in Hin.
    + intros H. rewrite (H _ _ Hin) in Pw. discriminate.
    + intros Hf. by apply Hfolders in Hin.
    + intros [= Hf _]. by apply Hfolders in Hin.
  - split; [|done]. split; [|done]. intros _ name r Hin.
    apply (first_sat_None P _ E (name, r)). by apply sorted_elem.
Qed.

End ClassifyRules.

(** The result depends on the file name only through the set of rules
    that match it. *)
Lemma classify_rules_same_matches rules a b :
  (forall name r, (name, r) ∈ rules -> rule_matches a r = rule_matches b r) ->
  classify_rules rules a = classify_rules rules b.
Proof.
  intros H. rewrite !classify_rules_unfold.
  rewrite (first_sat_ext (fun x => rule_matches a (snd x))
                         (fun x => rule_matches b (snd x))); [done|].
  intros [n r] Hin. simpl. apply (H n). by apply sorted_elem in Hin.
Qed.

(** ** The claims about [classify_file] and [is_favorite] *)

Example classify_techno_remix :
  classify_file "techno remix.wav"
  = ("05_Remixes_Edits/Extended_Versions", 2).
Proof. vm_compute. reflexivity. Qed.

(** A name with three keywords of the priority-3 rule [electronic_house]
    (among them the 17 characters of "progressive house") and one short
    keyword of the priority-2 rule [remixes_extended]. *)
Example classify_ignores_match_count :
  rule_matches "deep house progressive house edit.wav"
    (Rule "" ["\bhouse\b"; "\bdeep house\b"; "\bprogressive house\b"] 3) = true
  /\ classify_file "deep house progressive house edit.wav"
     = ("05_Remixes_Edits/Extended_Versions", 2).
Proof. vm_compute. split; reflexivity. Qed.

(** C1.  Whenever a file name matches a rule of the table (and so in
    particular when it matches two or more), [classify_file] returns the
    folder of a matching rule [w] at a position [j] of the table such that
    every matching rule has a larger priority number than [w], or the same
    priority number and a position in the table that is not before [j]:
    the smallest priority number wins, and among those the rule declared
    first.  The result depends on the name only through which rules match
    it: a name matched by the same rules gets the same result, however many
    patterns of a rule match and however long they are. *)
Theorem classify_file_first_match_wins
  (filename : string) (i : nat) (name : string) (r : rule) :
  GENRE_RULES !! i = Some (name, r) ->
  rule_matches filename r = true ->
  exists j wname w,
    GENRE_RULES !! j = Some (wname, w)
    /\ rule_matches filename w = true
    /\ classify_file filename = (folder w, priority w)
    /\ (forall i' n' r',
          GENRE_RULES !! i' = Some (n', r') ->
          rule_matches filename r' = true ->
          priority w < priority r' \/ (priority w = priority r' /\ j <= i'))
    /\ (forall other,
          (forall n' r', (n', r') ∈ GENRE_RULES ->
                         rule_matches other r' = rule_matches filename r') ->
          classify_file other = classify_file filename).
Proof.
  intros Hi Hr.
  destruct (classify_rules_winner GENRE_RULES filename i name r Hi Hr)
    as (j & wname & w & Hj & Hw & Hc & Hmin).
  exists j, wname, w. repeat split; [done..|].
  intros other Hsame. by apply classify_rules_same_matches.
Qed.

Lemma classify_file_first_match_wins_witness :
  GENRE_RULES !! 6 =
    Some ("electronic_techno",
          Rule "01_Electronic_Dance/Techno"
               ["\btechno\b"; "\bmelodic techno\b"] 3)
  /\ rule_matches "techno remix.wav"
       (Rule "01_Electronic_Dance/Techno"
             ["\btechno\b"; "\bmelodic techno\b"] 3) = true
  /\ exists j wname w,
       GENRE_RULES !! j = Some (wname, w)
       /\ rule_matches "techno remix.wav" w = true
       /\ classify_file "techno remix.wav" = (folder w, priority w)
       /\ (forall i' n' r',
             GENRE_RULES !! i' = Some (n', r') ->
             rule_matches "techno remix.wav" r' = true ->
             priority w < priority r' \/ (priority w = priority r' /\ j <= i'))
       /\ (forall other,
             (forall n' r', (n', r') ∈ GENRE_RULES ->
                rule_matches other r' = rule_matches "techno remix.wav" r') ->
             classify_file other = classify_file "techno remix.wav").
Proof.
  split; [reflexivity|]. split; [vm_compute; reflexivity|].
  apply (classify_file_first_match_wins "techno remix.wav" 6
           "electronic_techno"
           (Rule "01_Electronic_Dance/Techno"
                 ["\btechno\b"; "\bmelodic techno\b"] 3));
    [reflexivity | vm_compute; reflexivity].
Defined.

(** C4.  [classify_file] is a function on all strings: every file name has
    exactly one result.  The result is the fallback
    [('99_Uncategorized/Other', 999)] exactly when no pattern of any rule
    matches the name, and its folder is the fallback folder exactly then;
    the empty name gets the fallback. *)
Theorem classify_file_total_fallback (filename : string) :
  (exists! c, classify_file filename = c)
  /\ (classify_file filename = (UNCATEGORIZED_FOLDER, 999)
      <-> forall name r pat,
            (name, r) ∈ GENRE_RULES -> pat ∈ keywords r ->
            Re.search pat filename = false)
  /\ (fst (classify_file filename) = UNCATEGORIZED_FOLDER
      <-> classify_file filename = (UNCATEGORIZED_FOLDER, 999))
  /\ classify_file "" = (UNCATEGORIZED_FOLDER, 999).
Proof.
  split; [exists (classify_file filename); split; [done | by intros ? <-]|].
  destruct (classify_rules_fallback GENRE_RULES filename
              GENRE_RULES_folder_not_fallback) as [H1 H2].
  split; [|split; [exact H2 | vm_compute; reflexivity]].
  unfold classify_file. rewrite H1. split.
  - intros H name r pat Hr. by apply rule_matches_false, (H name).
  - intros H name r Hr. apply rule_matches_false. intros pat. by apply (H name).
Qed.

Lemma startswith_spec s pre :
  startswith s pre = true <-> exists rest, s = (pre ++ rest)%string.
Proof.
  revert s. induction pre as [|p pre IH]; intros s; simpl.
  - split; [intros _; by exists s | done].
  - destruct s as [|c s].
    + split; [done | intros [rest H]; discriminate].
    + rewrite andb_true_iff, IH, Ascii.eqb_eq. split.
      * intros [-> [rest ->]]. by exists rest.
      * intros [rest [= -> ->]]. split; [done | by exists rest].
Qed.

(** C8.  [is_favorite] holds exactly for the names that begin with the
    three characters [+++]; the marker elsewhere in the name, or only two
    plus signs at the start, do not count. *)
Theorem is_favorite_iff_prefix (filename : string) :
  (is_favorite filename = true
   <-> exists rest, filename = ("+++" ++ rest)%string)
  /\ is_favorite "+++Track.wav" = true
  /\ is_favorite "Track+++.wav" = false
  /\ is_favorite "++Track.wav" = false.
Proof.
  split; [apply startswith_spec|]. repeat split.
Qed.

(* ====================================================================== *)
(** * Strings and paths *)
(* ====================================================================== *)

Lemma str_app_cons (x : ascii) (a b : string) :
  (String x a ++ b)%string = String x (a ++ b).
Proof. reflexivity. Qed.

Lemma str_app_nil_l (a : string) : ("" ++ a)%string = a.
Proof. reflexivity. Qed.

Lemma str_app_assoc (a b c : string) :
  ((a ++ b) ++ c)%string = (a ++ (b ++ c))%string.
Proof.
  induction a as [|x a IH]; [done|]. by rewrite !str_app_cons, IH.
Qed.

Lemma str_app_nil_r (a : string) : (a ++ "")%string = a.
Proof. induction a as [|x a IH]; [done|]. by rewrite str_app_cons, IH. Qed.

Lemma str_length_app (a b : string) :
  String.length (a ++ b) = String.length a + String.length b.
Proof.
  induction a as [|x a IH]; [done|]. rewrite str_app_cons. simpl.
  by rewrite IH.
Qed.

Lemma str_app_inv_tail (a b c : string) :
  (a ++ c)%string = (b ++ c)%string -> a = b.
Proof.
  revert b. induction a as [|x a IH]; intros [|y b] H.
  - done.
  - apply (f_equal String.length) in H.
    rewrite !str_length_app in H. simpl in H. lia.
  - apply (f_equal String.length) in H.
    rewrite !str_length_app in H. simpl in H. lia.
  - rewrite !str_app_cons in H. injection H as -> H. f_equal. by apply IH.
Qed.

Lemma str_app_inv_head (a b c : string) :
  (a ++ b)%string = (a ++ c)%string -> b = c.
Proof.
  induction a as [|x a IH]; [done|]. rewrite !str_app_cons.
  intros [= H]. by apply IH.
Qed.

Lemma no_slash_app (a b : string) :
  no_slash (a ++ b) = no_slash a && no_slash b.
Proof.
  induction a as [|x a IH]; [done|]. rewrite str_app_cons. simpl.
  by rewrite IH, andb_assoc.
Qed.

Lemma str_take_drop (i : nat) (s : string) :
  (PathLib.str_take i s ++ PathLib.str_drop i s)%string = s.
Proof.
  revert s. induction i as [|i IH]; intros [|c s]; simpl; [done..|].
  by rewrite str_app_cons, IH.
Qed.

(** The stem and the suffix of a name make up the name. *)
Lemma stem_suffix_name (name : string) :
  (PathLib.stem_of name ++ PathLib.suffix_of name)%string = name.
Proof.
  unfold PathLib.stem_of, PathLib.suffix_of.
  destruct (PathLib.suffix_index name).
  - apply str_take_drop.
  - apply str_app_nil_r.
Qed.

(** ** [str(n)] *)

Lemma show_nat_inj : Inj (=) (=) show_nat.
Proof.
  intros m n H. unfold show_nat in H.
  assert (Some (Nat.to_uint m) = Some (Nat.to_uint n)) as [= E]
    by (rewrite <- !NilEmpty.usu; by rewrite H).
  rewrite <- (Unsigned.of_to m), <- (Unsigned.of_to n). by rewrite E.
Qed.

Lemma string_of_uint_no_slash (d : Decimal.uint) :
  no_slash (NilEmpty.string_of_uint d) = true.
Proof. induction d; simpl; done. Qed.

Lemma show_nat_no_slash (n : nat) : no_slash (show_nat n) = true.
Proof. apply string_of_uint_no_slash. Qed.

(** ** Components of a segment *)

Lemma emit_app cur rest : PathLib.emit cur rest = PathLib.emit cur [] ++ rest.
Proof.
  unfold PathLib.emit.
  by destruct (String.eqb cur "" || String.eqb cur ".").
Qed.

Lemma emit_long cur rest :
  2 <= String.length cur -> PathLib.emit cur rest = cur :: rest.
Proof.
  intros H. unfold PathLib.emit.
  destruct cur as [|a [|b cur]]; simpl in H; try lia.
  assert (String.eqb (String a (String b cur)) "" = false) as ->
    by (by apply String.eqb_neq).
  assert (String.eqb (String a (String b cur)) "." = false) as ->
    by (by apply String.eqb_neq).
  done.
Qed.

(** Characters that are not ['/'] go to the component being read. *)
Lemma parts_go_no_slash x cur s :
  no_slash x = true ->
  PathLib.parts_go cur (x ++ s) = PathLib.parts_go (cur ++ x) s.
Proof.
  revert cur. induction x as [|c x IH]; intros cur H.
  - by rewrite str_app_nil_r.
  - simpl in H. apply andb_true_iff in H as [Hc Hx].
    apply negb_true_iff in Hc.
    rewrite str_app_cons. simpl. rewrite Hc, IH by done.
    by rewrite str_app_assoc.
Qed.

(** What a segment contributes before the text that follows it: the
    components it completes, and the beginning of the next one. *)
Lemma parts_go_prefix a cur :
  exists pre cur', forall s,
    PathLib.parts_go cur (a ++ s) = pre ++ PathLib.parts_go cur' s.
Proof.
  revert cur. induction a as [|c a IH]; intros cur.
  - by exists [], cur.
  - destruct (Ascii.eqb c "/") eqn:E.
    + destruct (IH "") as (pre & cur' & H).
      exists (PathLib.emit cur [] ++ pre), cur'. intros s.
      rewrite str_app_cons. simpl. by rewrite E, emit_app, H, app_assoc.
    + destruct (IH (cur ++ String c "")%string) as (pre & cur' & H).
      exists pre, cur'. intros s.
      rewrite str_app_cons. simpl. by rewrite E, H.
Qed.

(** What a segment contributes after the text that precedes it: the end of
    the component being read, and the components that follow. *)
Lemma parts_go_suffix s :
  exists s1 rest, forall cur,
    PathLib.parts_go cur s = PathLib.emit (cur ++ s1) rest.
Proof.
  induction s as [|c s IH]; simpl.
  - exists "", []. intros cur. by rewrite str_app_nil_r.
  - destruct (Ascii.eqb c "/").
    + exists "", (PathLib.parts_go "" s). intros cur.
      by rewrite str_app_nil_r.
    + destruct IH as (s1 & rest & H). exists (String c s1), rest.
      intros cur. by rewrite H, str_app_assoc, str_app_cons.
Qed.

(** The components of a versioned name: the counter sits in exactly one of
    them. *)
Lemma parse_versioned_name stem suffix :
  exists pre cur s1 rest, forall k,
    PathLib.parse_parts (versioned_name stem suffix k)
    = pre ++ (cur ++ " v" ++ show_nat k ++ s1)%string :: rest.
Proof.
  destruct (parts_go_prefix stem "") as (pre & cur & Hpre).
  destruct (parts_go_suffix suffix) as (s1 & rest & Hsuf).
  exists pre, cur, s1, rest. intros k.
  unfold PathLib.parse_parts, versioned_name.
  rewrite Hpre.
  replace (" v" ++ show_nat k ++ suffix)%string
    with ((" v" ++ show_nat k) ++ suffix)%string by apply str_app_assoc.
  rewrite parts_go_no_slash
    by (rewrite no_slash_app, show_nat_no_slash; done).
  rewrite Hsuf, emit_long.
  - by rewrite !str_app_assoc.
  - rewrite !str_length_app. simpl. lia.
Qed.

Lemma parse_versioned_name_inj stem suffix :
  Inj (=) (=) (fun k => PathLib.parse_parts (versioned_name stem suffix k)).
Proof.
  destruct (parse_versioned_name stem suffix) as (pre & cur & s1 & rest & H).
  intros j k E. simpl in E. rewrite !H in E.
  apply app_inv_head in E. injection E as E.
  apply str_app_inv_head in E. apply (str_app_inv_head " v") in E.
  apply str_app_inv_tail in E. by apply show_nat_inj.
Qed.

Lemma startswith_versioned_name stem suffix k :
  startswith (versioned_name stem suffix k) "/" = startswith (stem ++ " v") "/".
Proof. unfold versioned_name. by destruct stem. Qed.

(** Different counters give different candidates. *)
Lemma candidate_inj dest_path : Inj (=) (=) (candidate dest_path).
Proof.
  intros j k E. unfold candidate, PathLib.joinpath in E.
  rewrite !startswith_versioned_name in E.
  apply (parse_versioned_name_inj (PathLib.stem dest_path)
                                  (PathLib.suffix dest_path)).
  destruct (startswith _ "/").
  - by injection E.
  - by apply app_inv_head in E.
Qed.

(* ====================================================================== *)
(** * [get_next_version_filename] *)
(* ====================================================================== *)

Lemma is_anchor_true p : PathLib.is_anchor p = true -> p = ["/"].
Proof.
  destruct p as [|a [|b p]]; simpl; try done.
  intros H. apply String.eqb_eq in H. by subst.
Qed.

Lemma path_exists_true fs p :
  path_exists fs p = true -> p ∈ dom fs \/ p = [] \/ p = ["/"].
Proof.
  unfold path_exists, stat. destruct p as [|a p]; [by auto|].
  destruct (PathLib.is_anchor (a :: p)) eqn:E.
  - intros _. right. right. by apply is_anchor_true.
  - destruct (fs !! (a :: p)) eqn:El; [|done]. intros _. left.
    apply elem_of_dom. eauto.
Qed.

Lemma path_exists_false fs p : path_exists fs p = false -> fs !! p = None.
Proof.
  unfold path_exists, stat. destruct p as [|a p]; [done|].
  destruct (PathLib.is_anchor (a :: p)); [done|].
  by destruct (fs !! (a :: p)).
Qed.

(** The loop returns the first candidate that does not exist, if there is
    one among the [fuel] candidates from [counter] on. *)
Lemma next_version_Some fuel fs dest_path counter q :
  next_version fuel fs (PathLib.stem dest_path) (PathLib.suffix dest_path)
    (PathLib.parent dest_path) counter = Some q ->
  exists k, counter <= k < counter + fuel
    /\ q = candidate dest_path k
    /\ path_exists fs q = false
    /\ forall j, counter <= j < k ->
         path_exists fs (candidate dest_path j) = true.
Proof.
  revert counter. induction fuel as [|fuel IH]; intros counter; simpl; [done|].
  fold (candidate dest_path counter).
  destruct (path_exists fs (candidate dest_path counter)) eqn:E; simpl.
  - intros H. apply IH in H as (k & Hk & -> & Hq & Hbelow).
    exists k. repeat split; [lia | lia | done |].
    intros j Hj. destruct (decide (j = counter)) as [->|]; [done|].
    apply Hbelow. lia.
  - intros [= <-]. exists counter. repeat split; [lia | lia | done |].
    intros j Hj. lia.
Qed.

Lemma next_version_None fuel fs dest_path counter :
  next_version fuel fs (PathLib.stem dest_path) (PathLib.suffix dest_path)
    (PathLib.parent dest_path) counter = None ->
  forall k, counter <= k < counter + fuel ->
    path_exists fs (candidate dest_path k) = true.
Proof.
  revert counter. induction fuel as [|fuel IH]; intros counter; simpl.
  - intros _ k Hk. lia.
  - fold (candidate dest_path counter).
    destruct (path_exists fs (candidate dest_path counter)) eqn:E; simpl;
      [|done].
    intros H k Hk. destruct (decide (k = counter)) as [->|]; [done|].
    apply (IH _ H). lia.
Qed.

(** At most [size fs + 2] candidates exist: those of the map, the current
    directory and the root. *)
Lemma existing_candidates_bounded (fs : FS) dest_path counter n :
  (forall k, counter <= k < counter + n ->
     path_exists fs (candidate dest_path k) = true) ->
  n <= size fs + 2.
Proof.
  intros Hall.
  pose (l := candidate dest_path <$> seq counter n).
  assert (NoDup l) as Hnd
    by (apply NoDup_fmap_2; [apply candidate_inj | apply NoDup_seq]).
  assert (list_to_set l ⊆ dom fs ∪ ({[ [] ]} ∪ {[ ["/"] ]} : gset Path))
    as Hsub.
  { intros p Hp. apply elem_of_list_to_set in Hp.
    apply list_elem_of_fmap in Hp as (k & -> & Hk).
    apply elem_of_seq in Hk.
    destruct (path_exists_true fs (candidate dest_path k)) as [H|[H|H]];
      [apply Hall; lia | | |].
    - apply elem_of_union. by left.
    - rewrite H. apply elem_of_union. right. apply elem_of_union. left.
      by apply elem_of_singleton.
    - rewrite H. apply elem_of_union. right. apply elem_of_union. right.
      by apply elem_of_singleton. }
  apply subseteq_size in Hsub.
  rewrite size_list_to_set in Hsub by done.
  unfold l in Hsub. rewrite length_fmap, length_seq in Hsub.
  pose proof (size_union_alt (dom fs) ({[ [] ]} ∪ {[ ["/"] ]} : gset Path))
    as Hu.
  assert (size (({[ [] ]} ∪ {[ ["/"] ]} : gset Path) ∖ dom fs) <= 2).
  { etrans; [apply subseteq_size, subseteq_difference_l; reflexivity|].
    rewrite size_union by set_solver. by rewrite !size_singleton. }
  rewrite size_dom in Hu. lia.
Qed.

(** The fuel of [get_next_version_filename] is enough: the loop returns. *)
Lemma get_next_version_filename_returns (fs : FS) (dest_path : Path) :
  is_Some (get_next_version_filename fs dest_path).
Proof.
  unfold get_next_version_filename.
  destruct (path_exists fs dest_path); simpl; [|by eauto].
  destruct (next_version _ _ _ _ _ _) as [q|] eqn:E; [by eauto|].
  pose proof (next_version_None _ _ _ _ E) as Hall.
  apply existing_candidates_bounded in Hall. lia.
Qed.

(** What [get_next_version_filename] returns. *)
Lemma get_next_version_filename_first_free (fs : FS) (dest_path : Path) :
  exists final,
    get_next_version_filename fs dest_path = Some final
    /\ path_exists fs final = false
    /\ (path_exists fs dest_path = false /\ final = dest_path
        \/ path_exists fs dest_path = true
           /\ exists counter,
                2 <= counter
                /\ final = candidate dest_path counter
                /\ forall k, 2 <= k < counter ->
                     path_exists fs (candidate dest_path k) = true).
Proof.
  destruct (get_next_version_filename_returns fs dest_path) as [final H].
  exists final. split; [done|].
  unfold get_next_version_filename in H.
  destruct (path_exists fs dest_path) eqn:E; simpl in H.
  - apply next_version_Some in H as (k & Hk & -> & Hq & Hbelow).
    split; [done|]. right. split; [done|].
    exists k. repeat split; [lia | done].
  - injection H as <-. split; [done|]. by left.
Qed.


Example versioned_name_track :
  versioned_name "Track" ".wav" 2 = "Track v2.wav"
  /\ versioned_name "Track" ".wav" 10 = "Track v10.wav".
Proof. split; reflexivity. Qed.

(* ====================================================================== *)
(** * The file system under the pipeline *)
(* ====================================================================== *)

Lemma stat_None fs p : stat fs p = None -> fs !! p = None.
Proof.
  intros H. apply path_exists_false. unfold path_exists. by rewrite H.
Qed.

Lemma stat_File fs p content :
  stat fs p = Some (File content) -> fs !! p = Some (File content).
Proof.
  unfold stat. destruct p as [|a p]; [done|].
  by destruct (PathLib.is_anchor (a :: p)).
Qed.

Lemma stat_lookup fs p n :
  fs !! p = Some n -> exists n', stat fs p = Some n'.
Proof.
  intros H. unfold stat. destruct p as [|a p]; [by eauto|].
  destruct (PathLib.is_anchor (a :: p)); eauto.
Qed.

Lemma stat_File_mono (fs fs' : FS) p content :
  fs ⊆ fs' -> stat fs p = Some (File content) ->
  stat fs' p = Some (File content).
Proof.
  intros Hsub. unfold stat. destruct p as [|a p]; [done|].
  destruct (PathLib.is_anchor (a :: p)); [done|].
  intros H. by eapply lookup_weaken.
Qed.

(** A call that raises and leaves the file system as it was. *)
Ltac copy_raises :=
  eexists _, _; split; [reflexivity|]; split; [reflexivity|];
  intros ? ?; discriminate.

Section PipelineFacts.
Variable os_fault : FS -> syscall -> option fault.

(** ** [mkdir] only adds directories *)

Lemma mkdir_walk_subseteq pre todo fs :
  fs ⊆ (mkdir_walk os_fault pre todo fs).1.
Proof.
  revert pre fs. induction todo as [|c todo IH]; intros pre fs; simpl;
    [done|].
  destruct (stat fs (pre ++ [c])) as [[content|]|] eqn:E; simpl; [done| |].
  - apply IH.
  - destruct (os_fault fs (SysMkdir (pre ++ [c]))); simpl; [done|].
    etrans; [|apply IH]. apply insert_subseteq. by apply stat_None.
Qed.

Lemma mkdir_walk_files pre todo fs p content :
  (mkdir_walk os_fault pre todo fs).1 !! p = Some (File content) ->
  fs !! p = Some (File content).
Proof.
  revert pre fs. induction todo as [|c todo IH]; intros pre fs; simpl;
    [done|].
  destruct (stat fs (pre ++ [c])) as [[content'|]|] eqn:E; simpl; [done| |].
  - apply IH.
  - destruct (os_fault fs (SysMkdir (pre ++ [c]))); simpl; [done|].
    intros H. apply IH in H.
    destruct (decide (pre ++ [c] = p)) as [<-|Hne].
    + by rewrite lookup_insert_eq in H.
    + by rewrite lookup_insert_ne in H.
Qed.

(** ** [copy2] to a path that does not exist *)

Lemma copy2_fresh src dst fs :
  path_exists fs dst = false ->
  exists fs' r,
    copy2 os_fault src dst fs = Some (fs', r)
    /\ fs ⊆ fs'
    /\ forall d, r = Returned d ->
         d = dst
         /\ exists content,
              stat fs src = Some (File content)
              /\ fs' = <[dst := File content]> fs.
Proof.
  intros Hfresh. pose proof (path_exists_false _ _ Hfresh) as Hnone.
  assert (stat fs dst = None) as Edst
    by (unfold path_exists in Hfresh; by destruct (stat fs dst)).
  unfold copy2, is_dir. rewrite Edst. cbv zeta. rewrite Edst.
  destruct (stat fs src) as [[content|]|] eqn:Esrc;
    [|copy_raises|copy_raises].
  destruct (decide (src = dst)); [copy_raises|].
  destruct (stat fs (PathLib.parent dst)) as [[c'|]|];
    [copy_raises| |copy_raises].
  destruct (os_fault fs (SysCopy src dst)) as [f|].
  - eexists _, _. split; [done|]. split; [|intros ? ?; discriminate].
    destruct (fault_leaves f); [by apply insert_subseteq | done].
  - eexists _, _. split; [done|]. split; [by apply insert_subseteq|].
    intros d [= <-]. split; [done|]. by exists content.
Qed.

(** ** [copy_file_with_versioning], step by step *)

Lemma copy_file_with_versioning_steps source_path dest_folder base_path fs :
  exists fs1 r1,
    mkdir_walk os_fault [] (base_path /: dest_folder) fs = (fs1, r1)
    /\ match r1 with
       | Raised msg =>
           copy_file_with_versioning os_fault source_path dest_folder
             base_path fs = Some (fs1, Raised msg)
       | Returned _ =>
           exists final_dest,
             get_next_version_filename fs1
               (base_path /: dest_folder /: PathLib.name source_path)
             = Some final_dest
             /\ path_exists fs1 final_dest = false
             /\ copy_file_with_versioning os_fault source_path dest_folder
                  base_path fs
                = match copy2 os_fault source_path final_dest fs1 with
                  | Some (fs2, Returned _) => Some (fs2, Returned final_dest)
                  | Some (fs2, Raised msg) => Some (fs2, Raised msg)
                  | None => None
                  end
       end.
Proof.
  unfold copy_file_with_versioning, bind, mkdir, resolve, ret.
  destruct (mkdir_walk os_fault [] (base_path /: dest_folder) fs)
    as [fs1 [[]|msg]] eqn:E; exists fs1; eexists; (split; [done|]); [|done].
  destruct (get_next_version_filename_returns fs1
              (base_path /: dest_folder /: PathLib.name source_path))
    as [final_dest Hres].
  exists final_dest. rewrite Hres. split; [done|]. split; [|done].
  unfold get_next_version_filename in Hres.
  destruct (path_exists fs1 _) eqn:Ex; simpl in Hres.
  - by apply next_version_Some in Hres as (k & _ & _ & Hq & _).
  - by injection Hres as <-.
Qed.

(** The call comes back, and keeps every node of the file system. *)
Lemma copy_file_with_versioning_keeps source_path dest_folder base_path fs :
  exists fs' r,
    copy_file_with_versioning os_fault source_path dest_folder base_path fs
    = Some (fs', r)
    /\ fs ⊆ fs'.
Proof.
  destruct (copy_file_with_versioning_steps source_path dest_folder
              base_path fs) as (fs1 & r1 & Hmk & H).
  assert (fs ⊆ fs1) as Hsub1.
  { pose proof (mkdir_walk_subseteq [] (base_path /: dest_folder) fs) as Hs.
    by rewrite Hmk in Hs. }
  destruct r1 as [[]|msg].
  - destruct H as (final_dest & _ & Hfresh & ->).
    destruct (copy2_fresh source_path final_dest fs1 Hfresh)
      as (fs2 & r & -> & Hsub2 & _).
    destruct r; eexists _, _; (split; [done|]); by etrans.
  - by exists fs1, (Raised msg).
Qed.

(** When the call returns: the folder was made, the returned path was
    resolved in the file system so reached and did not exist there, the
    source is a regular file, and its content is what was written. *)
Lemma copy_file_with_versioning_returned
  source_path dest_folder base_path fs fs' final_dest :
  copy_file_with_versioning os_fault source_path dest_folder base_path fs
  = Some (fs', Returned final_dest) ->
  exists fs1 content,
    mkdir_walk os_fault [] (base_path /: dest_folder) fs
    = (fs1, Returned tt)
    /\ get_next_version_filename fs1
         (base_path /: dest_folder /: PathLib.name source_path)
       = Some final_dest
    /\ path_exists fs1 final_dest = false
    /\ stat fs1 source_path = Some (File content)
    /\ fs' = <[final_dest := File content]> fs1.
Proof.
  intros Hrun.
  destruct (copy_file_with_versioning_steps source_path dest_folder
              base_path fs) as (fs1 & r1 & Hmk & H).
  destruct r1 as [[]|msg]; [|congruence].
  destruct H as (d & Hres & Hfresh & Heq). rewrite Heq in Hrun.
  destruct (copy2_fresh source_path d fs1 Hfresh)
    as (fs2 & r & Hc & _ & Hret).
  rewrite Hc in Hrun. destruct r as [d'|msg]; [|done].
  injection Hrun as <- <-.
  destruct (Hret d' eq_refl) as (_ & content & Hsrc & ->).
  by exists fs1, content.
Qed.

(** ** The classification loop *)

Lemma classify_step_map acc file_path :
  classification_map (classify_step acc file_path)
  = <[file_path := (classify_file (str_lower (PathLib.name file_path))).1]>
      (classification_map acc).
Proof.
  unfold classify_step. by destruct (classify_file _) as [folder prio].
Qed.

Lemma classify_step_favorites acc file_path :
  favorites_count (classify_step acc file_path)
  = favorites_count acc
    + (if is_favorite (PathLib.name file_path) then 1 else 0).
Proof.
  unfold classify_step. destruct (classify_file _) as [folder prio]. simpl.
  destruct (is_favorite _); lia.
Qed.

(** Every scanned file is a key of the map, with the folder its lower-cased
    name is classified to. *)
Lemma classification_map_fold all_files acc f :
  f ∈ all_files
  \/ classification_map acc !! f
     = Some (classify_file (str_lower (PathLib.name f))).1 ->
  classification_map (fold_left classify_step all_files acc) !! f
  = Some (classify_file (str_lower (PathLib.name f))).1.
Proof.
  revert acc. induction all_files as [|g l IH]; intros acc H; simpl.
  - destruct H as [H|H]; [by apply elem_of_nil in H | done].
  - apply IH. rewrite classify_step_map.
    destruct (decide (g = f)) as [->|Hne].
    + right. by rewrite lookup_insert_eq.
    + rewrite lookup_insert_ne by done.
      destruct H as [H|H]; [|by right].
      apply elem_of_cons in H as [->|H]; [done | by left].
Qed.

Lemma classification_map_lookup all_files f :
  f ∈ all_files ->
  classification_map (classify_all all_files) !! f
  = Some (classify_file (str_lower (PathLib.name f))).1.
Proof. intros H. apply classification_map_fold. by left. Qed.

Lemma favorites_count_fold all_files acc :
  favorites_count (fold_left classify_step all_files acc)
  = favorites_count acc
    + length (filter (fun f => is_favorite (PathLib.name f) = true)
                     all_files).
Proof.
  revert acc. induction all_files as [|g l IH]; intros acc; simpl; [lia|].
  rewrite IH, classify_step_favorites, filter_cons.
  destruct (is_favorite (PathLib.name g)) eqn:E.
  - rewrite decide_True by done. simpl. lia.
  - rewrite decide_False by (by intros ?). lia.
Qed.

(** ** The copy loop *)

Lemma try_copy_keeps cmap output_path source_file fs :
  exists fs' o,
    try_copy os_fault cmap output_path source_file fs = Some (fs', o)
    /\ fs ⊆ fs'.
Proof.
  unfold try_copy. destruct (cmap !! source_file) as [dest_folder|];
    [|by exists fs, (Raised "KeyError")].
  unfold bind.
  destruct (copy_file_with_versioning_keeps source_file dest_folder
              output_path fs) as (fs1 & r1 & -> & Hsub1).
  destruct r1 as [d1|msg]; [|by eexists _, _].
  destruct (is_favorite (PathLib.name source_file)); [|by eexists _, _].
  destruct (copy_file_with_versioning_keeps source_file
              (dest_folder ++ "/" ++ FAVORITES_SUBFOLDER)%string
              output_path fs1) as (fs2 & r2 & -> & Hsub2).
  destruct r2; eexists _, _; (split; [done|]); by etrans.
Qed.

Lemma copy_batch_app cmap output_path l1 l2 st fs :
  copy_batch os_fault cmap output_path (l1 ++ l2) st fs
  = match copy_batch os_fault cmap output_path l1 st fs with
    | Some (fs1, st1) => copy_batch os_fault cmap output_path l2 st1 fs1
    | None => None
    end.
Proof.
  revert st fs. induction l1 as [|f l1 IH]; intros st fs; simpl; [done|].
  destruct (copy_one os_fault cmap output_path f st fs) as [[fs' st']|];
    [apply IH | done].
Qed.

(** The loop comes back for every list of files: each file adds one to
    [processed] or one entry to [errors], and no node of the file system
    is lost or changed. *)
Lemma copy_batch_keeps cmap output_path batch st fs :
  exists fs' st',
    copy_batch os_fault cmap output_path batch st fs = Some (fs', st')
    /\ fs ⊆ fs'
    /\ processed st' + length (errors st')
       = processed st + length (errors st) + length batch
    /\ exists more, errors st' = errors st ++ more.
Proof.
  revert st fs. induction batch as [|f l IH]; intros st fs; simpl.
  - exists fs, st. split; [done|]. split; [done|]. split; [lia|].
    exists []. by rewrite app_nil_r.
  - unfold copy_one.
    destruct (try_copy_keeps cmap output_path f fs) as (fs1 & o & -> & Hsub).
    destruct (IH (handle f st o) fs1)
      as (fs' & st' & -> & Hsub' & Hcount & more & Hmore).
    exists fs', st'. split; [done|]. split; [by etrans|].
    destruct o as [[]|msg]; simpl in *.
    + split; [lia|]. by exists more.
    + rewrite length_app in Hcount. simpl in Hcount. split; [lia|].
      exists ((PathLib.name f, msg) :: more).
      by rewrite Hmore, <- app_assoc.
Qed.

(** ** Batches *)

Lemma slices_concat {A} (size : nat) (l : list A) (n : nat) :
  0 < size -> length l <= n * size ->
  concat ((fun k => take size (drop (k * size) l)) <$> seq 0 n) = l.
Proof.
  intros Hsize. revert l. induction n as [|n IH]; intros l Hlen.
  - simpl in *. destruct l; [done | simpl in Hlen; lia].
  - simpl. rewrite <- fmap_S_seq, <- list_fmap_compose.
    transitivity (take size l ++ drop size l); [|apply take_drop].
    f_equal.
    assert (length (drop size l) <= n * size) as Hlen'
      by (rewrite length_drop; simpl in Hlen; lia).
    etrans; [|exact (IH (drop size l) Hlen')].
    f_equal. apply list_fmap_ext. intros ? k ?. simpl.
    by rewrite drop_drop.
Qed.

(** Going through the batches is going through the list. *)
Lemma batches_concat {A} (l : list A) :
  concat ((fun i => slice l i (i + BATCH_SIZE))
            <$> range_step (length l) BATCH_SIZE) = l.
Proof.
  unfold range_step, slice.
  change (List.map ?f ?x) with (f <$> x).
  rewrite <- list_fmap_compose.
  etrans; [|apply (slices_concat BATCH_SIZE l
                     ((length l + (BATCH_SIZE - 1)) / BATCH_SIZE))].
  - f_equal. apply list_fmap_ext. intros ? k ?. simpl.
    by replace (k * BATCH_SIZE + BATCH_SIZE - k * BATCH_SIZE)
      with BATCH_SIZE by lia.
  - unfold BATCH_SIZE. lia.
  - unfold BATCH_SIZE. change (50 - 1) with 49.
    pose proof (Nat.div_mod_eq (length l + 49) 50).
    pose proof (Nat.mod_upper_bound (length l + 49) 50). lia.
Qed.

Lemma copy_batches_concat cmap output_path all_files starts st fs :
  copy_batches os_fault cmap output_path all_files starts st fs
  = copy_batch os_fault cmap output_path
      (concat ((fun i => slice all_files i (i + BATCH_SIZE)) <$> starts))
      st fs.
Proof.
  revert st fs. induction starts as [|i starts IH]; intros st fs; simpl;
    [done|].
  rewrite copy_batch_app.
  destruct (copy_batch os_fault cmap output_path
              (slice all_files i (i + BATCH_SIZE)) st fs) as [[fs' st']|];
    [apply IH | done].
Qed.

(** The batches of [sort_music] are one pass over [all_files]. *)
Lemma copy_batches_flat cmap output_path all_files st fs :
  copy_batches os_fault cmap output_path all_files
    (range_step (length all_files) BATCH_SIZE) st fs
  = copy_batch os_fault cmap output_path all_files st fs.
Proof. by rewrite copy_batches_concat, batches_concat. Qed.

End PipelineFacts.

(* ====================================================================== *)
(** * The run *)
(* ====================================================================== *)

(** [sort_music] as one pass of the copy loop over the scanned files. *)
Lemma sort_music_unfold os_fault source_path output_dir all_files fs :
  sort_music os_fault source_path output_dir all_files fs
  = if Nat.eqb (length all_files) 0 then Some (fs, None)
    else
      match copy_batch os_fault (classification_map (classify_all all_files))
              (output_path_of source_path output_dir) all_files
              progress0 fs with
      | None => None
      | Some (fs', st) =>
          Some (fs',
                Some {| total_files_processed := processed st;
                        favorites_copied :=
                          favorites_count (classify_all all_files);
                        error_count := length (errors st);
                        errors_shown := take 10 (errors st);
                        errors_not_shown := length (errors st) - 10;
                        summary := stats (classify_all all_files) |})
      end.
Proof.
  unfold sort_music. by rewrite copy_batches_flat.
Qed.

Lemma favorites_count_classify_all all_files :
  favorites_count (classify_all all_files)
  = length (favorite_files all_files).
Proof. unfold classify_all. by rewrite favorites_count_fold. Qed.

(** C6.  For every behaviour of the operating system the copy loop of
    [sort_music] comes to its end, and so does [sort_music]; every file is
    counted once, in [processed] or in [errors].  Whatever the [try] body
    does on a file [f] of the list, the loop goes on with the files after
    [f] from the state the handler leaves; when the body raises [msg], that
    state has the pair [(f.name, msg)] appended to [errors], and the pair
    is in the final list at that position.  The body raises what the copy
    into the category folder raises, and, for a favorite, what the copy
    into the [_FAVORITES] folder raises. *)
Theorem copy_failure_recorded_and_run_continues
  (os_fault : FS -> syscall -> option fault)
  (source_path : Path) (output_dir : option Path)
  (all_files : list Path) (fs : FS) :
  exists fs' st',
    copy_batches os_fault (classification_map (classify_all all_files))
      (output_path_of source_path output_dir) all_files
      (range_step (length all_files) BATCH_SIZE) progress0 fs
    = Some (fs', st')
    /\ (exists res,
          sort_music os_fault source_path output_dir all_files fs
          = Some (if Nat.eqb (length all_files) 0 then fs else fs', res)
          /\ (all_files <> [] ->
              exists rep,
                res = Some rep
                /\ total_files_processed rep = processed st'
                /\ error_count rep = length (errors st')
                /\ errors_shown rep = take 10 (errors st')))
    /\ processed st' + length (errors st') = length all_files
    /\ (forall before f after,
         all_files = before ++ f :: after ->
         exists fs1 st1 fs2 o,
           copy_batch os_fault (classification_map (classify_all all_files))
             (output_path_of source_path output_dir) before progress0 fs
           = Some (fs1, st1)
           /\ try_copy os_fault (classification_map (classify_all all_files))
                (output_path_of source_path output_dir) f fs1
              = Some (fs2, o)
           /\ copy_batch os_fault
                (classification_map (classify_all all_files))
                (output_path_of source_path output_dir) after
                (handle f st1 o) fs2
              = Some (fs', st')
           /\ forall msg,
                o = Raised msg ->
                handle f st1 o
                = {| processed := processed st1;
                     errors := errors st1 ++ [(PathLib.name f, msg)] |}
                /\ errors st' !! length (errors st1)
                   = Some (PathLib.name f, msg))
    /\ forall (cmap : gmap Path string) (out f : Path) (dest_folder : string)
              (fs0 : FS),
         cmap !! f = Some dest_folder ->
         (forall fs1 msg,
            copy_file_with_versioning os_fault f dest_folder out fs0
            = Some (fs1, Raised msg) ->
            try_copy os_fault cmap out f fs0 = Some (fs1, Raised msg))
         /\ (forall fs1 d fs2 msg,
               copy_file_with_versioning os_fault f dest_folder out fs0
               = Some (fs1, Returned d) ->
               is_favorite (PathLib.name f) = true ->
               copy_file_with_versioning os_fault f
                 (favorites_of dest_folder) out fs1
               = Some (fs2, Raised msg) ->
               try_copy os_fault cmap out f fs0 = Some (fs2, Raised msg)).
Proof.
  set (cmap := classification_map (classify_all all_files)).
  set (out := output_path_of source_path output_dir).
  destruct (copy_batch_keeps os_fault cmap out all_files progress0 fs)
    as (fs' & st' & Hrun & _ & Hcount & _).
  exists fs', st'. rewrite copy_batches_flat. split; [done|].
  split; [|split; [simpl in Hcount; lia|split]].
  - rewrite sort_music_unfold. fold cmap out. rewrite Hrun.
    destruct all_files as [|f0 l]; simpl.
    + exists None. split; [done|]. by intros [].
    + eexists. split; [done|]. intros _. by eexists.
  - intros before f after ->.
    rewrite copy_batch_app in Hrun.
    destruct (copy_batch_keeps os_fault cmap out before progress0 fs)
      as (fs1 & st1 & Hbefore & _).
    rewrite Hbefore in Hrun. simpl in Hrun. unfold copy_one in Hrun.
    destruct (try_copy_keeps os_fault cmap out f fs1) as (fs2 & o & Htry & _).
    rewrite Htry in Hrun.
    exists fs1, st1, fs2, o. split; [done|]. split; [done|].
    split; [done|]. intros msg ->. simpl. split; [done|].
    destruct (copy_batch_keeps os_fault cmap out after
                (handle f st1 (Raised msg)) fs2)
      as (fs3 & st3 & Hafter & _ & _ & more & Hmore).
    rewrite Hafter in Hrun. injection Hrun as <- <-.
    rewrite Hmore. simpl. rewrite <- app_assoc. simpl.
    by rewrite list_lookup_middle.
  - intros cmap' out' f dest_folder fs0 Hlookup.
    unfold try_copy, bind, favorites_of. rewrite Hlookup.
    split.
    + by intros fs1 msg ->.
    + by intros fs1 d fs2 msg -> -> ->.
Qed.

(** C10.  The "Favorites copied" figure of the report is the count made
    by the classification loop, which is the number of scanned files whose
    name begins with [+++]; this holds for every behaviour of the
    operating system and every file system.  It can exceed the number of
    favorites copies made: when every copy is refused, one favorite file
    gives the figure 1 while the run processes no file, records one error
    and leaves the source as the only regular file of the file system. *)
Theorem favorites_count_ignores_copy_failures :
  (forall (os_fault : FS -> syscall -> option fault)
          (source_path : Path) (output_dir : option Path)
          (all_files : list Path) (fs : FS),
     match sort_music os_fault source_path output_dir all_files fs with
     | Some (_, Some rep) =>
         favorites_copied rep = favorites_count (classify_all all_files)
         /\ favorites_copied rep = length (favorite_files all_files)
     | Some (_, None) => all_files = []
     | None => False
     end)
  /\ match sort_music deny_copies ["in"] None [ ["in"; "+++Track.wav"] ]
             (<[ ["in"; "+++Track.wav"] := File "RIFF" ]>
                (<[ ["in"] := Dir ]> ∅)) with
     | Some (fs', Some rep) =>
         favorites_copied rep = 1
         /\ total_files_processed rep = 0
         /\ error_count rep = 1
         /\ errors_shown rep
            = [("+++Track.wav", "[Errno 13] Permission denied")]
         /\ files_of fs' = [(["in"; "+++Track.wav"], "RIFF")]
     | _ => False
     end.
Proof.
  split.
  - intros os_fault source_path output_dir all_files fs.
    rewrite sort_music_unfold.
    destruct all_files as [|f0 l]; [done|].
    destruct (copy_batch_keeps os_fault
                (classification_map (classify_all (f0 :: l)))
                (output_path_of source_path output_dir) (f0 :: l)
                progress0 fs) as (fs' & st' & -> & _).
    cbn [length Nat.eqb favorites_copied].
    split; [done | apply favorites_count_classify_all].
  - vm_compute. repeat split.
Qed.

(** C7.  A run of [sort_music] keeps every node of the file system it
    starts from: a path that existed before the run has the same file
    content, or is the same directory, after it, whatever the run found in
    the output tree and whatever the operating system refused.  This is so
    because the one place that writes, [copy_file_with_versioning], gives
    [shutil.copy2] a destination that does not exist at that moment: the
    desired path when it is free, and otherwise the candidate
    ['{stem} v{counter}{suffix}'] in the same folder for the first counter
    from 2 on that is free. *)
Theorem existing_files_never_overwritten
  (os_fault : FS -> syscall -> option fault)
  (source_path : Path) (output_dir : option Path)
  (all_files : list Path) (fs : FS) :
  (exists fs' res,
     sort_music os_fault source_path output_dir all_files fs
     = Some (fs', res)
     /\ forall p n, fs !! p = Some n -> fs' !! p = Some n)
  /\ forall (source_file : Path) (dest_folder : string) (base_path : Path)
            (fs0 : FS),
       exists fs1 r1,
         mkdir_walk os_fault [] (base_path /: dest_folder) fs0 = (fs1, r1)
         /\ match r1 with
            | Raised msg =>
                copy_file_with_versioning os_fault source_file dest_folder
                  base_path fs0 = Some (fs1, Raised msg)
            | Returned _ =>
                exists final_dest,
                  get_next_version_filename fs1
                    (base_path /: dest_folder /: PathLib.name source_file)
                  = Some final_dest
                  /\ path_exists fs1 final_dest = false
                  /\ fs1 !! final_dest = None
                  /\ (final_dest
                      = base_path /: dest_folder /: PathLib.name source_file
                      \/ exists counter,
                           2 <= counter
                           /\ final_dest
                              = candidate
                                  (base_path /: dest_folder
                                   /: PathLib.name source_file) counter
                           /\ forall k, 2 <= k < counter ->
                                path_exists fs1
                                  (candidate
                                     (base_path /: dest_folder
                                      /: PathLib.name source_file) k)
                                = true)
                  /\ copy_file_with_versioning os_fault source_file
                       dest_folder base_path fs0
                     = match copy2 os_fault source_file final_dest fs1 with
                       | Some (fs2, Returned _) =>
                           Some (fs2, Returned final_dest)
                       | Some (fs2, Raised msg) => Some (fs2, Raised msg)
                       | None => None
                       end
            end.
Proof.
  split.
  - rewrite sort_music_unfold.
    destruct (Nat.eqb (length all_files) 0); [by exists fs, None|].
    destruct (copy_batch_keeps os_fault
                (classification_map (classify_all all_files))
                (output_path_of source_path output_dir) all_files
                progress0 fs) as (fs' & st' & -> & Hsub & _).
    eexists _, _. split; [done|].
    intros p n Hp. by eapply lookup_weaken.
  - intros source_file dest_folder base_path fs0.
    destruct (copy_file_with_versioning_steps os_fault source_file
                dest_folder base_path fs0) as (fs1 & r1 & Hmk & H).
    exists fs1, r1. split; [done|]. destruct r1 as [[]|msg]; [|done].
    destruct H as (final_dest & Hres & Hfresh & Heq).
    exists final_dest. split; [done|]. split; [done|].
    split; [by apply path_exists_false|]. split; [|done].
    destruct (get_next_version_filename_first_free fs1
                (base_path /: dest_folder /: PathLib.name source_file))
      as (d & Hd & _ & Hcases).
    rewrite Hres in Hd. injection Hd as <-.
    destruct Hcases as [[_ ->]|[_ (k & Hk & -> & Hbelow)]]; [by left|].
    right. by exists k.
Qed.

(* ====================================================================== *)
(** * Names of the copies *)
(* ====================================================================== *)

Lemma parts_go_component cur s :
  no_slash s = true ->
  PathLib.parts_go cur s = PathLib.emit (cur ++ s) [].
Proof.
  revert cur. induction s as [|c s IH]; intros cur H; simpl in *.
  - by rewrite str_app_nil_r.
  - apply andb_true_iff in H as [Hc Hs]. apply negb_true_iff in Hc.
    rewrite Hc, IH by done. by rewrite str_app_assoc.
Qed.

Lemma valid_component_spec s :
  valid_component s = true <-> no_slash s = true /\ s <> "" /\ s <> ".".
Proof.
  unfold valid_component.
  rewrite !andb_true_iff, !negb_true_iff, !String.eqb_neq. tauto.
Qed.

Lemma no_slash_startswith s : no_slash s = true -> startswith s "/" = false.
Proof.
  destruct s as [|c s]; simpl; [done|].
  intros H. apply andb_true_iff in H as [Hc _].
  apply negb_true_iff in Hc. by rewrite Hc.
Qed.

(** Joining a component appends it. *)
Lemma joinpath_component p s :
  valid_component s = true -> p /: s = p ++ [s].
Proof.
  intros H. apply valid_component_spec in H as (Hns & Hne & Hnd).
  unfold PathLib.joinpath, PathLib.parse_parts.
  rewrite no_slash_startswith, parts_go_component by done.
  rewrite str_app_nil_l. unfold PathLib.emit.
  apply String.eqb_neq in Hne, Hnd. by rewrite Hne, Hnd.
Qed.

Lemma name_snoc p s : no_slash s = true -> PathLib.name (p ++ [s]) = s.
Proof.
  intros H. unfold PathLib.name.
  assert (PathLib.is_anchor (p ++ [s]) = false) as ->.
  { destruct p as [|a [|b p]]; simpl; [|done..].
    apply String.eqb_neq. by intros ->. }
  apply List.last_last.
Qed.

Lemma valid_component_versioned stem suffix k :
  no_slash stem = true -> no_slash suffix = true ->
  valid_component (versioned_name stem suffix k) = true.
Proof.
  intros Hstem Hsuffix. apply valid_component_spec. unfold versioned_name.
  split; [|split].
  - rewrite !no_slash_app, Hstem, Hsuffix, show_nat_no_slash. done.
  - intros H. apply (f_equal String.length) in H.
    rewrite !str_length_app in H. simpl in H. lia.
  - intros H. apply (f_equal String.length) in H.
    rewrite !str_length_app in H. simpl in H. lia.
Qed.

Lemma no_slash_stem_suffix s :
  no_slash s = true ->
  no_slash (PathLib.stem_of s) = true /\ no_slash (PathLib.suffix_of s) = true.
Proof.
  intros H. rewrite <- (stem_suffix_name s), no_slash_app in H.
  by apply andb_true_iff in H.
Qed.


Example sanitize_filename_replaces :
  sanitize_filename "AC/DC: Live?.wav" = "AC_DC_ Live_.wav"
  /\ sanitize_filename "Track.wav" = "Track.wav".
Proof. split; reflexivity. Qed.




(* ====================================================================== *)
(** * Favorites *)
(* ====================================================================== *)

(** What the [try] body has done to a favorite when it returns. *)
Lemma favorite_two_copies
  (os_fault : FS -> syscall -> option fault)
  (all_files : list Path) (f : Path) (output_path : Path) (fs : FS) :
  f ∈ all_files ->
  is_favorite (PathLib.name f) = true ->
  returns (try_copy os_fault (classification_map (classify_all all_files))
             output_path f fs) = true ->
  exists content fs1 d1 fs2 d2 fs',
    try_copy os_fault (classification_map (classify_all all_files))
      output_path f fs = Some (fs', Returned tt)
    /\ fs !! f = Some (File content)
    /\ mkdir_walk os_fault [] (output_path /: category_of f) fs
       = (fs1, Returned tt)
    /\ get_next_version_filename fs1
         (output_path /: category_of f /: PathLib.name f) = Some d1
    /\ fs1 !! d1 = None
    /\ mkdir_walk os_fault [] (output_path /: favorites_of (category_of f))
         (<[d1 := File content]> fs1)
       = (fs2, Returned tt)
    /\ get_next_version_filename fs2
         (output_path /: favorites_of (category_of f) /: PathLib.name f)
       = Some d2
    /\ fs2 !! d2 = None
    /\ fs' = <[d2 := File content]> fs2
    /\ d1 <> d2
    /\ fs' !! d1 = Some (File content)
    /\ fs' !! d2 = Some (File content)
    /\ fs' !! f = Some (File content).
Proof.
  intros Hin Hfav Hret.
  unfold try_copy in *.
  rewrite (classification_map_lookup all_files f Hin) in *.
  fold (category_of f) in *. unfold bind in *. rewrite Hfav in *.
  fold (favorites_of (category_of f)) in *.
  destruct (copy_file_with_versioning os_fault f (category_of f)
              output_path fs) as [[fsa [d1|m1]]|] eqn:E1; [|done..].
  destruct (copy_file_with_versioning os_fault f
              (favorites_of (category_of f)) output_path fsa)
    as [[fsb [d2|m2]]|] eqn:E2; [|done..].
  apply copy_file_with_versioning_returned in E1
    as (fs1 & c1 & Hmk1 & Hres1 & Hfresh1 & Hsrc1 & ->).
  apply copy_file_with_versioning_returned in E2
    as (fs2 & c2 & Hmk2 & Hres2 & Hfresh2 & Hsrc2 & ->).
  apply path_exists_false in Hfresh1, Hfresh2.
  assert (<[d1 := File c1]> fs1 ⊆ fs2) as Hsub2.
  { pose proof (mkdir_walk_subseteq os_fault []
                  (output_path /: favorites_of (category_of f))
                  (<[d1 := File c1]> fs1)) as H.
    by rewrite Hmk2 in H. }
  assert (fs1 ⊆ fs2) as Hsub12
    by (etrans; [by apply insert_subseteq | done]).
  assert (fs2 !! d1 = Some (File c1)) as Hd1
    by (eapply lookup_weaken; [apply lookup_insert_eq | done]).
  assert (fs2 !! f = Some (File c1)) as Hf2
    by (eapply lookup_weaken; [by apply stat_File | done]).
  assert (c2 = c1) as ->.
  { apply stat_File in Hsrc2. congruence. }
  assert (d1 <> d2) as Hne by congruence.
  assert (f <> d2) as Hnf by congruence.
  exists c1, fs1, d1, fs2, d2, (<[d2 := File c1]> fs2).
  split; [done|]. split.
  { apply (mkdir_walk_files os_fault [] (output_path /: category_of f)).
    rewrite Hmk1. simpl. by apply stat_File. }
  do 7 (split; [done|]). split; [done|].
  split; [by rewrite lookup_insert_ne|].
  split; [by rewrite lookup_insert_eq|].
  by rewrite lookup_insert_ne.
Qed.

(** C5.  For a scanned file [f] whose name begins with [+++]:

    - whatever happens, the [try] body comes back with every node that
      existed before still in place and unchanged, the source among them;
      and once the copy into the category folder has returned, what the
      file system held then, that copy included, is still there at the
      end;

    - when the body returns, two copies have been made.  The first is in
      the folder of the file's category, at the path resolved for
      [output/category/name] in the file system as it was then; the second
      is in the [_FAVORITES] folder of that category, at the path resolved
      for [output/category/_FAVORITES/name] in the file system as it was
      after the first copy.  The two paths differ, both hold the content
      of the source at the end, and the source is in its place with that
      content. *)
Theorem favorite_copied_twice
  (os_fault : FS -> syscall -> option fault)
  (all_files : list Path) (i : nat) (f : Path) (output_path : Path)
  (fs : FS) :
  all_files !! i = Some f ->
  is_favorite (PathLib.name f) = true ->
  (exists fs' o,
     try_copy os_fault (classification_map (classify_all all_files))
       output_path f fs = Some (fs', o)
     /\ (forall p n, fs !! p = Some n -> fs' !! p = Some n)
     /\ (forall fsa d1,
           copy_file_with_versioning os_fault f (category_of f)
             output_path fs = Some (fsa, Returned d1) ->
           forall p n, fsa !! p = Some n -> fs' !! p = Some n))
  /\ (returns (try_copy os_fault
                 (classification_map (classify_all all_files))
                 output_path f fs) = true ->
      exists content fs1 d1 fs2 d2 fs',
        try_copy os_fault (classification_map (classify_all all_files))
          output_path f fs = Some (fs', Returned tt)
        /\ fs !! f = Some (File content)
        /\ mkdir_walk os_fault [] (output_path /: category_of f) fs
           = (fs1, Returned tt)
        /\ get_next_version_filename fs1
             (output_path /: category_of f /: PathLib.name f) = Some d1
        /\ fs1 !! d1 = None
        /\ mkdir_walk os_fault []
             (output_path /: favorites_of (category_of f))
             (<[d1 := File content]> fs1)
           = (fs2, Returned tt)
        /\ get_next_version_filename fs2
             (output_path /: favorites_of (category_of f) /: PathLib.name f)
           = Some d2
        /\ fs2 !! d2 = None
        /\ fs' = <[d2 := File content]> fs2
        /\ d1 <> d2
        /\ fs' !! d1 = Some (File content)
        /\ fs' !! d2 = Some (File content)
        /\ fs' !! f = Some (File content)).
Proof.
  intros Hi Hfav.
  assert (f ∈ all_files) as Hin by (by eapply list_elem_of_lookup_2).
  split; [|by apply favorite_two_copies].
  destruct (try_copy_keeps os_fault
              (classification_map (classify_all all_files)) output_path f fs)
    as (fs' & o & Htry & Hsub).
  exists fs', o. split; [done|].
  split; [intros p n Hp; by eapply lookup_weaken|].
  intros fsa d1 Hfirst p n Hp.
  unfold try_copy in Htry.
  rewrite (classification_map_lookup all_files f Hin) in Htry.
  fold (category_of f) in Htry. unfold bind in Htry.
  rewrite Hfirst, Hfav in Htry.
  destruct (copy_file_with_versioning_keeps os_fault f
              (category_of f ++ "/" ++ FAVORITES_SUBFOLDER)%string
              output_path fsa) as (fsb & r & Hsecond & Hsub2).
  rewrite Hsecond in Htry.
  assert (fs' = fsb) as -> by (destruct r; by injection Htry).
  by eapply lookup_weaken.
Qed.

Lemma favorite_copied_twice_witness :
  scenario_files !! 2 = Some ["in"; "+++Pop Anthem.wav"]
  /\ is_favorite (PathLib.name ["in"; "+++Pop Anthem.wav"]) = true
  /\ returns (try_copy no_fault
                (classification_map (classify_all scenario_files))
                ["in"; "SORTED_MUSIC"] ["in"; "+++Pop Anthem.wav"]
                (scenario_fs "a" "b" "c")) = true
  /\ exists content d1 d2 fs',
       try_copy no_fault (classification_map (classify_all scenario_files))
         ["in"; "SORTED_MUSIC"] ["in"; "+++Pop Anthem.wav"]
         (scenario_fs "a" "b" "c") = Some (fs', Returned tt)
       /\ d1 <> d2
       /\ fs' !! d1 = Some (File content)
       /\ fs' !! d2 = Some (File content)
       /\ fs' !! ["in"; "+++Pop Anthem.wav"] = Some (File content).
Proof.
  assert (scenario_files !! 2 = Some ["in"; "+++Pop Anthem.wav"]) as H1
    by reflexivity.
  assert (is_favorite (PathLib.name ["in"; "+++Pop Anthem.wav"]) = true)
    as H2 by reflexivity.
  assert (returns (try_copy no_fault
                     (classification_map (classify_all scenario_files))
                     ["in"; "SORTED_MUSIC"] ["in"; "+++Pop Anthem.wav"]
                     (scenario_fs "a" "b" "c")) = true) as H3
    by (vm_compute; reflexivity).
  split; [exact H1|]. split; [exact H2|]. split; [exact H3|].
  destruct (proj2 (favorite_copied_twice no_fault scenario_files 2
                     ["in"; "+++Pop Anthem.wav"] ["in"; "SORTED_MUSIC"]
                     (scenario_fs "a" "b" "c") H1 H2) H3)
    as (content & fs1 & d1 & fs2 & d2 & fs' & Htry & _ & _ & _ & _ & _ & _
        & _ & _ & Hne & Hd1 & Hd2 & Hf).
  exists content, d1, d2, fs'. repeat split; assumption.
Defined.

(* ====================================================================== *)
(** * End-to-end scenario 1 *)
(* ====================================================================== *)

(** C3, as stated, fails: the lower-cased name ["melodic dream.wav"] is
    not classified to the folder of the rule [atmospheric_melodic], and the
    run puts nothing into that folder, which it does not even create. *)
Lemma scenario_one_melodic_dream_not_melodic :
  ~ ((classify_file (str_lower "Melodic Dream.wav")).1
       = "02_Atmospheric_Electronic/Melodic"
     /\ (classify_file (str_lower "Techno Night.wav")).1
        = "01_Electronic_Dance/Techno"
     /\ (classify_file (str_lower "+++Pop Anthem.wav")).1
        = "04_Pop_Mainstream/Pop")
  /\ match sort_music no_fault ["in"] None scenario_files
             (scenario_fs "a" "b" "c") with
     | Some (fs', _) =>
         fs' !! ["in"; "SORTED_MUSIC"; "02_Atmospheric_Electronic";
                 "Melodic"; "Melodic Dream.wav"] = None
         /\ fs' !! ["in"; "SORTED_MUSIC"; "02_Atmospheric_Electronic";
                    "Melodic"] = None
     | None => False
     end.
Proof.
  split.
  - intros [H _]. vm_compute in H. discriminate.
  - vm_compute. split; reflexivity.
Qed.

(** C3, amended.  With the folder holding the three files (of any
    content) and nothing refused: ["Melodic Dream.wav"] is classified to
    the folder of the rule [atmospheric_ethereal], whose keyword
    [\bdream\b] matches and which is declared before [atmospheric_melodic]
    at the same priority; ["Techno Night.wav"] to the techno folder;
    ["+++Pop Anthem.wav"] to the pop folder.  The run copies each file to
    its folder under [SORTED_MUSIC], copies the favorite a second time to
    the [_FAVORITES] folder of the pop folder, and makes no other file. *)
Theorem scenario_one_placement (a b c : string) :
  classify_file (str_lower "Melodic Dream.wav")
  = ("02_Atmospheric_Electronic/Ethereal", 4)
  /\ Re.search "\bdream\b" (str_lower "Melodic Dream.wav") = true
  /\ classify_file (str_lower "Techno Night.wav")
     = ("01_Electronic_Dance/Techno", 3)
  /\ classify_file (str_lower "+++Pop Anthem.wav")
     = ("04_Pop_Mainstream/Pop", 5)
  /\ is_favorite "+++Pop Anthem.wav" = true
  /\ match sort_music no_fault ["in"] None scenario_files
             (scenario_fs a b c) with
     | Some (fs', Some rep) =>
         fs' !! ["in"; "SORTED_MUSIC"; "02_Atmospheric_Electronic";
                 "Ethereal"; "Melodic Dream.wav"] = Some (File a)
         /\ fs' !! ["in"; "SORTED_MUSIC"; "01_Electronic_Dance"; "Techno";
                    "Techno Night.wav"] = Some (File b)
         /\ fs' !! ["in"; "SORTED_MUSIC"; "04_Pop_Mainstream"; "Pop";
                    "+++Pop Anthem.wav"] = Some (File c)
         /\ fs' !! ["in"; "SORTED_MUSIC"; "04_Pop_Mainstream"; "Pop";
                    "_FAVORITES"; "+++Pop Anthem.wav"] = Some (File c)
         /\ length (files_of fs') = 7
         /\ total_files_processed rep = 3
         /\ favorites_copied rep = 1
         /\ error_count rep = 0
     | _ => False
     end.
Proof.
  do 5 (split; [vm_compute; reflexivity|]).
  vm_compute. repeat split.
Qed.

(* ====================================================================== *)
(** * The matcher on examples *)
(* ====================================================================== *)

Example re_search_examples :
  Re.search "\(vocals?\)" "song (vocal).wav" = true
  /\ Re.search "\(vocals?\)" "song (vocals).wav" = true
  /\ Re.search "\(vocals?\)" "song vocals.wav" = false
  /\ Re.search "\bpop\b" "pop.wav" = true
  /\ Re.search "\bpop\b" "poppy.wav" = false
  /\ Re.search "\bpop\b" "k-pop_mix.wav" = false
  /\ Re.search "\bpop\b" "+++pop anthem.wav" = true
  /\ Re.search "\bext v\d+" "track ext v12.wav" = true
  /\ Re.search "\bext v\d+" "track ext v.wav" = false
  /\ Re.search "\btechno\b" "TECHNO NIGHT.WAV" = true
  /\ Re.search "son of son" "grandson of sons" = true
  /\ Re.search "\bdie\b" "die zeit.wav" = true
  /\ Re.search "\bdie\b" "diet.wav" = false.
Proof. vm_compute. repeat split. Qed.

Example str_lower_examples :
  str_lower "Melodic Dream.WAV" = "melodic dream.wav"
  /\ str_lower "+++Pop_Anthem (v2).wav" = "+++pop_anthem (v2).wav".
Proof. vm_compute. split; reflexivity. Qed.

(* ====================================================================== *)
(** * Collisions on examples *)
(* ====================================================================== *)

(** Two files of the same name from different folders: the second copy
    gets the version 2. *)
Example same_name_twice :
  match sort_music no_fault ["in"] (Some ["out"])
          [ ["in"; "a"; "Track.wav"]; ["in"; "b"; "Track.wav"] ]
          (<[ ["in"; "b"; "Track.wav"] := File "second" ]>
             (<[ ["in"; "a"; "Track.wav"] := File "first" ]>
                (<[ ["in"; "b"] := Dir ]>
                   (<[ ["in"; "a"] := Dir ]> (<[ ["in"] := Dir ]> ∅))))) with
  | Some (fs', Some rep) =>
      fs' !! ["out"; "99_Uncategorized"; "Other"; "Track.wav"]
      = Some (File "first")
      /\ fs' !! ["out"; "99_Uncategorized"; "Other"; "Track v2.wav"]
         = Some (File "second")
      /\ total_files_processed rep = 2
      /\ error_count rep = 0
  | _ => False
  end.
Proof. vm_compute. repeat split. Qed.

(** A second run into the tree the first run made: every file of the first
    run is kept, and the new copies are the versions 2. *)
Example second_run_adds_versions :
  match sort_music no_fault ["in"] None scenario_files
          (scenario_fs "a" "b" "c") with
  | Some (fs1, _) =>
      match sort_music no_fault ["in"] None scenario_files fs1 with
      | Some (fs2, Some rep) =>
          fs2 !! ["in"; "SORTED_MUSIC"; "01_Electronic_Dance"; "Techno";
                  "Techno Night.wav"] = Some (File "b")
          /\ fs2 !! ["in"; "SORTED_MUSIC"; "01_Electronic_Dance"; "Techno";
                     "Techno Night v2.wav"] = Some (File "b")
          /\ fs2 !! ["in"; "SORTED_MUSIC"; "04_Pop_Mainstream"; "Pop";
                     "_FAVORITES"; "+++Pop Anthem v2.wav"] = Some (File "c")
          /\ length (files_of fs1) = 7
          /\ length (files_of fs2) = 11
          /\ total_files_processed rep = 3
      | _ => False
      end
  | None => False
  end.
Proof. vm_compute. repeat split. Qed.

(* ====================================================================== *)
(** * More on the helper functions *)
(* ====================================================================== *)

(** ** [sanitize_filename] *)

Lemma has_invalid_char_no_slash s :
  has_invalid_char s = false -> no_slash s = true.
Proof.
  induction s as [|c s IH]; simpl; [done|].
  intros H. apply orb_false_iff in H as [Hc Hs]. rewrite (IH Hs).
  destruct (Ascii.eqb c "/") eqn:E; [|done].
  apply Ascii.eqb_eq in E. subst c. discriminate.
Qed.

(** X1.  The result of [sanitize_filename] has none of the nine characters
    the function replaces, so in particular no ['/'], and it is as long
    as the input. *)
Theorem sanitize_filename_result_clean (filename : string) :
  has_invalid_char (sanitize_filename filename) = false
  /\ no_slash (sanitize_filename filename) = true
  /\ String.length (sanitize_filename filename) = String.length filename.
Proof.
  assert (has_invalid_char (sanitize_filename filename) = false) as H.
  { induction filename as [|c s IH]; simpl; [done|].
    rewrite IH, orb_false_r.
    destruct (is_invalid_char c) eqn:E; [reflexivity | exact E]. }
  split; [exact H|]. split; [by apply has_invalid_char_no_slash|].
  induction filename as [|c s IH]; simpl; [done|]. f_equal. apply IH.
  clear IH. simpl in H. by apply orb_false_iff in H as [_ ?].
Qed.

(** X2.  [sanitize_filename] leaves a name as it is exactly when the name
    has none of the nine characters, and applying it a second time changes
    nothing. *)
Theorem sanitize_filename_fixed_points (filename : string) :
  (sanitize_filename filename = filename
   <-> has_invalid_char filename = false)
  /\ sanitize_filename (sanitize_filename filename)
     = sanitize_filename filename.
Proof.
  assert (forall s, sanitize_filename s = s <-> has_invalid_char s = false)
    as Hfix.
  { induction s as [|c s IH]; simpl; [done|].
    rewrite orb_false_iff, <- IH. split.
    - intros [= Hc Hs]. split; [|done].
      destruct (is_invalid_char c) eqn:E; [|done].
      subst c. discriminate.
    - intros [Hc Hs]. by rewrite Hc, Hs. }
  split; [apply Hfix|].
  apply Hfix.
  induction filename as [|c s IH]; simpl; [done|].
  rewrite IH, orb_false_r.
  destruct (is_invalid_char c) eqn:E; [reflexivity | exact E].
Qed.

(** ** Letter case and [classify_file] *)












Example classify_file_upper_case :
  classify_file "TECHNO NIGHT (Remix).WAV"
  = classify_file "techno night (remix).wav".
Proof. vm_compute. reflexivity. Qed.

(** ** Successive versions *)




(** ** The extension of a versioned name *)

Lemma str_drop_app_length a b :
  PathLib.str_drop (String.length a) (a ++ b) = b.
Proof.
  induction a as [|x a IH]; [reflexivity|].
  rewrite str_app_cons. simpl. exact IH.
Qed.

Lemma str_take_app_length a b :
  PathLib.str_take (String.length a) (a ++ b) = a.
Proof.
  induction a as [|x a IH]; [reflexivity|].
  rewrite str_app_cons. simpl. by rewrite IH.
Qed.

Lemma rfind_dot_app a b :
  PathLib.rfind_dot (a ++ b)
  = match PathLib.rfind_dot b with
    | Some j => Some (String.length a + j)
    | None => PathLib.rfind_dot a
    end.
Proof.
  induction a as [|x a IH].
  - rewrite str_app_nil_l. destruct (PathLib.rfind_dot b); reflexivity.
  - rewrite str_app_cons. simpl. rewrite IH.
    destruct (PathLib.rfind_dot b); reflexivity.
Qed.

Lemma rfind_dot_drop s i :
  PathLib.rfind_dot s = Some i ->
  PathLib.rfind_dot (PathLib.str_drop i s) = Some 0
  /\ i + String.length (PathLib.str_drop i s) = String.length s.
Proof.
  revert i. induction s as [|c s IH]; intros i; simpl; [done|].
  destruct (PathLib.rfind_dot s) as [j|] eqn:E.
  - intros [= <-]. simpl. destruct (IH j eq_refl) as [H1 H2].
    split; [done | lia].
  - destruct (Ascii.eqb c ".") eqn:Ec; [|done].
    intros [= <-]. simpl. rewrite E, Ec. split; [done | lia].
Qed.

(** A suffix that is not empty begins at the last dot of the name and has
    at least one character after it. *)
Lemma suffix_of_shape name :
  PathLib.suffix_of name <> "" ->
  PathLib.rfind_dot (PathLib.suffix_of name) = Some 0
  /\ 2 <= String.length (PathLib.suffix_of name).
Proof.
  unfold PathLib.suffix_of, PathLib.suffix_index.
  destruct (PathLib.rfind_dot name) as [i|] eqn:E; [|done].
  destruct (Nat.ltb_spec 0 i); simpl; [|done].
  destruct (Nat.ltb_spec i (String.length name - 1)); [|done].
  intros _. destruct (rfind_dot_drop name i E) as [H1 H2].
  split; [done | lia].
Qed.

Lemma versioned_name_stem_suffix stem suffix k :
  PathLib.rfind_dot suffix = Some 0 -> 2 <= String.length suffix ->
  PathLib.suffix_of (versioned_name stem suffix k) = suffix
  /\ PathLib.stem_of (versioned_name stem suffix k)
     = (stem ++ " v" ++ show_nat k)%string.
Proof.
  intros Hdot Hlen.
  assert (versioned_name stem suffix k
          = ((stem ++ " v" ++ show_nat k) ++ suffix)%string) as ->
    by (unfold versioned_name; by rewrite !str_app_assoc).
  set (a := (stem ++ " v" ++ show_nat k)%string).
  assert (2 <= String.length a) as Ha
    by (unfold a; rewrite !str_length_app; simpl; lia).
  unfold PathLib.suffix_of, PathLib.stem_of, PathLib.suffix_index.
  rewrite rfind_dot_app, Hdot, Nat.add_0_r, str_length_app.
  destruct (Nat.ltb_spec 0 (String.length a)); [|lia]. simpl.
  destruct (Nat.ltb_spec (String.length a)
              (String.length a + String.length suffix - 1)); [|lia].
  by rewrite str_drop_app_length, str_take_app_length.
Qed.

Lemma parent_snoc p s : no_slash s = true -> PathLib.parent (p ++ [s]) = p.
Proof.
  intros H. unfold PathLib.parent.
  assert (PathLib.is_anchor (p ++ [s]) = false) as ->.
  { destruct p as [|a [|b p]]; simpl; [|done..].
    apply String.eqb_neq. by intros ->. }
  apply removelast_last.
Qed.

(** X5.  For a desired path whose name is a path component, every
    candidate of [get_next_version_filename] is in the folder of the
    desired path and has the name [stem ++ " v" ++ str(counter) ++ suffix].
    When the name has an extension, the candidate has the same extension
    and the stem [stem ++ " v" ++ str(counter)]: a versioned [.wav] file
    is a [.wav] file. *)
Theorem versioned_sibling_keeps_extension (dest_path : Path) (counter : nat) :
  no_slash (PathLib.name dest_path) = true ->
  PathLib.parent (candidate dest_path counter) = PathLib.parent dest_path
  /\ PathLib.name (candidate dest_path counter)
     = versioned_name (PathLib.stem dest_path) (PathLib.suffix dest_path)
         counter
  /\ (PathLib.suffix dest_path <> "" ->
      PathLib.suffix (candidate dest_path counter) = PathLib.suffix dest_path
      /\ PathLib.stem (candidate dest_path counter)
         = (PathLib.stem dest_path ++ " v" ++ show_nat counter)%string).
Proof.
  intros Hns.
  destruct (no_slash_stem_suffix _ Hns) as [Hstem Hsuffix].
  pose proof (valid_component_versioned _ _ counter Hstem Hsuffix) as Hvn.
  pose proof Hvn as Hvn'. apply valid_component_spec in Hvn' as (Hvns & _).
  unfold candidate. fold (PathLib.stem dest_path) in *.
  fold (PathLib.suffix dest_path) in *.
  rewrite joinpath_component by done.
  split; [by apply parent_snoc|]. split; [by apply name_snoc|].
  intros Hext.
  destruct (suffix_of_shape _ Hext) as [Hdot Hlen].
  destruct (versioned_name_stem_suffix (PathLib.stem dest_path)
              (PathLib.suffix dest_path) counter Hdot Hlen) as [H1 H2].
  split.
  - transitivity
      (PathLib.suffix_of
         (versioned_name (PathLib.stem dest_path) (PathLib.suffix dest_path)
            counter)); [|exact H1].
    unfold PathLib.suffix at 1. by rewrite name_snoc.
  - transitivity
      (PathLib.stem_of
         (versioned_name (PathLib.stem dest_path) (PathLib.suffix dest_path)
            counter)); [|exact H2].
    unfold PathLib.stem at 1. by rewrite name_snoc.
Qed.

Lemma versioned_sibling_keeps_extension_witness :
  no_slash (PathLib.name ["out"; "Pop"; "My.Track.wav"]) = true
  /\ PathLib.parent (candidate ["out"; "Pop"; "My.Track.wav"] 12)
     = PathLib.parent ["out"; "Pop"; "My.Track.wav"]
  /\ PathLib.name (candidate ["out"; "Pop"; "My.Track.wav"] 12)
     = versioned_name (PathLib.stem ["out"; "Pop"; "My.Track.wav"])
         (PathLib.suffix ["out"; "Pop"; "My.Track.wav"]) 12
  /\ (PathLib.suffix ["out"; "Pop"; "My.Track.wav"] <> "" ->
      PathLib.suffix (candidate ["out"; "Pop"; "My.Track.wav"] 12)
      = PathLib.suffix ["out"; "Pop"; "My.Track.wav"]
      /\ PathLib.stem (candidate ["out"; "Pop"; "My.Track.wav"] 12)
         = (PathLib.stem ["out"; "Pop"; "My.Track.wav"]
            ++ " v" ++ show_nat 12)%string).
Proof.
  split; [reflexivity|].
  apply (versioned_sibling_keeps_extension ["out"; "Pop"; "My.Track.wav"] 12).
  reflexivity.
Defined.

(** A name that ends with a dot has no extension, and its versions get
    one: the text after that dot. *)
Example version_of_name_ending_with_dot :
  PathLib.suffix ["out"; "Track."] = ""
  /\ candidate ["out"; "Track."] 2 = ["out"; "Track. v2"]
  /\ PathLib.suffix (candidate ["out"; "Track."] 2) = ". v2".
Proof. vm_compute. repeat split. Qed.

(** The version of a versioned name is nested, not counted up. *)
Example version_of_versioned_name :
  candidate ["out"; "Track v2.wav"] 2 = ["out"; "Track v2 v2.wav"].
Proof. vm_compute. reflexivity. Qed.

(* ====================================================================== *)
(** * What a copy changes *)
(* ====================================================================== *)

Lemma stat_Dir_mono (fs fs' : FS) q :
  fs ⊆ fs' -> stat fs q = Some Dir -> stat fs' q = Some Dir.
Proof.
  intros Hsub. unfold stat. destruct q as [|a q]; [done|].
  destruct (PathLib.is_anchor (a :: q)); [done|].
  intros H. by eapply lookup_weaken.
Qed.

Lemma stat_insert_Dir (fs : FS) q : q <> [] -> stat (<[q := Dir]> fs) q = Some Dir.
Proof.
  intros Hq. unfold stat. destruct q as [|a q]; [done|].
  destruct (PathLib.is_anchor (a :: q)); [done|]. apply lookup_insert_eq.
Qed.

Section CopyFacts.
Variable os_fault : FS -> syscall -> option fault.

(** After a [mkdir] that returned, every component on the way is a
    directory. *)
Lemma mkdir_walk_dirs todo above fs fs' :
  mkdir_walk os_fault above todo fs = (fs', Returned tt) ->
  forall i, 0 < i <= length todo -> stat fs' (above ++ take i todo) = Some Dir.
Proof.
  revert above fs. induction todo as [|c todo IH]; intros above fs Hrun i Hi;
    simpl in *; [lia|].
  assert (forall fs0,
            fs0 ⊆ fs' -> stat fs0 (above ++ [c]) = Some Dir ->
            mkdir_walk os_fault (above ++ [c]) todo fs0 = (fs', Returned tt) ->
            stat fs' (above ++ take i (c :: todo)) = Some Dir) as Hstep.
  { intros fs0 Hsub Hq Hrec. destruct i as [|[|i]]; [lia| |].
    - simpl. rewrite take_0. by eapply stat_Dir_mono.
    - simpl. rewrite cons_middle, app_assoc.
      apply (IH _ _ Hrec). simpl in Hi. lia. }
  destruct (stat fs (above ++ [c])) as [[content|]|] eqn:E; [done| |].
  - apply (Hstep fs); [|done..].
    pose proof (mkdir_walk_subseteq os_fault (above ++ [c]) todo fs) as Hs.
    by rewrite Hrun in Hs.
  - destruct (os_fault fs (SysMkdir (above ++ [c]))); [done|].
    apply (Hstep (<[above ++ [c] := Dir]> fs)); [| |done].
    + pose proof (mkdir_walk_subseteq os_fault (above ++ [c]) todo
                    (<[above ++ [c] := Dir]> fs)) as Hs.
      by rewrite Hrun in Hs.
    + apply stat_insert_Dir. by destruct above.
Qed.

(** What [mkdir] adds are directories on the way. *)
Lemma mkdir_walk_new todo above fs q n :
  (mkdir_walk os_fault above todo fs).1 !! q = Some n ->
  fs !! q = Some n
  \/ n = Dir /\ exists i, 0 < i <= length todo /\ q = above ++ take i todo.
Proof.
  revert above fs. induction todo as [|c todo IH]; intros above fs; simpl;
    [by left|].
  assert (forall fs0,
            (mkdir_walk os_fault (above ++ [c]) todo fs0).1 !! q = Some n ->
            fs0 !! q = Some n
            \/ n = Dir
               /\ exists i, 0 < i <= S (length todo)
                            /\ q = above ++ take i (c :: todo)) as Hstep.
  { intros fs0 H. apply IH in H as [H|[-> (i & Hi & ->)]]; [by left|].
    right. split; [done|]. exists (S i). split; [lia|].
    simpl. by rewrite <- app_assoc. }
  destruct (stat fs (above ++ [c])) as [[content|]|] eqn:E; simpl;
    [by left|by apply Hstep|].
  destruct (os_fault fs (SysMkdir (above ++ [c]))); simpl; [by left|].
  intros H. apply Hstep in H as [H|H]; [|by right].
  destruct (decide (above ++ [c] = q)) as [<-|Hne].
  - rewrite lookup_insert_eq in H. injection H as <-. right.
    split; [done|]. exists 1. split; [lia|]. simpl. by rewrite take_0.
  - rewrite lookup_insert_ne in H by done. by left.
Qed.

Lemma mkdir_walk_added p fs q n :
  (mkdir_walk os_fault [] p fs).1 !! q = Some n ->
  fs !! q = Some n \/ n = Dir /\ q `prefix_of` p.
Proof.
  intros H. apply mkdir_walk_new in H as [H|[-> (i & _ & ->)]]; [by left|].
  right. split; [done|]. simpl. apply prefix_take.
Qed.

Lemma mkdir_walk_prefix_dirs p fs fs' :
  mkdir_walk os_fault [] p fs = (fs', Returned tt) ->
  forall q, q `prefix_of` p -> is_dir fs' q = true.
Proof.
  intros Hrun q [k ->]. unfold is_dir.
  destruct (decide (q = [])) as [->|Hq]; [done|].
  pose proof (mkdir_walk_dirs _ _ _ _ Hrun (length q)) as H.
  rewrite take_app_length in H. change ([] ++ q) with q in H.
  rewrite H; [done|].
  rewrite length_app. destruct q; [done|]. simpl. lia.
Qed.

End CopyFacts.

(** The path [get_next_version_filename] returns for a name in a folder is
    in that folder, under the name or one of its versions. *)
Lemma dest_in_folder folder name fs final_dest :
  valid_component name = true ->
  get_next_version_filename fs (folder /: name) = Some final_dest ->
  exists name',
    final_dest = folder ++ [name']
    /\ valid_component name' = true
    /\ (name' = name
        \/ exists counter,
             2 <= counter
             /\ name' = versioned_name (PathLib.stem_of name)
                          (PathLib.suffix_of name) counter).
Proof.
  intros Hvalid Hres. pose proof Hvalid as Hv.
  apply valid_component_spec in Hv as (Hns & _ & _).
  rewrite joinpath_component in Hres by done.
  destruct (get_next_version_filename_first_free fs (folder ++ [name]))
    as (d & Hd & _ & Hcases).
  rewrite Hres in Hd. injection Hd as <-.
  destruct Hcases as [[_ ->]|[_ (k & Hk & -> & _)]].
  - exists name. split; [done|]. split; [done|]. by left.
  - destruct (no_slash_stem_suffix _ Hns) as [Hstem Hsuffix].
    pose proof (valid_component_versioned _ _ k Hstem Hsuffix) as Hvn.
    exists (versioned_name (PathLib.stem_of name) (PathLib.suffix_of name) k).
    split; [|split; [done|right; by exists k]].
    unfold candidate, PathLib.stem, PathLib.suffix.
    rewrite name_snoc, parent_snoc by done.
    by apply joinpath_component.
Qed.

(** X6.  [mkdir(parents=True, exist_ok=True)] keeps every node of the file
    system; whatever it adds is a directory at a prefix of the path, also
    when it raises on the way; and when it returns, the path and all its
    prefixes are directories. *)
Theorem mkdir_makes_the_folder
  (os_fault : FS -> syscall -> option fault) (p : Path) (fs : FS) :
  (forall q n,
     fs !! q = Some n -> (mkdir_walk os_fault [] p fs).1 !! q = Some n)
  /\ (forall q n,
        (mkdir_walk os_fault [] p fs).1 !! q = Some n ->
        fs !! q = Some n \/ n = Dir /\ q `prefix_of` p)
  /\ ((mkdir_walk os_fault [] p fs).2 = Returned tt ->
      forall q, q `prefix_of` p ->
                is_dir (mkdir_walk os_fault [] p fs).1 q = true).
Proof.
  split; [|split].
  - intros q n H. eapply lookup_weaken; [exact H|].
    apply mkdir_walk_subseteq.
  - apply mkdir_walk_added.
  - intros Hret.
    destruct (mkdir_walk os_fault [] p fs) as [fs' r] eqn:Hrun.
    cbn [fst snd] in *. subst r. by eapply mkdir_walk_prefix_dirs.
Qed.

(** A folder name that is a file, at the end of the path or inside it. *)
Example mkdir_over_a_file :
  (mkdir_walk no_fault [] ["out"; "Pop"]
     (<[ ["out"; "Pop"] := File "" ]> (<[ ["out"] := Dir ]> ∅))).2
  = Raised "[Errno 17] File exists"
  /\ (mkdir_walk no_fault [] ["out"; "Pop"] (<[ ["out"] := File "" ]> ∅)).2
     = Raised "[Errno 20] Not a directory".
Proof. split; reflexivity. Qed.

(** X7.  When [copy_file_with_versioning] returns a path: the source is a
    regular file; the path did not exist before the call, and now holds
    the content of the source; the destination folder and the folders
    above it are directories; every node that was there is there
    unchanged, the source among them; and whatever else is new is a
    directory on the way to the destination folder.  For a source whose
    name is a path component, the returned path is in the destination
    folder. *)
Theorem copy_file_with_versioning_result
  (os_fault : FS -> syscall -> option fault)
  (source_path : Path) (dest_folder : string) (base_path : Path) (fs : FS) :
  returns (copy_file_with_versioning os_fault source_path dest_folder
             base_path fs) = true ->
  exists fs' final_dest content,
    copy_file_with_versioning os_fault source_path dest_folder base_path fs
    = Some (fs', Returned final_dest)
    /\ stat fs source_path = Some (File content)
    /\ path_exists fs final_dest = false
    /\ fs' !! final_dest = Some (File content)
    /\ stat fs' source_path = Some (File content)
    /\ (forall q, q `prefix_of` (base_path /: dest_folder) ->
                  is_dir fs' q = true)
    /\ (forall q n, fs !! q = Some n -> fs' !! q = Some n)
    /\ (forall q n,
          fs' !! q = Some n -> q <> final_dest ->
          fs !! q = Some n
          \/ n = Dir /\ q `prefix_of` (base_path /: dest_folder))
    /\ (valid_component (PathLib.name source_path) = true ->
        PathLib.parent final_dest = base_path /: dest_folder).
Proof.
  intros Hret.
  destruct (copy_file_with_versioning os_fault source_path dest_folder
              base_path fs) as [[fs' [final_dest|msg]]|] eqn:Hrun;
    [|done..].
  clear Hret.
  apply copy_file_with_versioning_returned in Hrun
    as (fs1 & content & Hmk & Hres & Hfresh & Hsrc & ->).
  pose proof (mkdir_walk_subseteq os_fault [] (base_path /: dest_folder) fs)
    as Hsub.
  rewrite Hmk in Hsub. simpl in Hsub.
  pose proof (path_exists_false _ _ Hfresh) as Hnone.
  assert (fs1 ⊆ <[final_dest := File content]> fs1) as Hsub'
    by (by apply insert_subseteq).
  assert (stat fs source_path = Some (File content)) as Hsrc0.
  { pose proof (stat_File _ _ _ Hsrc) as Hl.
    pose proof (mkdir_walk_files os_fault [] (base_path /: dest_folder) fs
                  source_path content) as Hf.
    rewrite Hmk in Hf. specialize (Hf Hl).
    unfold stat in *. destruct source_path as [|a l]; [done|].
    by destruct (PathLib.is_anchor (a :: l)). }
  exists (<[final_dest := File content]> fs1), final_dest, content.
  split; [done|]. split; [done|].
  split.
  { unfold path_exists in *.
    destruct (stat fs final_dest) as [n|] eqn:E; [|done].
    assert (exists n', stat fs1 final_dest = Some n') as [n' Hn'].
    { unfold stat in *. destruct final_dest as [|a l]; [by eauto|].
      destruct (PathLib.is_anchor (a :: l)); [by eauto|].
      exists n. by eapply lookup_weaken. }
    by rewrite Hn' in Hfresh. }
  split; [by apply lookup_insert_eq|].
  split; [by eapply stat_File_mono; [exact Hsub'|]|].
  split.
  { intros q Hq.
    pose proof (mkdir_walk_prefix_dirs os_fault _ _ _ Hmk q Hq) as Hd.
    unfold is_dir in *.
    destruct (stat fs1 q) as [[c|]|] eqn:E; try done.
    by rewrite (stat_Dir_mono _ _ _ Hsub' E). }
  split.
  { intros q n Hq. eapply lookup_weaken; [|exact Hsub'].
    by eapply lookup_weaken. }
  split.
  { intros q n Hq Hne. rewrite lookup_insert_ne in Hq by done.
    pose proof (mkdir_walk_added os_fault (base_path /: dest_folder) fs q n)
      as Ha.
    rewrite Hmk in Ha. by apply Ha. }
  intros Hvalid.
  destruct (dest_in_folder _ _ _ _ Hvalid Hres) as (n' & -> & Hv' & _).
  apply parent_snoc. by apply valid_component_spec in Hv' as (? & _).
Qed.

Lemma copy_file_with_versioning_result_witness :
  returns (copy_file_with_versioning no_fault ["in"; "Night Drive.wav"]
             "04_Pop_Mainstream/Pop" ["out"]
             (<[ ["in"; "Night Drive.wav"] := File "RIFF" ]>
                (<[ ["in"] := Dir ]> ∅))) = true
  /\ exists fs' final_dest content,
       copy_file_with_versioning no_fault ["in"; "Night Drive.wav"]
         "04_Pop_Mainstream/Pop" ["out"]
         (<[ ["in"; "Night Drive.wav"] := File "RIFF" ]>
            (<[ ["in"] := Dir ]> ∅))
       = Some (fs', Returned final_dest)
       /\ stat (<[ ["in"; "Night Drive.wav"] := File "RIFF" ]>
                  (<[ ["in"] := Dir ]> ∅)) ["in"; "Night Drive.wav"]
          = Some (File content)
       /\ path_exists (<[ ["in"; "Night Drive.wav"] := File "RIFF" ]>
                         (<[ ["in"] := Dir ]> ∅)) final_dest = false
       /\ fs' !! final_dest = Some (File content)
       /\ stat fs' ["in"; "Night Drive.wav"] = Some (File content)
       /\ (forall q, q `prefix_of` (["out"] /: "04_Pop_Mainstream/Pop") ->
                     is_dir fs' q = true)
       /\ (forall q n,
             (<[ ["in"; "Night Drive.wav"] := File "RIFF" ]>
                (<[ ["in"] := Dir ]> ∅) : FS) !! q = Some n ->
             fs' !! q = Some n)
       /\ (forall q n,
             fs' !! q = Some n -> q <> final_dest ->
             (<[ ["in"; "Night Drive.wav"] := File "RIFF" ]>
                (<[ ["in"] := Dir ]> ∅) : FS) !! q = Some n
             \/ n = Dir /\ q `prefix_of` (["out"] /: "04_Pop_Mainstream/Pop"))
       /\ (valid_component (PathLib.name ["in"; "Night Drive.wav"]) = true ->
           PathLib.parent final_dest = ["out"] /: "04_Pop_Mainstream/Pop").
Proof.
  split; [vm_compute; reflexivity|].
  apply (copy_file_with_versioning_result no_fault ["in"; "Night Drive.wav"]
           "04_Pop_Mainstream/Pop" ["out"]).
  vm_compute; reflexivity.
Defined.

(* ====================================================================== *)
(** * The classification loop and the batches *)
(* ====================================================================== *)

Lemma classify_step_stats acc file_path :
  stats (classify_step acc file_path)
  = <[category_of file_path :=
        default 0 (stats acc !! category_of file_path) + 1]> (stats acc).
Proof.
  unfold classify_step, category_of.
  by destruct (classify_file _) as [folder prio].
Qed.

(** The entry of a [defaultdict(int)] that has been counted up [n] times:
    absent as long as [n] is 0. *)
Lemma stats_fold all_files acc (k : string -> nat) :
  (forall folder,
     stats acc !! folder
     = match k folder with 0 => None | S _ => Some (k folder) end) ->
  forall folder,
    stats (fold_left classify_step all_files acc) !! folder
    = match k folder
            + length (filter (fun f => category_of f = folder) all_files)
      with
      | 0 => None
      | S _ => Some (k folder
                     + length (filter (fun f => category_of f = folder)
                                      all_files))
      end.
Proof.
  revert acc k. induction all_files as [|g l IH]; intros acc k Hacc folder;
    simpl.
  - rewrite Nat.add_0_r. apply Hacc.
  - rewrite (IH _ (fun x => k x + if decide (category_of g = x)
                                  then 1 else 0)).
    + rewrite filter_cons. destruct (decide (category_of g = folder)).
      * simpl. by rewrite <- !Nat.add_assoc.
      * by rewrite !Nat.add_0_r.
    + intros x. rewrite classify_step_stats.
      destruct (decide (category_of g = x)) as [<-|Hne].
      * rewrite lookup_insert_eq, Hacc.
        destruct (k (category_of g)) as [|n]; simpl; [done|].
        by rewrite Nat.add_1_r.
      * rewrite lookup_insert_ne by done. rewrite Nat.add_0_r. apply Hacc.
Qed.

Lemma sum_insert_incr (m : gmap string nat) (x : string) :
  sum_list_with snd (map_to_list (<[x := default 0 (m !! x) + 1]> m))
  = sum_list_with snd (map_to_list m) + 1.
Proof.
  destruct (m !! x) as [v|] eqn:E; simpl.
  - rewrite <- (insert_delete_id m x v E) at 2.
    rewrite <- insert_delete_eq.
    rewrite !map_to_list_insert by apply lookup_delete_eq.
    simpl. lia.
  - rewrite map_to_list_insert by done. simpl. lia.
Qed.

Lemma stats_sum_fold all_files acc :
  sum_list_with snd (map_to_list (stats (fold_left classify_step all_files
                                           acc)))
  = sum_list_with snd (map_to_list (stats acc)) + length all_files.
Proof.
  revert acc. induction all_files as [|g l IH]; intros acc; simpl; [lia|].
  rewrite IH, classify_step_stats, sum_insert_incr. lia.
Qed.

Lemma classification_map_dom all_files acc f :
  f ∉ all_files ->
  classification_map (fold_left classify_step all_files acc) !! f
  = classification_map acc !! f.
Proof.
  revert acc. induction all_files as [|g l IH]; intros acc H; simpl; [done|].
  apply not_elem_of_cons in H as [Hne Hl].
  rewrite IH, classify_step_map by done. by apply lookup_insert_ne.
Qed.

(** X8.  What the classification loop of [sort_music] builds.  The keys of
    [classification_map] are the scanned paths, each with the folder its
    lower-cased name is classified to.  [stats] has an entry for exactly
    the folders that some scanned path is classified to, and the entry is
    the number of those paths, a path that occurs twice counted twice.  The
    entries of [stats] add up to the number of scanned paths. *)
Theorem classification_counts (all_files : list Path) :
  (forall f,
     classification_map (classify_all all_files) !! f
     = if decide (f ∈ all_files) then Some (category_of f) else None)
  /\ (forall folder,
        stats (classify_all all_files) !! folder
        = match length (filter (fun f => category_of f = folder) all_files)
          with
          | 0 => None
          | S n => Some (S n)
          end)
  /\ sum_list_with snd (map_to_list (stats (classify_all all_files)))
     = length all_files.
Proof.
  split; [|split].
  - intros f. destruct (decide (f ∈ all_files)) as [Hin|Hout].
    + by apply classification_map_lookup.
    + unfold classify_all. by rewrite classification_map_dom.
  - intros folder. unfold classify_all.
    rewrite (stats_fold all_files _ (fun _ => 0)) by done. simpl.
    by destruct (length _).
  - unfold classify_all. rewrite stats_sum_fold. simpl.
    by rewrite map_to_list_empty.
Qed.

(** X9.  The batches of the copy loop.  There are [ceil(n / 50)] of them for
    [n] scanned files; batch [k] is the 50 files from position [50 * k] on,
    or what is left of the list; no batch is empty, and every batch but the
    last has 50 files; one after the other they are the scanned list.  So
    the loop over the batches does what one loop over the scanned list
    does, whatever the operating system does. *)
Theorem batches_partition
  (os_fault : FS -> syscall -> option fault) (cmap : gmap Path string)
  (output_path : Path) (all_files : list Path) (st : progress) (fs : FS) :
  length (range_step (length all_files) BATCH_SIZE)
  = (length all_files + 49) / 50
  /\ (forall k i,
        range_step (length all_files) BATCH_SIZE !! k = Some i ->
        i = 50 * k
        /\ slice all_files i (i + BATCH_SIZE) = take 50 (drop (50 * k) all_files)
        /\ 0 < length (slice all_files i (i + BATCH_SIZE)) <= 50
        /\ (S k < length (range_step (length all_files) BATCH_SIZE) ->
            length (slice all_files i (i + BATCH_SIZE)) = 50))
  /\ concat ((fun i => slice all_files i (i + BATCH_SIZE))
               <$> range_step (length all_files) BATCH_SIZE) = all_files
  /\ copy_batches os_fault cmap output_path all_files
       (range_step (length all_files) BATCH_SIZE) st fs
     = copy_batch os_fault cmap output_path all_files st fs.
Proof.
  assert (length (range_step (length all_files) BATCH_SIZE)
          = (length all_files + 49) / 50) as Hlen.
  { unfold range_step. by rewrite length_map, length_seq. }
  split; [done|]. split; [|split; [apply batches_concat
                                  |apply copy_batches_flat]].
  intros k i Hk. rewrite Hlen.
  pose proof (lookup_lt_Some _ _ _ Hk) as Hlt. rewrite Hlen in Hlt.
  unfold range_step in Hk. change (List.map ?f ?x) with (f <$> x) in Hk.
  rewrite list_lookup_fmap in Hk.
  destruct (seq 0 _ !! k) as [j|] eqn:Hj; [|done].
  simpl in Hk. injection Hk as <-. apply lookup_seq in Hj as [-> _].
  change (0 + k) with k.
  pose proof (Nat.div_mod_eq (length all_files + 49) 50) as Hdiv.
  assert ((length all_files + 49) mod 50 < 50) as Hmod
    by (by apply Nat.mod_upper_bound).
  unfold slice, BATCH_SIZE.
  replace (k * 50 + 50 - k * 50) with 50 by lia.
  replace (k * 50) with (50 * k) by lia.
  split; [done|]. split; [done|].
  rewrite length_take, length_drop. lia.
Qed.

(* ====================================================================== *)
(** * Where a run writes *)
(* ====================================================================== *)

(** The folder of a file is the fallback folder or the folder of a rule. *)
Lemma classify_file_folder_in filename :
  (classify_file filename).1 = UNCATEGORIZED_FOLDER
  \/ exists name r,
       (name, r) ∈ GENRE_RULES /\ (classify_file filename).1 = folder r.
Proof.
  unfold classify_file. rewrite classify_rules_unfold.
  destruct (first_sat _ _) as [[n r]|] eqn:E; simpl; [|by left].
  right. apply first_sat_elem in E as [Hin _]. apply sorted_elem in Hin.
  by exists n, r.
Qed.

Lemma GENRE_RULES_two_levels :
  two_levels UNCATEGORIZED_FOLDER = true
  /\ forall name r, (name, r) ∈ GENRE_RULES -> two_levels (folder r) = true.
Proof.
  split; [vm_compute; reflexivity|].
  assert (H : forallb (fun x => two_levels (folder (snd x))) GENRE_RULES
              = true)
    by (vm_compute; reflexivity).
  intros name r Hr. rewrite forallb_forall in H.
  apply list_elem_of_In in Hr. exact (H _ Hr).
Qed.

Lemma category_two_levels file_path : two_levels (category_of file_path) = true.
Proof.
  unfold category_of.
  destruct (classify_file_folder_in (str_lower (PathLib.name file_path)))
    as [->|(name & r & Hr & ->)].
  - apply GENRE_RULES_two_levels.
  - by eapply GENRE_RULES_two_levels.
Qed.

Lemma two_levels_spec folder :
  two_levels folder = true ->
  exists a b,
    valid_component a = true /\ valid_component b = true
    /\ a <> ".." /\ b <> ".."
    /\ forall base,
         base /: folder = base ++ [a; b]
         /\ base /: favorites_of folder = base ++ [a; b; FAVORITES_SUBFOLDER].
Proof.
  unfold two_levels. intros H.
  apply andb_true_iff in H as [Hrel H]. apply negb_true_iff in Hrel.
  destruct (PathLib.parse_parts folder) as [|a [|b [|c l]]] eqn:E;
    try discriminate.
  rewrite !andb_true_iff, !negb_true_iff, !String.eqb_neq in H.
  destruct H as ((((Ha & Hb) & Ha') & Hb') & Hfav).
  apply bool_decide_eq_true in Hfav.
  exists a, b. repeat split; try done.
  - unfold PathLib.joinpath. by rewrite Hrel, E.
  - unfold PathLib.joinpath.
    assert (startswith (favorites_of folder) "/" = false) as ->.
    { unfold favorites_of. destruct folder as [|c s]; [done|].
      by rewrite str_app_cons. }
    by rewrite Hfav.
Qed.

Section RunFacts.
Variable os_fault : FS -> syscall -> option fault.

(** [copy2] to a path that does not exist changes nothing, or writes a
    file there. *)
Lemma copy2_shape src dst fs fs' r :
  path_exists fs dst = false ->
  copy2 os_fault src dst fs = Some (fs', r) ->
  fs' = fs \/ exists content, fs' = <[dst := File content]> fs.
Proof.
  intros Hfresh.
  assert (stat fs dst = None) as Edst
    by (unfold path_exists in Hfresh; by destruct (stat fs dst)).
  unfold copy2, is_dir. rewrite Edst. cbv zeta. rewrite Edst.
  destruct (stat fs src) as [[content|]|];
    [|intros [= <- _]; by left..].
  destruct (decide (src = dst)); [intros [= <- _]; by left|].
  destruct (stat fs (PathLib.parent dst)) as [[c'|]|];
    [intros [= <- _]; by left| |intros [= <- _]; by left].
  destruct (os_fault fs (SysCopy src dst)) as [f|].
  - intros [= <- _]. destruct (fault_leaves f); [right; eauto | by left].
  - intros [= <- _]. right; eauto.
Qed.

Lemma copy_file_with_versioning_nodes
  source_path dest_folder base_path fs fs' r :
  valid_component (PathLib.name source_path) = true ->
  copy_file_with_versioning os_fault source_path dest_folder base_path fs
  = Some (fs', r) ->
  forall q n,
    fs' !! q = Some n ->
    fs !! q = Some n
    \/ n = Dir /\ q `prefix_of` (base_path /: dest_folder)
    \/ exists name' content,
         n = File content
         /\ q = (base_path /: dest_folder) ++ [name']
         /\ is_version_of (PathLib.name source_path) name'.
Proof.
  intros Hvalid Hrun q n Hq.
  destruct (copy_file_with_versioning_steps os_fault source_path dest_folder
              base_path fs) as (fs1 & r1 & Hmk & H).
  assert (forall q n,
            fs1 !! q = Some n ->
            fs !! q = Some n
            \/ n = Dir /\ q `prefix_of` (base_path /: dest_folder))
    as Hadded.
  { intros q0 n0 H0.
    pose proof (mkdir_walk_added os_fault (base_path /: dest_folder) fs
                  q0 n0) as Ha.
    rewrite Hmk in Ha. by apply Ha. }
  destruct r1 as [[]|msg].
  - destruct H as (d & Hres & Hfresh & Heq). rewrite Heq in Hrun.
    destruct (copy2 os_fault source_path d fs1) as [[fs2 r2]|] eqn:Hc;
      [|done].
    assert (fs' = fs2) as -> by (destruct r2; by injection Hrun).
    destruct (copy2_shape _ _ _ _ _ Hfresh Hc) as [->|[content ->]].
    + destruct (Hadded _ _ Hq) as [?|?]; auto.
    + destruct (decide (d = q)) as [<-|Hne].
      * rewrite lookup_insert_eq in Hq. injection Hq as <-. right. right.
        destruct (dest_in_folder _ _ _ _ Hvalid Hres)
          as (n' & -> & _ & Hver).
        by exists n', content.
      * rewrite lookup_insert_ne in Hq by done.
        destruct (Hadded _ _ Hq); auto.
  - rewrite H in Hrun. injection Hrun as <- <-.
    destruct (Hadded _ _ Hq); auto.
Qed.

Lemma try_copy_nodes cmap output_path f fs fs' o :
  valid_component (PathLib.name f) = true ->
  cmap !! f = Some (category_of f) ->
  try_copy os_fault cmap output_path f fs = Some (fs', o) ->
  forall q n,
    fs' !! q = Some n -> fs !! q = Some n \/ made_for output_path f q n.
Proof.
  intros Hvalid Hmap. unfold try_copy. rewrite Hmap. unfold bind.
  destruct (copy_file_with_versioning os_fault f (category_of f)
              output_path fs) as [[fs1 r1]|] eqn:H1; [|done].
  pose proof (copy_file_with_versioning_nodes _ _ _ _ _ _ Hvalid H1) as N1.
  assert (forall q n,
            fs1 !! q = Some n ->
            fs !! q = Some n \/ made_for output_path f q n) as Hstep.
  { intros q n Hq. destruct (N1 q n Hq) as [?|Hn]; [by left|]. right.
    exists (category_of f). split; [apply elem_of_cons; by left|].
    destruct Hn as [?|(n' & c & ? & ? & ?)]; [by left|].
    right. by exists n', c. }
  destruct r1 as [d1|msg]; [|intros [= <- _]; exact Hstep].
  destruct (is_favorite (PathLib.name f)) eqn:Efav;
    [|intros [= <- _]; exact Hstep].
  destruct (copy_file_with_versioning os_fault f
              (category_of f ++ "/" ++ FAVORITES_SUBFOLDER)%string
              output_path fs1) as [[fs2 r2]|] eqn:H2; [|done].
  intros Hrun.
  assert (fs' = fs2) as -> by (destruct r2; by injection Hrun).
  intros q n Hq.
  destruct (copy_file_with_versioning_nodes _ _ _ _ _ _ Hvalid H2 q n Hq)
    as [Hold|Hn]; [by apply Hstep|].
  right. exists (favorites_of (category_of f)).
  split.
  { unfold folders_of. rewrite Efav. apply elem_of_cons. right.
    apply elem_of_cons. by left. }
  destruct Hn as [?|(n' & c & ? & ? & ?)]; [by left|].
  right. by exists n', c.
Qed.

Lemma copy_batch_nodes cmap output_path batch st fs fs' st' :
  Forall (fun f => valid_component (PathLib.name f) = true
                   /\ cmap !! f = Some (category_of f)) batch ->
  copy_batch os_fault cmap output_path batch st fs = Some (fs', st') ->
  forall q n,
    fs' !! q = Some n ->
    fs !! q = Some n
    \/ exists f, f ∈ batch /\ made_for output_path f q n.
Proof.
  intros Hall. revert st fs.
  induction Hall as [|f l [Hvalid Hmap] Hl IH]; intros st fs; simpl.
  - intros [= <- _] q n Hq. by left.
  - unfold copy_one.
    destruct (try_copy os_fault cmap output_path f fs) as [[fs1 o]|] eqn:H1;
      [|done].
    intros Hrest q n Hq.
    destruct (IH _ _ Hrest q n Hq) as [Hq1|(g & Hg & Hmade)].
    + destruct (try_copy_nodes _ _ _ _ _ _ Hvalid Hmap H1 q n Hq1)
        as [?|Hmade]; [by left|].
      right. exists f. split; [apply elem_of_cons; by left | done].
    + right. exists g. split; [apply elem_of_cons; by right | done].
Qed.

End RunFacts.

(** What is made for a file is in the output directory, or is a directory
    above it. *)
Lemma made_for_below output_path file_path q n :
  made_for output_path file_path q n ->
  n = Dir /\ q `prefix_of` output_path \/ output_path `prefix_of` q.
Proof.
  intros (folder & Hin & H).
  assert (exists parts, output_path /: folder = output_path ++ parts)
    as [parts Hparts].
  { destruct (two_levels_spec _ (category_two_levels file_path))
      as (a & b & _ & _ & _ & _ & Hj).
    destruct (Hj output_path) as [H1 H2].
    unfold folders_of in Hin. apply elem_of_cons in Hin as [->|Hin];
      [by eauto|].
    destruct (is_favorite _); [|by apply elem_of_nil in Hin].
    apply elem_of_cons in Hin as [->|Hin]; [by eauto|].
    by apply elem_of_nil in Hin. }
  rewrite Hparts in H.
  destruct H as [[-> Hq]|(n' & c & _ & -> & _)].
  - destruct (prefix_weak_total q output_path (output_path ++ parts) Hq)
      as [?|?]; [by apply prefix_app_r|by left|by right].
  - right. rewrite <- app_assoc. by apply prefix_app_r.
Qed.

(** X10.  A run writes only in its output directory.  For scanned files
    whose names are path components, and whatever the operating system
    does: [sort_music] comes back; every node of the file system is
    still there, unchanged; and every other node of the result was made
    for one of the scanned files -- a directory on the way to its category
    folder (or, for a favorite, its [_FAVORITES] folder), or a file in one
    of these folders under the name of the scanned file or a version of
    it.  Such a node is in the output directory, or is a directory above
    it. *)
Theorem sort_music_writes_below_output
  (os_fault : FS -> syscall -> option fault)
  (source_path : Path) (output_dir : option Path)
  (all_files : list Path) (fs : FS) :
  Forall (fun f => valid_component (PathLib.name f) = true) all_files ->
  exists fs' res,
    sort_music os_fault source_path output_dir all_files fs
    = Some (fs', res)
    /\ (forall q n, fs !! q = Some n -> fs' !! q = Some n)
    /\ (forall q n,
          fs' !! q = Some n ->
          fs !! q = Some n
          \/ (exists f,
                f ∈ all_files
                /\ made_for (output_path_of source_path output_dir) f q n)
             /\ (n = Dir
                 /\ q `prefix_of` output_path_of source_path output_dir
                 \/ output_path_of source_path output_dir `prefix_of` q)).
Proof.
  intros Hvalid. rewrite sort_music_unfold.
  destruct (Nat.eqb (length all_files) 0) eqn:E.
  { exists fs, None. split; [done|]. split; [done|]. intros q n Hq. by left. }
  destruct (copy_batch_keeps os_fault
              (classification_map (classify_all all_files))
              (output_path_of source_path output_dir) all_files progress0 fs)
    as (fs' & st' & Hrun & Hsub & _).
  rewrite Hrun. eexists fs', _. split; [done|].
  split; [intros q n Hq; by eapply lookup_weaken|].
  intros q n Hq.
  assert (Forall (fun f => valid_component (PathLib.name f) = true
                           /\ classification_map (classify_all all_files)
                              !! f = Some (category_of f)) all_files)
    as Hall.
  { apply Forall_forall. intros f Hf. split.
    - by eapply Forall_forall in Hvalid.
    - by apply classification_map_lookup. }
  destruct (copy_batch_nodes _ _ _ _ _ _ _ _ Hall Hrun q n Hq)
    as [?|(f & Hf & Hmade)]; [by left|].
  right. split; [by exists f|]. by eapply made_for_below.
Qed.

Lemma sort_music_writes_below_output_witness :
  Forall (fun f => valid_component (PathLib.name f) = true) scenario_files
  /\ exists fs' res,
       sort_music no_fault ["in"] None scenario_files (scenario_fs "a" "b" "c")
       = Some (fs', res)
       /\ (forall q n,
             scenario_fs "a" "b" "c" !! q = Some n -> fs' !! q = Some n)
       /\ (forall q n,
             fs' !! q = Some n ->
             scenario_fs "a" "b" "c" !! q = Some n
             \/ (exists f,
                   f ∈ scenario_files
                   /\ made_for (output_path_of ["in"] None) f q n)
                /\ (n = Dir /\ q `prefix_of` output_path_of ["in"] None
                    \/ output_path_of ["in"] None `prefix_of` q)).
Proof.
  assert (Forall (fun f => valid_component (PathLib.name f) = true)
                 scenario_files) as H
    by (repeat constructor).
  split; [exact H|].
  exact (sort_music_writes_below_output no_fault ["in"] None scenario_files
           (scenario_fs "a" "b" "c") H).
Defined.

(* ====================================================================== *)
(** * A run without failures *)
(* ====================================================================== *)

Lemma str_mem_app c a b :
  str_mem c (a ++ b)%string = str_mem c a || str_mem c b.
Proof.
  induction a as [|x a IH]; [by rewrite str_app_nil_l|].
  rewrite str_app_cons. simpl. by rewrite IH, orb_assoc.
Qed.

(** No version of a name is the name of the favorites folder. *)
Lemma version_not_favorites name name' :
  name <> FAVORITES_SUBFOLDER ->
  is_version_of name name' -> name' <> FAVORITES_SUBFOLDER.
Proof.
  intros Hne [->|(k & _ & ->)]; [done|]. intros H.
  apply (f_equal (str_mem " ")) in H. unfold versioned_name in H.
  rewrite !str_mem_app in H. simpl in H.
  rewrite orb_true_r in H. discriminate.
Qed.

Lemma folders_of_shape file_path folder output_path :
  folder ∈ folders_of file_path ->
  exists a b,
    output_path /: folder = output_path ++ [a; b]
    \/ output_path /: folder = output_path ++ [a; b; FAVORITES_SUBFOLDER].
Proof.
  intros Hin.
  destruct (two_levels_spec _ (category_two_levels file_path))
    as (a & b & _ & _ & _ & _ & Hj).
  destruct (Hj output_path) as [H1 H2]. exists a, b.
  unfold folders_of in Hin. apply elem_of_cons in Hin as [->|Hin];
    [by left|].
  destruct (is_favorite _); [|by apply elem_of_nil in Hin].
  apply elem_of_cons in Hin as [->|Hin]; [by right|].
  by apply elem_of_nil in Hin.
Qed.

(** A copy is never on the way to a folder of the run. *)
Lemma copy_not_on_the_way output_path f g folder_f folder_g name' :
  name' <> FAVORITES_SUBFOLDER ->
  folder_f ∈ folders_of f -> folder_g ∈ folders_of g ->
  ~ ((output_path /: folder_g) ++ [name']) `prefix_of` (output_path /: folder_f).
Proof.
  intros Hne Hf Hg Hpre.
  destruct (folders_of_shape f folder_f output_path Hf) as (a & b & Hfs).
  destruct (folders_of_shape g folder_g output_path Hg) as (a' & b' & Hgs).
  destruct Hfs as [Hfs|Hfs], Hgs as [Hgs|Hgs]; rewrite Hfs, Hgs in Hpre;
    rewrite <- app_assoc in Hpre; apply prefix_app_inv in Hpre;
    simpl in Hpre.
  - apply prefix_length in Hpre. simpl in Hpre. lia.
  - apply prefix_length in Hpre. simpl in Hpre. lia.
  - destruct Hpre as [k Hk]. simpl in Hk. by injection Hk as _ _ <- _.
  - apply prefix_length in Hpre. simpl in Hpre. lia.
Qed.

Lemma stat_of_lookup (fs : FS) q content :
  stat fs q = Some (File content) ->
  forall fs' : FS, fs' !! q = Some (File content) ->
                   stat fs' q = Some (File content).
Proof.
  unfold stat. destruct q as [|a q]; [done|].
  by destruct (PathLib.is_anchor (a :: q)).
Qed.

Lemma clear_way_spec fs p :
  clear_way fs p = true
  <-> forall q content, q `prefix_of` p -> stat fs q <> Some (File content).
Proof.
  unfold clear_way, is_file. rewrite forallb_forall. split.
  - intros H q content [k ->] Hst.
    specialize (H (length q)). rewrite take_app_length, Hst in H.
    assert (In (length q) (seq 0 (S (length (q ++ k))))) as Hin
      by (apply in_seq; rewrite length_app; lia).
    apply H in Hin. discriminate Hin.
  - intros H i _. specialize (H (take i p)).
    destruct (stat fs (take i p)) as [[content|]|]; [|done..].
    exfalso. apply (H content); [apply prefix_take | done].
Qed.

(** [mkdir] returns when no file is in the way and the operating system
    refuses nothing. *)
Lemma mkdir_walk_clear todo above fs :
  (forall i content,
     0 < i <= length todo ->
     stat fs (above ++ take i todo) <> Some (File content)) ->
  (mkdir_walk no_fault above todo fs).2 = Returned tt.
Proof.
  revert above fs. induction todo as [|c todo IH]; intros above fs Hclear;
    simpl; [done|].
  assert (forall fs0 : FS,
            (forall q content,
               stat fs0 q = Some (File content) ->
               stat fs q = Some (File content)) ->
            (mkdir_walk no_fault (above ++ [c]) todo fs0).2 = Returned tt)
    as Hstep.
  { intros fs0 Hfs0. apply IH. intros i content Hi Hst.
    apply Hfs0 in Hst. apply (Hclear (S i) content); [simpl; lia|].
    simpl. by rewrite <- app_assoc in Hst. }
  destruct (stat fs (above ++ [c])) as [[content|]|] eqn:E.
  - exfalso. apply (Hclear 1 content); [simpl; lia|].
    simpl. by rewrite take_0.
  - by apply Hstep.
  - unfold no_fault at 1. apply Hstep. intros q content Hq.
    pose proof (stat_File _ _ _ Hq) as Hl.
    destruct (decide (above ++ [c] = q)) as [<-|Hne].
    + by rewrite lookup_insert_eq in Hl.
    + rewrite lookup_insert_ne in Hl by done.
      by apply (stat_of_lookup _ _ _ Hq).
Qed.

(** The regular files of a file system after a directory or a file is
    added at a path that does not exist. *)
Lemma files_of_insert_Dir (fs : FS) q :
  fs !! q = None -> files_of (<[q := Dir]> fs) ≡ₚ files_of fs.
Proof.
  intros H. unfold files_of. by rewrite map_to_list_insert.
Qed.

Lemma files_of_insert_File (fs : FS) q content :
  fs !! q = None ->
  files_of (<[q := File content]> fs) ≡ₚ (q, content) :: files_of fs.
Proof.
  intros H. unfold files_of. by rewrite map_to_list_insert.
Qed.

Lemma mkdir_walk_files_of os_fault todo above fs :
  files_of (mkdir_walk os_fault above todo fs).1 ≡ₚ files_of fs.
Proof.
  revert above fs. induction todo as [|c todo IH]; intros above fs; simpl;
    [done|].
  destruct (stat fs (above ++ [c])) as [[content|]|] eqn:E; simpl; [done| |].
  - apply IH.
  - destruct (os_fault fs (SysMkdir (above ++ [c]))); simpl; [done|].
    rewrite IH. apply files_of_insert_Dir. by apply stat_None.
Qed.

(** [copy_file_with_versioning] returns for a regular file whose name is a
    path component, when no file is in the way to the folder and the
    operating system refuses nothing. *)
Lemma copy_file_with_versioning_succeeds
  source_path dest_folder base_path fs content :
  valid_component (PathLib.name source_path) = true ->
  stat fs source_path = Some (File content) ->
  clear_way fs (base_path /: dest_folder) = true ->
  exists fs1 name',
    fs ⊆ fs1
    /\ fs1 !! ((base_path /: dest_folder) ++ [name']) = None
    /\ is_version_of (PathLib.name source_path) name'
    /\ valid_component name' = true
    /\ files_of fs1 ≡ₚ files_of fs
    /\ copy_file_with_versioning no_fault source_path dest_folder base_path fs
       = Some (<[(base_path /: dest_folder) ++ [name'] := File content]> fs1,
               Returned ((base_path /: dest_folder) ++ [name'])).
Proof.
  intros Hvalid Hsrc Hc.
  pose proof (proj1 (clear_way_spec _ _) Hc) as Hclear.
  destruct (copy_file_with_versioning_steps no_fault source_path dest_folder
              base_path fs) as (fs1 & r1 & Hmk & H).
  assert (r1 = Returned tt) as ->.
  { pose proof (mkdir_walk_clear (base_path /: dest_folder) [] fs) as Hret.
    rewrite Hmk in Hret. apply Hret.
    intros i c _. apply Hclear, prefix_take. }
  destruct H as (d & Hres & Hfresh & Heq).
  destruct (dest_in_folder _ _ _ _ Hvalid Hres) as (name' & -> & Hv' & Hver).
  pose proof (mkdir_walk_subseteq no_fault [] (base_path /: dest_folder) fs)
    as Hsub.
  rewrite Hmk in Hsub. simpl in Hsub.
  exists fs1, name'. split; [done|].
  split; [by apply path_exists_false|]. split; [done|]. split; [done|].
  split.
  { pose proof (mkdir_walk_files_of no_fault (base_path /: dest_folder) []
                  fs) as Hf.
    by rewrite Hmk in Hf. }
  rewrite Heq.
  assert (stat fs1 ((base_path /: dest_folder) ++ [name']) = None) as Edst
    by (unfold path_exists in Hfresh; by destruct (stat fs1 _)).
  pose proof (stat_File_mono _ _ _ _ Hsub Hsrc) as Hsrc1.
  unfold copy2, is_dir. rewrite Edst. cbv zeta. rewrite Edst, Hsrc1.
  rewrite decide_False by (intros ->; congruence).
  rewrite parent_snoc by (by apply valid_component_spec in Hv' as (? & _)).
  pose proof (mkdir_walk_prefix_dirs no_fault _ _ _ Hmk
                (base_path /: dest_folder) (reflexivity _)) as Hdir.
  unfold is_dir in Hdir.
  by destruct (stat fs1 (base_path /: dest_folder)) as [[c|]|].
Qed.

(** The ways that are clear stay clear when a file is copied. *)
Lemma clear_way_kept (output_path : Path) (fs fs' : FS) (f g : Path)
  (folder_f : string) :
  PathLib.name g <> FAVORITES_SUBFOLDER ->
  folder_f ∈ folders_of f ->
  (forall (q : Path) (n : node),
     fs' !! q = Some n -> fs !! q = Some n \/ made_for output_path g q n) ->
  clear_way fs (output_path /: folder_f) = true ->
  clear_way fs' (output_path /: folder_f) = true.
Proof.
  intros Hne Hf Hnodes Hc. apply clear_way_spec.
  pose proof (proj1 (clear_way_spec _ _) Hc) as Hclear.
  intros q content Hq Hst.
  pose proof (stat_File _ _ _ Hst) as Hl.
  destruct (Hnodes _ _ Hl)
    as [Hold|(folder_g & Hg & [[? _]|(n' & c & _ & -> & Hver)])].
  - apply (Hclear q content Hq). by apply (stat_of_lookup _ _ _ Hst).
  - done.
  - eapply copy_not_on_the_way; [|exact Hf|exact Hg|exact Hq].
    by eapply version_not_favorites.
Qed.

Lemma lookup_None_weaken (fs fs' : FS) q :
  fs ⊆ fs' -> fs' !! q = None -> fs !! q = None.
Proof.
  intros Hsub H. destruct (fs !! q) as [n|] eqn:E; [|done].
  by rewrite (lookup_weaken _ _ _ _ E Hsub) in H.
Qed.

(** The [try] body returns for a regular file, when the ways to its
    folders are clear and the operating system refuses nothing; a new file
    with its content is then in each of its folders. *)
Lemma try_copy_succeeds cmap output_path f fs content :
  valid_component (PathLib.name f) = true ->
  PathLib.name f <> FAVORITES_SUBFOLDER ->
  cmap !! f = Some (category_of f) ->
  stat fs f = Some (File content) ->
  (forall folder,
     folder ∈ folders_of f -> clear_way fs (output_path /: folder) = true) ->
  exists fs',
    try_copy no_fault cmap output_path f fs = Some (fs', Returned tt)
    /\ fs ⊆ fs'
    /\ length (files_of fs') = length (files_of fs) + length (folders_of f)
    /\ forall folder,
         folder ∈ folders_of f ->
         exists name',
           is_version_of (PathLib.name f) name'
           /\ valid_component name' = true
           /\ fs !! ((output_path /: folder) ++ [name']) = None
           /\ fs' !! ((output_path /: folder) ++ [name'])
              = Some (File content).
Proof.
  intros Hvalid Hne Hmap Hsrc Hclear.
  assert (category_of f ∈ folders_of f) as Hcat
    by (apply elem_of_cons; by left).
  destruct (copy_file_with_versioning_succeeds f (category_of f) output_path
              fs content Hvalid Hsrc (Hclear _ Hcat))
    as (fs1 & name1 & Hsub1 & Hfree1 & Hver1 & Hv1 & Hfiles1 & Hrun1).
  pose proof (copy_file_with_versioning_nodes no_fault _ _ _ _ _ _
                Hvalid Hrun1) as Hnodes1.
  unfold try_copy. rewrite Hmap. unfold bind. rewrite Hrun1.
  set (d1 := (output_path /: category_of f) ++ [name1]) in *.
  set (fsA := <[d1 := File content]> fs1) in *.
  assert (fs1 ⊆ fsA) as Hsub1A by (by apply insert_subseteq).
  assert (fs ⊆ fsA) as HsubA by (by etrans).
  assert (length (files_of fsA) = S (length (files_of fs))) as HlenA.
  { unfold fsA. rewrite files_of_insert_File by done. simpl.
    by rewrite Hfiles1. }
  destruct (is_favorite (PathLib.name f)) eqn:Efav.
  - assert (favorites_of (category_of f) ∈ folders_of f) as Hfav.
    { unfold folders_of. rewrite Efav. apply elem_of_cons. right.
      apply elem_of_cons. by left. }
    assert (clear_way fsA (output_path /: favorites_of (category_of f))
            = true) as HcA.
    { apply (clear_way_kept output_path fs fsA f f); [done..| |by apply Hclear].
      intros q n Hq. destruct (Hnodes1 q n Hq) as [?|Hn]; [by left|].
      right. exists (category_of f). split; [done|].
      destruct Hn as [?|(n' & c & ? & ? & ?)]; [by left|].
      right. by exists n', c. }
    destruct (copy_file_with_versioning_succeeds f
                (favorites_of (category_of f)) output_path fsA content
                Hvalid (stat_File_mono _ _ _ _ HsubA Hsrc) HcA)
      as (fs2 & name2 & Hsub2 & Hfree2 & Hver2 & Hv2 & Hfiles2 & Hrun2).
    change (category_of f ++ "/" ++ FAVORITES_SUBFOLDER)%string
      with (favorites_of (category_of f)).
    rewrite Hrun2.
    set (d2 := (output_path /: favorites_of (category_of f)) ++ [name2])
      in *.
    eexists. split; [reflexivity|].
    assert (fs2 ⊆ <[d2 := File content]> fs2) as Hsub2B
      by (by apply insert_subseteq).
    split; [by do 2 (etrans; [eassumption|])|].
    split.
    { rewrite files_of_insert_File by done. simpl.
      rewrite Hfiles2, HlenA. unfold folders_of. rewrite Efav. simpl. lia. }
    intros folder Hin. unfold folders_of in Hin. rewrite Efav in Hin.
    apply elem_of_cons in Hin as [->|Hin].
    + exists name1. split; [done|]. split; [done|].
      split; [exact (lookup_None_weaken _ _ _ Hsub1 Hfree1)|].
      eapply lookup_weaken; [|exact Hsub2B].
      eapply lookup_weaken; [|exact Hsub2].
      apply lookup_insert_eq.
    + apply elem_of_cons in Hin as [->|Hin]; [|by apply elem_of_nil in Hin].
      exists name2. split; [done|]. split; [done|].
      split; [|apply lookup_insert_eq].
      apply (lookup_None_weaken _ fs2); [by etrans | done].
  - exists fsA. split; [done|]. split; [done|].
    split; [rewrite HlenA; unfold folders_of; rewrite Efav; simpl; lia|].
    intros folder Hin. unfold folders_of in Hin. rewrite Efav in Hin.
    apply elem_of_cons in Hin as [->|Hin]; [|by apply elem_of_nil in Hin].
    exists name1. split; [done|]. split; [done|].
    split; [exact (lookup_None_weaken _ _ _ Hsub1 Hfree1)|].
    apply lookup_insert_eq.
Qed.

Lemma is_file_stat fs p :
  is_file fs p = true <-> exists content, stat fs p = Some (File content).
Proof.
  unfold is_file. destruct (stat fs p) as [[c|]|]; split;
    try done; try (by intros [? ?]). by eauto.
Qed.

(** The copy loop over regular files with clear ways, when the operating
    system refuses nothing: every file is processed, none is an error,
    and each has its copies. *)
Lemma copy_batch_succeeds cmap output_path batch st fs :
  (forall f,
     f ∈ batch ->
     valid_component (PathLib.name f) = true
     /\ PathLib.name f <> FAVORITES_SUBFOLDER
     /\ cmap !! f = Some (category_of f)
     /\ is_file fs f = true
     /\ forall folder,
          folder ∈ folders_of f ->
          clear_way fs (output_path /: folder) = true) ->
  exists fs' st',
    copy_batch no_fault cmap output_path batch st fs = Some (fs', st')
    /\ processed st' = processed st + length batch
    /\ errors st' = errors st
    /\ fs ⊆ fs'
    /\ length (files_of fs')
       = length (files_of fs) + length batch + length (favorite_files batch)
    /\ forall f folder,
         f ∈ batch -> folder ∈ folders_of f ->
         exists name' content,
           stat fs f = Some (File content)
           /\ is_version_of (PathLib.name f) name'
           /\ fs !! ((output_path /: folder) ++ [name']) = None
           /\ fs' !! ((output_path /: folder) ++ [name'])
              = Some (File content).
Proof.
  revert st fs. induction batch as [|g l IH]; intros st fs Hall.
  - exists fs, st. simpl. split; [done|]. split; [lia|]. split; [done|].
    split; [done|]. split; [simpl; lia|].
    intros f folder Hf. by apply elem_of_nil in Hf.
  - destruct (Hall g) as (Hvalid & Hne & Hmap & Hfile & Hclear);
      [apply elem_of_cons; by left|].
    apply is_file_stat in Hfile as [content Hsrc].
    destruct (try_copy_succeeds cmap output_path g fs content
                Hvalid Hne Hmap Hsrc Hclear)
      as (fs1 & Hrun1 & Hsub1 & Hlen1 & Hcopies).
    pose proof (try_copy_nodes no_fault _ _ _ _ _ _ Hvalid Hmap Hrun1)
      as Hnodes.
    destruct (IH (handle g st (Returned tt)) fs1)
      as (fs' & st' & Hrun & Hp & He & Hsub & Hlen & Hrest).
    { intros f Hf.
      destruct (Hall f) as (? & ? & ? & Hfile_f & Hclear_f);
        [apply elem_of_cons; by right|].
      split; [done|]. split; [done|]. split; [done|]. split.
      - apply is_file_stat in Hfile_f as [c Hc]. apply is_file_stat.
        exists c. by eapply stat_File_mono.
      - intros folder Hin.
        eapply clear_way_kept;
          [exact Hne | exact Hin | exact Hnodes | by apply Hclear_f]. }
    exists fs', st'. simpl. unfold copy_one. rewrite Hrun1.
    split; [exact Hrun|]. simpl in Hp, He. split; [lia|]. split; [done|].
    split; [by etrans|].
    split.
    { rewrite Hlen, Hlen1. unfold favorite_files, folders_of.
      rewrite filter_cons.
      destruct (is_favorite (PathLib.name g)) eqn:Efav.
      - rewrite decide_True by done. simpl. lia.
      - rewrite decide_False by (by intros ?). simpl. lia. }
    intros f folder Hf Hin.
    destruct (Hall f Hf) as (_ & _ & _ & Hfile_f & _).
    apply is_file_stat in Hfile_f as [c0 Hc0].
    apply elem_of_cons in Hf as [->|Hf].
    + destruct (Hcopies folder Hin) as (name' & Hver & _ & Hnone & Hsome).
      exists name', content. split; [done|]. split; [done|].
      split; [done|]. by eapply lookup_weaken.
    + destruct (Hrest f folder Hf Hin)
        as (name' & c & Hst & Hver & Hnone & Hsome).
      pose proof (stat_File_mono _ _ _ _ Hsub1 Hc0) as Hc1.
      assert (c = c0) as -> by congruence.
      exists name', c0. split; [done|]. split; [done|].
      split; [exact (lookup_None_weaken _ _ _ Hsub1 Hnone) | done].
Qed.

(** X11.  A run without failures.  When every scanned path is a regular
    file whose name is a path component other than [_FAVORITES], no
    regular file stands on the way to a folder the run has to make, and
    the operating system refuses nothing, [sort_music] processes every
    scanned file and reports no error; each scanned file then has a copy
    with its content in its category folder, and each favorite one more in
    the [_FAVORITES] folder of the category, under the name of the file or
    a version of it, at a path that did not exist before the run.  The
    number of regular files grows by the number of scanned files plus the
    reported number of favorites: no copy of the run replaces another. *)
Theorem sort_music_succeeds
  (source_path : Path) (output_dir : option Path)
  (all_files : list Path) (fs : FS) :
  all_files <> [] ->
  Forall (fun f =>
            valid_component (PathLib.name f) = true
            /\ PathLib.name f <> FAVORITES_SUBFOLDER
            /\ is_file fs f = true
            /\ Forall (fun folder =>
                         clear_way fs
                           (output_path_of source_path output_dir /: folder)
                         = true) (folders_of f)) all_files ->
  exists fs' rep,
    sort_music no_fault source_path output_dir all_files fs
    = Some (fs', Some rep)
    /\ total_files_processed rep = length all_files
    /\ error_count rep = 0
    /\ errors_shown rep = []
    /\ length (files_of fs')
       = length (files_of fs) + length all_files + favorites_copied rep
    /\ forall f folder,
         f ∈ all_files -> folder ∈ folders_of f ->
         exists name' content,
           stat fs f = Some (File content)
           /\ is_version_of (PathLib.name f) name'
           /\ fs !! ((output_path_of source_path output_dir /: folder)
                     ++ [name']) = None
           /\ fs' !! ((output_path_of source_path output_dir /: folder)
                      ++ [name']) = Some (File content).
Proof.
  intros Hnonempty Hall. rewrite sort_music_unfold.
  assert (Nat.eqb (length all_files) 0 = false) as ->
    by (apply Nat.eqb_neq; by destruct all_files).
  destruct (copy_batch_succeeds (classification_map (classify_all all_files))
              (output_path_of source_path output_dir) all_files progress0 fs)
    as (fs' & st' & -> & Hp & He & _ & Hlen & Hcopies).
  { intros f Hf.
    destruct (proj1 (Forall_forall _ _) Hall f Hf) as (? & ? & ? & Hclear).
    split; [done|]. split; [done|].
    split; [by apply classification_map_lookup|]. split; [done|].
    intros folder Hin. exact (proj1 (Forall_forall _ _) Hclear folder Hin). }
  eexists fs', _. split; [reflexivity|]. simpl.
  rewrite He. simpl. repeat split; [by rewrite Hp | | exact Hcopies].
  by rewrite favorites_count_classify_all.
Qed.

Lemma sort_music_succeeds_witness :
  scenario_files <> []
  /\ Forall (fun f =>
               valid_component (PathLib.name f) = true
               /\ PathLib.name f <> FAVORITES_SUBFOLDER
               /\ is_file (scenario_fs "a" "b" "c") f = true
               /\ Forall (fun folder =>
                            clear_way (scenario_fs "a" "b" "c")
                              (output_path_of ["in"] None /: folder) = true)
                         (folders_of f)) scenario_files
  /\ exists fs' rep,
       sort_music no_fault ["in"] None scenario_files (scenario_fs "a" "b" "c")
       = Some (fs', Some rep)
       /\ total_files_processed rep = length scenario_files
       /\ error_count rep = 0
       /\ errors_shown rep = []
       /\ length (files_of fs')
          = length (files_of (scenario_fs "a" "b" "c"))
            + length scenario_files + favorites_copied rep
       /\ forall f folder,
            f ∈ scenario_files -> folder ∈ folders_of f ->
            exists name' content,
              stat (scenario_fs "a" "b" "c") f = Some (File content)
              /\ is_version_of (PathLib.name f) name'
              /\ scenario_fs "a" "b" "c"
                 !! ((output_path_of ["in"] None /: folder) ++ [name'])
                 = None
              /\ fs' !! ((output_path_of ["in"] None /: folder) ++ [name'])
                 = Some (File content).
Proof.
  assert (scenario_files <> []) as H1 by discriminate.
  assert (Forall (fun f =>
               valid_component (PathLib.name f) = true
               /\ PathLib.name f <> FAVORITES_SUBFOLDER
               /\ is_file (scenario_fs "a" "b" "c") f = true
               /\ Forall (fun folder =>
                            clear_way (scenario_fs "a" "b" "c")
                              (output_path_of ["in"] None /: folder) = true)
                         (folders_of f)) scenario_files) as H2.
  { unfold scenario_files.
    repeat (constructor;
            [split; [vm_compute; reflexivity|];
             split; [discriminate|];
             split; [vm_compute; reflexivity|];
             vm_compute; repeat constructor|]).
    constructor. }
  split; [exact H1|]. split; [exact H2|].
  exact (sort_music_succeeds ["in"] None scenario_files
           (scenario_fs "a" "b" "c") H1 H2).
Defined.

(** A file called [_FAVORITES] stands where the favorites of its category
    need a directory: the favorite that comes after it is an error.  A
    scan does not return such a file, as its name does not end in
    [.wav]. *)
Example file_named_like_the_favorites_folder :
  match sort_music no_fault ["in"] None
          [ ["in"; "_FAVORITES"]; ["in"; "+++x.wav"] ]
          (<[ ["in"; "+++x.wav"] := File "x" ]>
             (<[ ["in"; "_FAVORITES"] := File "y" ]>
                (<[ ["in"] := Dir ]> ∅))) with
  | Some (fs', Some rep) =>
      total_files_processed rep = 1
      /\ errors_shown rep = [("+++x.wav", "[Errno 17] File exists")]
      /\ fs' !! ["in"; "SORTED_MUSIC"; "99_Uncategorized"; "Other";
                 "_FAVORITES"] = Some (File "y")
      /\ fs' !! ["in"; "SORTED_MUSIC"; "99_Uncategorized"; "Other";
                 "+++x.wav"] = Some (File "x")
  | _ => False
  end.
Proof. vm_compute. repeat split. Qed.

(* ====================================================================== *)
(** * What the scan finds *)
(* ====================================================================== *)

Lemma child_name_spec d k c : child_name d k = Some c <-> k = d ++ [c].
Proof.
  revert k. induction d as [|a d IH]; intros k; simpl.
  - destruct k as [|b [|b' k]]; split; try done; by intros [= ->].
  - destruct k as [|b k]; [split; [done | by destruct d]|].
    destruct (String.eqb_spec a b) as [->|Hne].
    + rewrite IH. split; [by intros -> | by intros [= ->]].
    + split; [done | by intros [= -> _]].
Qed.

Lemma entry_name_valid s : entry_name s = true -> valid_component s = true.
Proof. unfold entry_name. by intros [? _]%andb_true_iff. Qed.

(** The entries of a directory are the nodes one component below it. *)
Lemma listdir_spec fs d c :
  c ∈ listdir fs d <-> entry_name c = true /\ is_Some (fs !! (d ++ [c])).
Proof.
  unfold listdir. rewrite list_elem_of_omap. split.
  - intros ([k n] & Hin & Hf). simpl in Hf.
    apply elem_of_map_to_list in Hin.
    destruct (child_name d k) as [c'|] eqn:E; [|done].
    destruct (entry_name c') eqn:Ev; [|done]. injection Hf as ->.
    apply child_name_spec in E as ->. by eauto.
  - intros [Hv [n Hn]]. exists (d ++ [c], n). split.
    + by apply elem_of_map_to_list.
    + simpl. rewrite (proj2 (child_name_spec d (d ++ [c]) c) eq_refl).
      by rewrite Hv.
Qed.

Lemma listdir_NoDup fs d : NoDup (listdir fs d).
Proof.
  unfold listdir.
  pose proof (NoDup_fst_map_to_list fs) as Hnd.
  induction (map_to_list fs) as [|[k n] l IH]; simpl; [constructor|].
  rewrite fmap_cons in Hnd. apply NoDup_cons in Hnd as [Hk Hl].
  specialize (IH Hl).
  destruct (child_name d k) as [c|] eqn:E; [|done].
  destruct (entry_name c); [|done].
  apply NoDup_cons. split; [|done].
  intros Hin. apply list_elem_of_omap in Hin as ([k' n'] & Hin' & Hf).
  simpl in Hf.
  destruct (child_name d k') as [c'|] eqn:E'; [|done].
  destruct (entry_name c'); [|done]. injection Hf as ->.
  apply child_name_spec in E as ->. apply child_name_spec in E' as ->.
  apply Hk. apply list_elem_of_fmap. by exists (d ++ [c], n').
Qed.

(** A path that ends in an entry name is what the map holds there. *)
Lemma stat_entry fs p c :
  entry_name c = true -> stat fs (p ++ [c]) = fs !! (p ++ [c]).
Proof.
  intros Hv. unfold stat.
  destruct (p ++ [c]) as [|a l] eqn:E; [by destruct p|].
  destruct (PathLib.is_anchor (a :: l)) eqn:Ea; [|done].
  apply is_anchor_true in Ea. injection Ea as -> ->.
  destruct p as [|b [|b' p]]; try done. injection E as ->.
  by vm_compute in Hv.
Qed.

Lemma joinpath_entry p c : entry_name c = true -> p /: c = p ++ [c].
Proof. intros H. by apply joinpath_component, entry_name_valid. Qed.

(** ** The walk comes back *)

Lemma below_step fs root d :
  is_Some (fs !! (root ++ [d])) ->
  size (below fs (root ++ [d])) < size (below fs root).
Proof.
  intros Hd. apply subset_size. unfold below. split.
  - intros k. rewrite !elem_of_filter.
    intros [[Hpre Hne] Hdom]. split; [|done]. split.
    + etrans; [|exact Hpre]. by apply prefix_app_r.
    + intros ->. apply prefix_length in Hpre. rewrite length_app in Hpre.
      simpl in Hpre. lia.
  - intros Hsub. specialize (Hsub (root ++ [d])).
    rewrite !elem_of_filter in Hsub.
    destruct Hsub as [[_ Hne] _]; [|done].
    split; [split|].
    + by apply prefix_app_r.
    + intros H. apply (f_equal length) in H. rewrite length_app in H.
      simpl in H. lia.
    + by apply elem_of_dom.
Qed.

Lemma below_size fs root : size (below fs root) <= size fs.
Proof.
  rewrite <- size_dom. apply subseteq_size. unfold below.
  intros k. rewrite elem_of_filter. by intros [_ ?].
Qed.

Lemma walk_returns fuel fs exclude_folders root :
  size (below fs root) < fuel ->
  is_Some (walk fuel fs exclude_folders root).
Proof.
  revert root. induction fuel as [|fuel IH]; intros root Hfuel; [lia|].
  simpl. destruct (is_dir fs root); [|by eauto].
  match goal with
  | |- context [mapM ?f ?l] =>
      assert (is_Some (mapM f l)) as [below_l ->]; [|by eauto]
  end.
  apply mapM_is_Some, Forall_forall. intros d Hd. simpl.
  apply list_elem_of_filter in Hd as [_ Hd].
  apply list_elem_of_filter in Hd as [_ Hd].
  apply listdir_spec in Hd as [_ Hd].
  apply IH. pose proof (below_step fs root d Hd). lia.
Qed.

(** ** What the walk returns *)

Lemma is_file_entry fs p c :
  entry_name c = true ->
  is_file fs (p ++ [c]) = true
  <-> is_Some (fs !! (p ++ [c])) /\ is_dir fs (p ++ [c]) = false.
Proof.
  intros Hv. unfold is_file, is_dir. rewrite stat_entry by done.
  destruct (fs !! (p ++ [c])) as [[content|]|]; split; try done;
    try (by intros [? ?]); try (by intros [[? ?] ?]).
Qed.

Lemma walk_scanned fuel fs exclude_folders root l :
  walk fuel fs exclude_folders root = Some l ->
  forall p, p ∈ l <-> scanned fs exclude_folders root p.
Proof.
  revert root l. induction fuel as [|fuel IH]; intros root l; simpl; [done|].
  destruct (is_dir fs root) eqn:Hroot.
  - destruct (mapM _ _) as [below_l|] eqn:Hm; [|done].
    intros [= <-] p. apply mapM_Some_1 in Hm.
    rewrite elem_of_app. split.
    + intros [Hfound|Hbelow].
      * apply list_elem_of_fmap in Hfound as (file & -> & Hfile).
        apply list_elem_of_filter in Hfile as [Hwav Hfile].
        apply list_elem_of_filter in Hfile as [Hnd Hfile].
        apply listdir_spec in Hfile as [Hv Hsome].
        exists [], file. rewrite joinpath_entry by done.
        split; [done|]. split; [done|]. split; [by intros i d ?|].
        split; [done|]. split; [done|]. by apply is_file_entry.
      * apply list_elem_of_In, in_concat in Hbelow as (lst & Hlst & Hp).
        apply list_elem_of_In, list_elem_of_lookup in Hlst as [i Hi].
        destruct (Forall2_lookup_r _ _ _ _ _ Hm Hi) as (d & Hd & Hwalk).
        apply list_elem_of_lookup_2 in Hd.
        apply list_elem_of_filter in Hd as [Hex Hd].
        apply list_elem_of_filter in Hd as [Hdir Hd].
        apply listdir_spec in Hd as [Hv _].
        apply list_elem_of_In in Hp.
        destruct (proj1 (IH _ _ Hwalk p) Hp)
          as (rel & file & Heq & _ & Hrel & Hvf & Hw & Hf).
        subst p. exists (d :: rel), file. rewrite <- !app_assoc in *. simpl in *.
        split; [done|]. split; [done|]. split; [|done].
        intros [|j] x Hx; simpl in Hx.
        { injection Hx as <-. by rewrite take_0. }
        destruct (Hrel j x Hx) as (? & ? & Hdj).
        rewrite <- app_assoc in Hdj. by simpl in Hdj.
    + intros (rel & file & -> & _ & Hrel & Hvf & Hw & Hf).
      destruct rel as [|d rel].
      * left. simpl in *. apply list_elem_of_fmap. exists file.
        rewrite joinpath_entry by done. split; [done|].
        apply is_file_entry in Hf as [Hsome Hnd]; [|done].
        apply list_elem_of_filter. split; [done|].
        apply list_elem_of_filter. split; [done|].
        by apply listdir_spec.
      * right. destruct (Hrel 0 d eq_refl) as (Hv & Hex & Hdir).
        simpl in Hdir. rewrite take_0 in Hdir.
        assert (d ∈ filter (fun d => d ∉ exclude_folders)
                      (filter (fun c => is_dir fs (root ++ [c]) = true)
                              (listdir fs root))) as Hd.
        { apply list_elem_of_filter. split; [done|].
          apply list_elem_of_filter. split; [done|].
          apply listdir_spec. split; [done|].
          unfold is_dir in Hdir. rewrite stat_entry in Hdir by done.
          by destruct (fs !! (root ++ [d])). }
        apply list_elem_of_lookup in Hd as [i Hi].
        destruct (Forall2_lookup_l _ _ _ _ _ Hm Hi) as (lst & Hlst & Hwalk).
        apply list_elem_of_In, in_concat. exists lst.
        split; [by eapply list_elem_of_In, list_elem_of_lookup_2|].
        apply list_elem_of_In, (IH _ _ Hwalk).
        exists rel, file. rewrite <- !app_assoc. simpl.
        split; [done|]. split; [done|]. split; [|done].
        intros j x Hx. destruct (Hrel (S j) x Hx) as (? & ? & Hdj).
        split; [done|]. split; [done|].
        rewrite <- app_assoc. by simpl in *.
  - intros [= <-] p. split; [by intros ?%elem_of_nil|].
    intros (rel & file & _ & Hd & _). congruence.
Qed.

(** ** No file is found twice *)

Lemma NoDup_concat_disjoint {A} (ls : list (list A)) :
  Forall NoDup ls ->
  (forall i j li lj x,
     i <> j -> ls !! i = Some li -> ls !! j = Some lj ->
     x ∈ li -> x ∉ lj) ->
  NoDup (concat ls).
Proof.
  induction ls as [|l0 ls IH]; intros Hnd Hdis; simpl; [constructor|].
  apply Forall_cons in Hnd as [Hl0 Hls]. apply NoDup_app.
  split; [done|]. split.
  - intros x Hx Hin.
    apply list_elem_of_In, in_concat in Hin as (lj & Hlj & Hxj).
    apply list_elem_of_In, list_elem_of_lookup in Hlj as [j Hj].
    apply list_elem_of_In in Hxj.
    by apply (Hdis 0 (S j) l0 lj x).
  - apply IH; [done|]. intros i j li lj x Hij Hi Hj.
    apply (Hdis (S i) (S j)); [lia | done..].
Qed.

Lemma scanned_component fs exclude_folders root d p :
  scanned fs exclude_folders (root ++ [d]) p ->
  p !! length root = Some d /\ length root + 2 <= length p.
Proof.
  intros (rel & file & -> & _). rewrite <- app_assoc. simpl. split.
  - by apply list_lookup_middle.
  - rewrite length_app. simpl. rewrite length_app. simpl. lia.
Qed.

Lemma walk_NoDup fuel fs exclude_folders root l :
  walk fuel fs exclude_folders root = Some l -> NoDup l.
Proof.
  revert root l. induction fuel as [|fuel IH]; intros root l; simpl; [done|].
  destruct (is_dir fs root) eqn:Hroot; [|intros [= <-]; constructor].
  destruct (mapM _ _) as [below_l|] eqn:Hm; [|done].
  intros [= <-]. apply mapM_Some_1 in Hm.
  assert (NoDup (filter (fun d => d ∉ exclude_folders)
                   (filter (fun c => is_dir fs (root ++ [c]) = true)
                           (listdir fs root)))) as Hdirs
    by (do 2 apply NoDup_filter; apply listdir_NoDup).
  assert (forall i lst p,
            below_l !! i = Some lst -> p ∈ lst ->
            exists d,
              filter (fun d => d ∉ exclude_folders)
                (filter (fun c => is_dir fs (root ++ [c]) = true)
                        (listdir fs root)) !! i = Some d
              /\ p !! length root = Some d
              /\ length root + 2 <= length p) as Hcomp.
  { intros i lst p Hi Hp.
    destruct (Forall2_lookup_r _ _ _ _ _ Hm Hi) as (d & Hd & Hwalk).
    exists d. split; [done|].
    apply (scanned_component fs exclude_folders).
    by apply (walk_scanned _ _ _ _ _ Hwalk). }
  apply NoDup_app. split; [|split].
  - apply NoDup_fmap_2_strong.
    + intros x y Hx Hy.
      apply list_elem_of_filter in Hx as [_ Hx].
      apply list_elem_of_filter in Hx as [_ Hx].
      apply list_elem_of_filter in Hy as [_ Hy].
      apply list_elem_of_filter in Hy as [_ Hy].
      apply listdir_spec in Hx as [Hx _]. apply listdir_spec in Hy as [Hy _].
      rewrite !joinpath_entry by done. intros H.
      by apply app_inj_tail in H as [_ ?].
    + do 2 apply NoDup_filter. apply listdir_NoDup.
  - intros p Hp Hin.
    apply list_elem_of_fmap in Hp as (file & -> & Hfile).
    apply list_elem_of_filter in Hfile as [_ Hfile].
    apply list_elem_of_filter in Hfile as [_ Hfile].
    apply listdir_spec in Hfile as [Hv _].
    rewrite joinpath_entry in Hin by done.
    apply list_elem_of_In, in_concat in Hin as (lst & Hlst & Hp).
    apply list_elem_of_In, list_elem_of_lookup in Hlst as [i Hi].
    apply list_elem_of_In in Hp.
    destruct (Hcomp _ _ _ Hi Hp) as (d & _ & _ & Hlen).
    rewrite length_app in Hlen. simpl in Hlen. lia.
  - apply NoDup_concat_disjoint.
    + apply Forall_forall. intros lst Hlst.
      apply list_elem_of_lookup in Hlst as [i Hi].
      destruct (Forall2_lookup_r _ _ _ _ _ Hm Hi) as (d & _ & Hwalk).
      by apply (IH _ _ Hwalk).
    + intros i j li lj x Hij Hi Hj Hxi Hxj.
      destruct (Hcomp _ _ _ Hi Hxi) as (di & Hdi & Hci & _).
      destruct (Hcomp _ _ _ Hj Hxj) as (dj & Hdj & Hcj & _).
      assert (di = dj) as -> by congruence.
      apply Hij. by eapply NoDup_lookup.
Qed.

Lemma scan_files_scanned fs source_dir exclude_folders :
  exists wav_files,
    scan_files fs source_dir exclude_folders = Some wav_files
    /\ NoDup wav_files
    /\ forall p,
         p ∈ wav_files
         <-> scanned fs (default ["SORTED_MUSIC"] exclude_folders)
               source_dir p.
Proof.
  unfold scan_files.
  replace (match exclude_folders with
           | Some l => l
           | None => ["SORTED_MUSIC"]
           end) with (default ["SORTED_MUSIC"] exclude_folders)
    by (by destruct exclude_folders).
  destruct (walk_returns (S (size fs)) fs
              (default ["SORTED_MUSIC"] exclude_folders) source_dir)
    as [wav_files Hwalk].
  { pose proof (below_size fs source_dir). lia. }
  exists wav_files. split; [done|].
  split; [by eapply walk_NoDup | by eapply walk_scanned].
Qed.


(** Upper case in the extension, a directory with a [.wav] name, an
    excluded directory below the source and a source that has the
    excluded name itself. *)
Example scan_files_examples :
  let fs : FS :=
    <[ ["SORTED_MUSIC"; "set"; "SORTED_MUSIC"; "c.wav"] := File "c" ]>
      (<[ ["SORTED_MUSIC"; "set"; "SORTED_MUSIC"] := Dir ]>
         (<[ ["SORTED_MUSIC"; "set"; "notes.txt"] := File "n" ]>
            (<[ ["SORTED_MUSIC"; "set"; "B.WAV"] := File "b" ]>
               (<[ ["SORTED_MUSIC"; "set"] := Dir ]>
                  (<[ ["SORTED_MUSIC"; "loops.wav"; "a.wav"] := File "a" ]>
                     (<[ ["SORTED_MUSIC"; "loops.wav"] := Dir ]>
                        (<[ ["SORTED_MUSIC"] := Dir ]> ∅))))))) in
  match scan_files fs ["SORTED_MUSIC"] None with
  | Some wav_files =>
      wav_files ≡ₚ [ ["SORTED_MUSIC"; "loops.wav"; "a.wav"];
                     ["SORTED_MUSIC"; "set"; "B.WAV"] ]
  | None => False
  end.
Proof. vm_compute. apply perm_swap || reflexivity. Qed.

(** ** The paths a scan returns *)


Lemma scanned_file fs exclude_folders root p :
  scanned fs exclude_folders root p ->
  is_file fs p = true
  /\ entry_name (PathLib.name p) = true
  /\ is_wav (PathLib.name p) = true
  /\ exists rel, p = root ++ rel ++ [PathLib.name p].
Proof.
  intros (rel & file & -> & _ & _ & Hv & Hw & Hf).
  assert (PathLib.name (root ++ rel ++ [file]) = file) as ->.
  { rewrite app_assoc. apply name_snoc.
    by apply entry_name_valid, valid_component_spec in Hv as (? & _). }
  repeat split; try done. by exists rel.
Qed.




(* ====================================================================== *)
(** * The scan and the run *)
(* ====================================================================== *)




(** ** A second scan *)

Lemma is_dir_mono (fs fs' : FS) q :
  fs ⊆ fs' -> is_dir fs q = true -> is_dir fs' q = true.
Proof.
  intros Hsub. unfold is_dir.
  destruct (stat fs q) as [[c|]|] eqn:E; try done.
  by rewrite (stat_Dir_mono _ _ _ Hsub E).
Qed.

Lemma is_file_mono (fs fs' : FS) q :
  fs ⊆ fs' -> is_file fs q = true -> is_file fs' q = true.
Proof.
  intros Hsub. unfold is_file.
  destruct (stat fs q) as [[c|]|] eqn:E; try done.
  by rewrite (stat_File_mono _ _ _ _ Hsub E).
Qed.

(** A path below the source that is on the way to the default output
    directory, or in it, goes through [SORTED_MUSIC]. *)
Lemma through_output (source_path k : Path) :
  k <> [] ->
  (source_path ++ k) `prefix_of` (source_path ++ ["SORTED_MUSIC"])
  \/ (source_path ++ ["SORTED_MUSIC"]) `prefix_of` (source_path ++ k) ->
  k !! 0 = Some "SORTED_MUSIC".
Proof.
  intros Hne [H|H]; apply prefix_app_inv in H; destruct H as [k' Hk].
  - destruct k as [|x k]; [done|]. by injection Hk as <-.
  - rewrite Hk. done.
Qed.

(** What a run with the default output directory adds does not change
    what a scan of the source finds. *)
Lemma scanned_after_run (fs fs' : FS) (source_path p : Path) :
  fs ⊆ fs' ->
  is_dir fs source_path = true ->
  (forall q n,
     fs' !! q = Some n ->
     fs !! q = Some n
     \/ (q `prefix_of` source_path ++ ["SORTED_MUSIC"])
     \/ (source_path ++ ["SORTED_MUSIC"]) `prefix_of` q) ->
  scanned fs' ["SORTED_MUSIC"] source_path p
  <-> scanned fs ["SORTED_MUSIC"] source_path p.
Proof.
  intros Hsub Hroot Hnew. split.
  - intros (rel & file & -> & _ & Hrel & Hv & Hw & Hf).
    assert (rel !! 0 <> Some "SORTED_MUSIC") as Hhead.
    { intros H0. destruct (Hrel 0 _ H0) as (_ & Hex & _).
      apply Hex, elem_of_cons. by left. }
    exists rel, file. split; [done|]. split; [done|]. split; [|split; [done|]].
    + intros i d Hi. destruct (Hrel i d Hi) as (Hvd & Hex & Hdir).
      split; [done|]. split; [done|].
      rewrite (take_S_r _ _ _ Hi), app_assoc in *.
      unfold is_dir in *. rewrite stat_entry in * by done.
      destruct (fs' !! ((source_path ++ take i rel) ++ [d]))
        as [[c|]|] eqn:E; try done.
      destruct (Hnew _ _ E) as [->|Hout]; [done|]. exfalso.
      rewrite <- app_assoc in Hout.
      apply through_output in Hout; [|by destruct (take i rel)].
      apply Hhead. rewrite <- Hout.
      rewrite <- (take_S_r _ _ _ Hi).
      symmetry. apply lookup_take_lt. lia.
    + split; [done|]. rewrite app_assoc in *.
      unfold is_file in *. rewrite stat_entry in * by done.
      destruct (fs' !! ((source_path ++ rel) ++ [file]))
        as [[c|]|] eqn:E; try done.
      destruct (Hnew _ _ E) as [->|Hout]; [done|]. exfalso.
      rewrite <- app_assoc in Hout.
      apply through_output in Hout; [|by destruct rel].
      destruct rel as [|d rel]; simpl in Hout.
      * injection Hout as ->. by vm_compute in Hw.
      * by apply Hhead.
  - intros (rel & file & -> & _ & Hrel & Hv & Hw & Hf).
    exists rel, file. split; [done|].
    split; [by eapply is_dir_mono|]. split; [|split; [done|]].
    + intros i d Hi. destruct (Hrel i d Hi) as (Hvd & Hex & Hdir).
      split; [done|]. split; [done|]. by eapply is_dir_mono.
    + split; [done|]. by eapply is_file_mono.
Qed.

(** X15.  A second scan after a run with the default output directory.
    Whatever the operating system does during the run, what the run leaves
    in [source / 'SORTED_MUSIC'] is not scanned: a scan of the source after
    the run finds the files that the scan of the run found, no more and no
    fewer.  So a second run does not sort the copies of the first run,
    and it does copy every source file once more. *)
Theorem second_scan_finds_the_same_files
  (os_fault : FS -> syscall -> option fault) (source_path : Path) (fs : FS) :
  exists wav_files fs' res wav_files',
    scan_files fs source_path (Some ["SORTED_MUSIC"]) = Some wav_files
    /\ scan_and_sort os_fault source_path None fs = Some (fs', res)
    /\ scan_files fs' source_path (Some ["SORTED_MUSIC"]) = Some wav_files'
    /\ wav_files' ≡ₚ wav_files.
Proof.
  destruct (scan_files_scanned fs source_path (Some ["SORTED_MUSIC"]))
    as (wav_files & Hscan & Hnd & Hspec).
  exists wav_files. unfold scan_and_sort. rewrite Hscan.
  rewrite sort_music_unfold.
  destruct (Nat.eqb (length wav_files) 0) eqn:Elen.
  { exists fs, None, wav_files. by rewrite Hscan. }
  destruct (copy_batch_keeps os_fault
              (classification_map (classify_all wav_files))
              (output_path_of source_path None) wav_files progress0 fs)
    as (fs' & st' & Hrun & Hsub & _).
  rewrite Hrun.
  destruct (scan_files_scanned fs' source_path (Some ["SORTED_MUSIC"]))
    as (wav_files' & Hscan' & Hnd' & Hspec').
  eexists fs', _, wav_files'. split; [done|]. split; [done|].
  split; [done|].
  apply NoDup_Permutation; [done..|]. intros p.
  rewrite Hspec, Hspec'. simpl.
  assert (is_dir fs source_path = true) as Hroot.
  { destruct wav_files as [|p0 l]; [done|].
    destruct (proj1 (Hspec p0)) as (rel & file & _ & Hroot & _);
      [apply elem_of_cons; by left | done]. }
  apply scanned_after_run; [done..|].
  intros q n Hq.
  assert (Forall (fun f => valid_component (PathLib.name f) = true
                           /\ classification_map (classify_all wav_files)
                              !! f = Some (category_of f)) wav_files)
    as Hall.
  { apply Forall_forall. intros f Hf. split.
    - apply Hspec in Hf.
      destruct (scanned_file _ _ _ _ Hf) as (_ & Hv & _).
      by apply entry_name_valid.
    - by apply classification_map_lookup. }
  destruct (copy_batch_nodes _ _ _ _ _ _ _ _ Hall Hrun q n Hq)
    as [?|(f & Hf & Hmade)]; [by left|].
  right. apply made_for_below in Hmade. simpl in Hmade.
  rewrite joinpath_component in Hmade by done.
  destruct Hmade as [[_ ?]|?]; [by left | by right].
Qed.

(** An output directory inside the source that is not called
    [SORTED_MUSIC] is scanned by the next run. *)
Example output_inside_the_source_is_scanned :
  match scan_and_sort no_fault ["in"] (Some ["in"; "sorted"])
          (<[ ["in"; "a.wav"] := File "a" ]> (<[ ["in"] := Dir ]> ∅)) with
  | Some (fs', _) =>
      match scan_files fs' ["in"] (Some ["SORTED_MUSIC"]) with
      | Some wav_files' =>
          wav_files'
          ≡ₚ [ ["in"; "a.wav"];
               ["in"; "sorted"; "99_Uncategorized"; "Other"; "a.wav"] ]
      | None => False
      end
  | None => False
  end.
Proof. vm_compute. apply perm_swap || reflexivity. Qed.

(* ====================================================================== *)
(** * The favorite marker and the category *)
(* ====================================================================== *)

(** The character before the text matters to [\b] only as a word
    character or not. *)
Lemma match_here_prev p c s :
  Char.is_word c = false ->
  Re.match_here p (Some c) s = Re.match_here p None s.
Proof.
  intros Hc. induction p as [|[|cls q] p IH]; simpl; [done| |].
  - rewrite IH. f_equal. unfold Re.at_boundary. simpl. by rewrite Hc.
  - destruct q; [done| |done]. by rewrite IH.
Qed.

Lemma match_here_rejects p prev c s :
  rejects p c = true -> Re.match_here p prev (String c s) = false.
Proof.
  revert prev. induction p as [|[|cls q] p IH]; intros prev H; simpl in *;
    [done| |].
  - rewrite IH by done. apply andb_false_r.
  - destruct q.
    + apply negb_true_iff in H. by rewrite H.
    + apply andb_true_iff in H as [H1 H2]. apply negb_true_iff in H1.
      by rewrite H1, IH.
    + apply negb_true_iff in H. by rewrite H.
Qed.

Lemma search_skips pat c s :
  Char.is_word c = false ->
  match Re.compile pat with Some p => rejects p c | None => true end = true ->
  Re.search pat (String c s) = Re.search pat s.
Proof.
  intros Hc Hrej. unfold Re.search.
  destruct (Re.compile pat) as [p|]; [|done].
  simpl. rewrite match_here_rejects by done. simpl.
  destruct s as [|x s]; simpl; by rewrite match_here_prev.
Qed.

(** No match of a keyword of the table begins with [+]. *)
Lemma GENRE_RULES_reject_plus :
  forall name r pat,
    (name, r) ∈ GENRE_RULES -> pat ∈ keywords r ->
    match Re.compile pat with Some p => rejects p "+" | None => true end
    = true.
Proof.
  assert (H : forallb (fun x =>
                forallb (fun pat => match Re.compile pat with
                                    | Some p => rejects p "+"
                                    | None => true
                                    end)
                        (keywords (snd x))) GENRE_RULES = true)
    by (vm_compute; reflexivity).
  intros name r pat Hr Hpat.
  rewrite forallb_forall in H. apply list_elem_of_In in Hr.
  specialize (H _ Hr). simpl in H. rewrite forallb_forall in H.
  apply list_elem_of_In in Hpat. exact (H _ Hpat).
Qed.

Lemma classify_file_skips_plus s :
  classify_file (String "+" s) = classify_file s.
Proof.
  unfold classify_file. apply classify_rules_same_matches.
  intros name r Hr. unfold rule_matches.
  assert (forall pat, pat ∈ keywords r ->
                      Re.search pat (String "+" s) = Re.search pat s)
    as Hpat.
  { intros pat Hin. apply search_skips; [done|].
    by eapply GENRE_RULES_reject_plus. }
  induction (keywords r) as [|pat l IH]; [done|]. simpl.
  rewrite Hpat by (apply elem_of_cons; by left).
  rewrite IH; [done|]. intros pat' Hin. apply Hpat.
  apply elem_of_cons. by right.
Qed.

(** X16.  The favorite marker does not change the category.  A name
    that is [+++] followed by some text is a favorite, and it is classified
    as that text is.  So the folders a favorite is copied to are the
    category folder of the file without the marker, and the [_FAVORITES]
    folder in it. *)
Theorem favorite_marker_keeps_category (rest : string) :
  is_favorite ("+++" ++ rest) = true
  /\ classify_file (str_lower ("+++" ++ rest)) = classify_file (str_lower rest)
  /\ (no_slash rest = true ->
      forall p q : Path,
        category_of (p ++ [("+++" ++ rest)%string]) = category_of (q ++ [rest])
        /\ folders_of (p ++ [("+++" ++ rest)%string])
           = [category_of (q ++ [rest]);
              favorites_of (category_of (q ++ [rest]))]).
Proof.
  assert (classify_file (str_lower ("+++" ++ rest))
          = classify_file (str_lower rest)) as Heq.
  { change (str_lower ("+++" ++ rest))
      with (String "+" (String "+" (String "+" (str_lower rest)))).
    by rewrite !classify_file_skips_plus. }
  split; [done|]. split; [done|]. intros Hns p q.
  assert (no_slash ("+++" ++ rest) = true) as Hns'
    by (by rewrite no_slash_app, Hns).
  assert (category_of (p ++ [("+++" ++ rest)%string])
          = category_of (q ++ [rest])) as Hcat.
  { unfold category_of. by rewrite !name_snoc, Heq. }
  split; [done|]. unfold folders_of. rewrite Hcat.
  by rewrite (name_snoc p _ Hns').
Qed.

(* ====================================================================== *)
(** * A folder that cannot be made *)
(* ====================================================================== *)

Lemma forallb_false {A} (f : A -> bool) (l : list A) :
  forallb f l = false -> exists x, In x l /\ f x = false.
Proof.
  induction l as [|a l IH]; simpl; [done|].
  destruct (f a) eqn:E; simpl.
  - intros H. destruct (IH H) as (x & ? & ?). by eauto.
  - intros _. by eauto.
Qed.

(** A way that is not clear has a regular file on it. *)
Lemma clear_way_false fs p :
  clear_way fs p = false
  <-> exists i content,
        0 < i <= length p /\ stat fs (take i p) = Some (File content).
Proof.
  split.
  - intros H. unfold clear_way in H.
    apply forallb_false in H as (i & Hi & Hf).
    apply in_seq in Hi. apply negb_false_iff in Hf. unfold is_file in Hf.
    destruct (stat fs (take i p)) as [[content|]|] eqn:E; try done.
    exists i, content. split; [|done].
    destruct i; [by rewrite take_0 in E | lia].
  - intros (i & content & _ & Hst).
    destruct (clear_way fs p) eqn:E; [|done].
    exfalso. apply (proj1 (clear_way_spec _ _) E (take i p) content);
      [apply prefix_take | done].
Qed.

Lemma clear_way_false_mono (fs fs' : FS) p :
  fs ⊆ fs' -> clear_way fs p = false -> clear_way fs' p = false.
Proof.
  intros Hsub H. apply clear_way_false in H as (i & content & Hi & Hst).
  apply clear_way_false. exists i, content. split; [done|].
  by eapply stat_File_mono.
Qed.

Section Blocked.
Variable os_fault : FS -> syscall -> option fault.

(** [mkdir] raises when a regular file is on the way. *)
Lemma mkdir_walk_blocked todo above fs i content :
  0 < i <= length todo ->
  stat fs (above ++ take i todo) = Some (File content) ->
  exists msg, (mkdir_walk os_fault above todo fs).2 = Raised msg.
Proof.
  revert above fs i. induction todo as [|c todo IH]; intros above fs i Hi Hst;
    simpl in *; [lia|].
  destruct i as [|i]; [lia|]. simpl in Hst.
  assert (forall fs0 : FS,
            fs ⊆ fs0 -> stat fs (above ++ [c]) <> Some (File content) ->
            exists msg,
              (mkdir_walk os_fault (above ++ [c]) todo fs0).2 = Raised msg)
    as Hstep.
  { intros fs0 Hsub Hne. destruct i as [|i].
    - simpl in Hst. by rewrite take_0 in Hst.
    - apply (IH _ _ (S i)); [lia|].
      rewrite <- app_assoc. simpl. by eapply stat_File_mono. }
  destruct (stat fs (above ++ [c])) as [[content'|]|] eqn:E.
  - by eauto.
  - by apply Hstep.
  - destruct (os_fault fs (SysMkdir (above ++ [c]))); [by eauto|].
    apply Hstep; [|done]. apply insert_subseteq. by apply stat_None.
Qed.

Lemma copy_file_with_versioning_blocked
  source_path dest_folder base_path fs :
  clear_way fs (base_path /: dest_folder) = false ->
  exists fs' msg,
    copy_file_with_versioning os_fault source_path dest_folder base_path fs
    = Some (fs', Raised msg).
Proof.
  intros H. apply clear_way_false in H as (i & content & Hi & Hst).
  destruct (mkdir_walk_blocked (base_path /: dest_folder) [] fs i content
              Hi Hst) as [msg Hmsg].
  destruct (copy_file_with_versioning_steps os_fault source_path dest_folder
              base_path fs) as (fs1 & r1 & Hmk & Hcopy).
  rewrite Hmk in Hmsg. simpl in Hmsg. subst r1. by eauto.
Qed.

(** The [try] body raises for a file that has a folder which cannot be
    made. *)
Lemma try_copy_blocked cmap output_path f folder fs :
  cmap !! f = Some (category_of f) ->
  folder ∈ folders_of f ->
  clear_way fs (output_path /: folder) = false ->
  exists fs' msg,
    try_copy os_fault cmap output_path f fs = Some (fs', Raised msg).
Proof.
  intros Hmap Hin Hblocked. unfold try_copy. rewrite Hmap. unfold bind.
  destruct (copy_file_with_versioning_keeps os_fault f (category_of f)
              output_path fs) as (fs1 & r1 & Hrun1 & Hsub1).
  rewrite Hrun1. destruct r1 as [d1|msg]; [|by eauto].
  unfold folders_of in Hin. apply elem_of_cons in Hin as [->|Hin].
  - destruct (copy_file_with_versioning_blocked f (category_of f)
                output_path fs Hblocked) as (? & ? & ?).
    congruence.
  - destruct (is_favorite (PathLib.name f)); [|by apply elem_of_nil in Hin].
    apply elem_of_cons in Hin as [->|Hin]; [|by apply elem_of_nil in Hin].
    destruct (copy_file_with_versioning_blocked f
                (favorites_of (category_of f)) output_path fs1)
      as (fs2 & msg & Hrun2); [by eapply clear_way_false_mono|].
    change (category_of f ++ "/" ++ FAVORITES_SUBFOLDER)%string
      with (favorites_of (category_of f)).
    rewrite Hrun2. by eauto.
Qed.

Lemma copy_batch_blocked cmap output_path batch f folder st fs :
  f ∈ batch ->
  cmap !! f = Some (category_of f) ->
  folder ∈ folders_of f ->
  clear_way fs (output_path /: folder) = false ->
  exists fs' st' msg,
    copy_batch os_fault cmap output_path batch st fs = Some (fs', st')
    /\ (PathLib.name f, msg) ∈ errors st'
    /\ processed st' + length (errors st')
       = processed st + length (errors st) + length batch.
Proof.
  intros Hf Hmap Hin Hblocked.
  destruct (copy_batch_keeps os_fault cmap output_path batch st fs)
    as (fs' & st' & Hrun & _ & Hcount & _).
  apply list_elem_of_split in Hf as (l1 & l2 & ->).
  rewrite copy_batch_app in Hrun.
  destruct (copy_batch_keeps os_fault cmap output_path l1 st fs)
    as (fs1 & st1 & Hrun1 & Hsub1 & _).
  rewrite Hrun1 in Hrun. simpl in Hrun. unfold copy_one in Hrun.
  destruct (try_copy_blocked cmap output_path f folder fs1 Hmap Hin)
    as (fs2 & msg & Htry); [by eapply clear_way_false_mono|].
  rewrite Htry in Hrun.
  destruct (copy_batch_keeps os_fault cmap output_path l2
              (handle f st1 (Raised msg)) fs2)
    as (fs3 & st3 & Hrun3 & _ & _ & more & Hmore).
  rewrite Hrun3 in Hrun. injection Hrun as <- <-.
  exists fs3, st3, msg. rewrite copy_batch_app, Hrun1. simpl.
  unfold copy_one. rewrite Htry. split; [done|]. split; [|done].
  rewrite Hmore. simpl. apply elem_of_app. left. apply elem_of_app. right.
  apply elem_of_cons. by left.
Qed.

End Blocked.

(** X17.  A folder that cannot be made.  When a regular file stands on
    the way to a folder of a scanned file -- at the output directory, at
    the category folder, at the [_FAVORITES] folder of a favorite, or
    above them -- that scanned file ends in the list of errors, whatever
    the operating system does; the run still comes to its end and counts
    every file once, so fewer files are processed than were scanned. *)
Theorem blocked_folder_is_an_error
  (os_fault : FS -> syscall -> option fault)
  (source_path : Path) (output_dir : option Path)
  (all_files : list Path) (fs : FS) (f : Path) (folder : string) :
  f ∈ all_files ->
  folder ∈ folders_of f ->
  clear_way fs (output_path_of source_path output_dir /: folder) = false ->
  exists fs' st' msg rep,
    copy_batches os_fault (classification_map (classify_all all_files))
      (output_path_of source_path output_dir) all_files
      (range_step (length all_files) BATCH_SIZE) progress0 fs
    = Some (fs', st')
    /\ (PathLib.name f, msg) ∈ errors st'
    /\ sort_music os_fault source_path output_dir all_files fs
       = Some (fs', Some rep)
    /\ error_count rep = length (errors st')
    /\ 0 < error_count rep
    /\ total_files_processed rep + error_count rep = length all_files.
Proof.
  intros Hf Hin Hblocked.
  destruct (copy_batch_blocked os_fault
              (classification_map (classify_all all_files))
              (output_path_of source_path output_dir) all_files f folder
              progress0 fs Hf (classification_map_lookup _ _ Hf) Hin
              Hblocked)
    as (fs' & st' & msg & Hrun & Herr & Hcount).
  rewrite sort_music_unfold, copy_batches_flat, Hrun.
  assert (Nat.eqb (length all_files) 0 = false) as ->.
  { apply Nat.eqb_neq. destruct all_files; [by apply elem_of_nil in Hf|done]. }
  eexists fs', st', msg, _. split; [done|]. split; [done|].
  split; [reflexivity|]. simpl in *. split; [done|].
  split; [|lia]. destruct (errors st'); [by apply elem_of_nil in Herr|].
  simpl. lia.
Qed.

Lemma blocked_folder_is_an_error_witness :
  ["in"; "pop song.wav"] ∈ [ ["in"; "pop song.wav"] ]
  /\ "04_Pop_Mainstream/Pop" ∈ folders_of ["in"; "pop song.wav"]
  /\ clear_way (<[ ["out"] := File "notes" ]>
                  (<[ ["in"; "pop song.wav"] := File "RIFF" ]>
                     (<[ ["in"] := Dir ]> ∅)))
       (output_path_of ["in"] (Some ["out"]) /: "04_Pop_Mainstream/Pop")
     = false
  /\ exists fs' st' msg rep,
       copy_batches no_fault
         (classification_map (classify_all [ ["in"; "pop song.wav"] ]))
         (output_path_of ["in"] (Some ["out"])) [ ["in"; "pop song.wav"] ]
         (range_step (length [ ["in"; "pop song.wav"] ]) BATCH_SIZE)
         progress0
         (<[ ["out"] := File "notes" ]>
            (<[ ["in"; "pop song.wav"] := File "RIFF" ]>
               (<[ ["in"] := Dir ]> ∅)))
       = Some (fs', st')
       /\ (PathLib.name ["in"; "pop song.wav"], msg) ∈ errors st'
       /\ sort_music no_fault ["in"] (Some ["out"]) [ ["in"; "pop song.wav"] ]
            (<[ ["out"] := File "notes" ]>
               (<[ ["in"; "pop song.wav"] := File "RIFF" ]>
                  (<[ ["in"] := Dir ]> ∅)))
          = Some (fs', Some rep)
       /\ error_count rep = length (errors st')
       /\ 0 < error_count rep
       /\ total_files_processed rep + error_count rep
          = length [ ["in"; "pop song.wav"] ].
Proof.
  assert (["in"; "pop song.wav"] ∈ [ ["in"; "pop song.wav"] ]) as H1
    by (apply elem_of_cons; by left).
  assert ("04_Pop_Mainstream/Pop" ∈ folders_of ["in"; "pop song.wav"]) as H2
    by (vm_compute; apply elem_of_cons; by left).
  assert (clear_way (<[ ["out"] := File "notes" ]>
                       (<[ ["in"; "pop song.wav"] := File "RIFF" ]>
                          (<[ ["in"] := Dir ]> ∅)))
            (output_path_of ["in"] (Some ["out"]) /: "04_Pop_Mainstream/Pop")
          = false) as H3 by (vm_compute; reflexivity).
  split; [exact H1|]. split; [exact H2|]. split; [exact H3|].
  exact (blocked_folder_is_an_error no_fault ["in"] (Some ["out"])
           [ ["in"; "pop song.wav"] ] _ _ _ H1 H2 H3).
Defined.
